(** * Offline-first task synchronisation: TaskService and SyncService

    A shallow embedding of [services/taskService.ts], [services/syncService.ts]
    and the create handler of [routes/tasks.ts].

    Conventions of the embedding.
    - Instants ([Date] objects and the ISO-8601 text stored in the tables) are
      integers: milliseconds since the epoch.  [toISOString] followed by
      [new Date] is the identity on them.
    - The three tables are lists of rows in table order.  A [WHERE] clause is a
      filter (or a conditional map) over the rows; no uniqueness of [id] is
      built in, the schema being outside the services.
    - [db.run], [db.get] and [db.all] always succeed; every call is appended to
      a journal so that the order of the statements can be stated.
    - The clock, [uuidv4], [md5] and the HTTP server are oracles of the
      environment, indexed by the number of oracle reads made so far.
    - Strings are the bytes of their UTF-8 encoding.  [String.prototype.trim]
      is a parameter of the route handler, of which [trim_utf8] is an
      implementation.
    - A column of type text that is bound to a plain object receives the
      object's [toString()], [object_text]. *)

From Stdlib Require Import ZArith String Ascii List Bool Lia.
From Stdlib Require Import Sorting.Sorted Sorting.Permutation.
Import ListNotations.

Local Open Scope Z_scope.
Local Open Scope list_scope.

(** ** JavaScript values and operators used by the services *)

(** [s || d] on strings: the empty string is falsy. *)
Definition str_or (s d : string) : string :=
  if String.eqb s EmptyString then d else s.

(** [o || d] where [o] may be undefined. *)
Definition opt_str_or (o : option string) (d : string) : string :=
  match o with
  | Some s => str_or s d
  | None => d
  end.

Definition opt_bool_or (o : option bool) (d : bool) : bool :=
  match o with
  | Some b => b || d
  | None => d
  end.

(** Truthiness of an optional string ([undefined], [null] and [''] are falsy). *)
Definition truthy_str (o : option string) : bool :=
  match o with
  | Some s => negb (String.eqb s EmptyString)
  | None => false
  end.

(** [Boolean(n)] on a stored integer. *)
Definition Boolean (n : Z) : bool := negb (n =? 0).

(** [b ? 1 : 0]. *)
Definition to_int (b : bool) : Z := if b then 1 else 0.

(** ** Data model (types.ts is consumed through the services) *)

Module SyncStatus.
Inductive t := pending | in_progress | synced | error | failed.

Definition eqb (a b : t) : bool :=
  match a, b with
  | pending, pending | in_progress, in_progress | synced, synced
  | error, error | failed, failed => true
  | _, _ => false
  end.
End SyncStatus.

Module Operation.
Inductive t := create | update | delete.

Definition to_string (o : t) : string :=
  match o with
  | create => "create"
  | update => "update"
  | delete => "delete"
  end.
End Operation.

Module Task.
Record t := mk {
  id : string;
  title : string;
  description : string;
  completed : bool;
  created_at : Z;
  updated_at : Z;
  is_deleted : bool;
  sync_status : SyncStatus.t;
  server_id : option string;
  last_synced_at : option Z
}.
End Task.

(** [Partial<Task>]: [None] is a key that the object does not carry. *)
Module Partial.
Record t := mk {
  id : option string;
  title : option string;
  description : option string;
  completed : option bool;
  created_at : option Z;
  updated_at : option Z;
  is_deleted : option bool;
  sync_status : option SyncStatus.t;
  server_id : option string;
  last_synced_at : option Z
}.

Definition empty : t :=
  mk None None None None None None None None None None.

(** The object literal [{ server_id: v }]. *)
Definition of_server_id (v : option string) : t :=
  mk None None None None None None None None v None.

(** A whole task passed where a [Partial<Task>] is expected. *)
Definition of_task (k : Task.t) : t :=
  mk (Some (Task.id k)) (Some (Task.title k)) (Some (Task.description k))
     (Some (Task.completed k)) (Some (Task.created_at k))
     (Some (Task.updated_at k)) (Some (Task.is_deleted k))
     (Some (Task.sync_status k)) (Task.server_id k) (Task.last_synced_at k).
End Partial.

(** A row of table [tasks]: booleans are stored as integers. *)
Module TaskRow.
Record t := mk {
  id : string;
  title : string;
  description : string;
  completed : Z;
  created_at : Z;
  updated_at : Z;
  is_deleted : Z;
  sync_status : SyncStatus.t;
  server_id : option string;
  last_synced_at : option Z
}.
End TaskRow.

(** [SyncQueueItem], also the row of table [sync_queue]: [data] is the task
    snapshot, [JSON.stringify] on insertion and [JSON.parse] on reading. *)
Module SyncQueueItem.
Record t := mk {
  id : string;
  task_id : string;
  operation : Operation.t;
  data : Task.t;
  created_at : Z;
  retry_count : Z;
  error_message : option string
}.
End SyncQueueItem.

(** What the driver stores for a bound parameter that is a plain object
    (neither a buffer nor a date): its [toString()]. *)
Definition object_text : string := "[object Object]".

(** A row of table [dead_letter_queue], as [getDeadLetterQueue] returns it:
    [data] is the text of the column, which is never parsed. *)
Module DeadLetter.
Record t := mk {
  id : string;
  task_id : string;
  operation : Operation.t;
  data : string;
  created_at : Z;
  failed_at : Z;
  retry_count : Z;
  final_error_message : string
}.
End DeadLetter.

(** ** The store and the journal of executed statements *)

Inductive Stmt :=
| InsertTask (id : string)
| UpdateTaskFields (id : string)
| SoftDeleteTask (id : string)
| SelectTask (id : string)
| SelectAllTasks
| SelectTasksNeedingSync
| InsertSyncQueue (id task_id : string) (op : Operation.t)
| SelectSyncQueue
| UpdateSyncQueueRetry (id : string) (retry_count : Z)
| DeleteSyncQueueById (id : string)
| DeleteSyncQueueByTask (task_id : string)
| UpdateTaskSyncStatus (task_id : string) (status : SyncStatus.t)
| UpdateTaskSynced (task_id : string) (status : SyncStatus.t)
| InsertDeadLetter (id : string).

Record World := mkWorld {
  tasks : list TaskRow.t;
  sync_queue : list SyncQueueItem.t;
  dead_letter_queue : list DeadLetter.t;
  journal : list Stmt;
  ticks : nat
}.

Definition with_tasks (f : list TaskRow.t -> list TaskRow.t) (w : World) : World :=
  mkWorld (f (tasks w)) (sync_queue w) (dead_letter_queue w) (journal w) (ticks w).

Definition with_sync_queue
    (f : list SyncQueueItem.t -> list SyncQueueItem.t) (w : World) : World :=
  mkWorld (tasks w) (f (sync_queue w)) (dead_letter_queue w) (journal w) (ticks w).

Definition with_dead_letter_queue
    (f : list DeadLetter.t -> list DeadLetter.t) (w : World) : World :=
  mkWorld (tasks w) (sync_queue w) (f (dead_letter_queue w)) (journal w) (ticks w).

Definition log (s : Stmt) (w : World) : World :=
  mkWorld (tasks w) (sync_queue w) (dead_letter_queue w) (journal w ++ [s]) (ticks w).

Definition tick (w : World) : World :=
  mkWorld (tasks w) (sync_queue w) (dead_letter_queue w) (journal w) (S (ticks w)).

(** ** State monad of the services *)

Definition M (A : Type) : Type := World -> A * World.

Definition ret {A} (a : A) : M A := fun w => (a, w).

Definition bind {A B} (m : M A) (k : A -> M B) : M B :=
  fun w => let (a, w') := m w in k a w'.

Declare Scope svc_scope.
Delimit Scope svc_scope with svc.
Notation "x <- m ;; k" := (bind m (fun x => k))
  (at level 61, m at next level, right associativity) : svc_scope.
Notation "m ;;; k" := (bind m (fun _ => k))
  (at level 61, right associativity) : svc_scope.

(** A statement with no result: apply the effect, then journal it. *)
Definition db_run (s : Stmt) (effect : World -> World) : M unit :=
  fun w => (tt, log s (effect w)).

(** A query: journal it and return what it reads. *)
Definition db_query {A} (s : Stmt) (read : World -> A) : M A :=
  fun w => (read w, log s w).

(** [for (const x of xs) body(x)]. *)
Fixpoint for_each {A} (body : A -> M unit) (xs : list A) : M unit :=
  match xs with
  | [] => ret tt
  | x :: rest => bind (body x) (fun _ => for_each body rest)
  end.

(** A loop that threads a local variable through its body. *)
Fixpoint fold_each {A S} (body : S -> A -> M S) (xs : list A) (s : S) : M S :=
  match xs with
  | [] => ret s
  | x :: rest => bind (body s x) (fun s' => fold_each body rest s')
  end.

(** Stable insertion sort: [le a b] says that [a] may stay before [b]. *)
Section Sort.
Context {A : Type} (le : A -> A -> bool).

Fixpoint insert_sorted (x : A) (l : list A) : list A :=
  match l with
  | [] => [x]
  | y :: rest => if le x y then x :: y :: rest else y :: insert_sorted x rest
  end.

Definition sort_by (l : list A) : list A := fold_right insert_sorted [] l.
End Sort.

(** ** Environment *)

Module ItemStatus.
Inductive t := success | conflict | error.
End ItemStatus.

Record ProcessedItem := mkProcessedItem {
  client_id : string;
  pi_server_id : option string;
  status : ItemStatus.t;
  resolved_data : option Task.t;
  pi_error : option string
}.

Record BatchSyncRequest := mkBatchSyncRequest {
  items : list SyncQueueItem.t;
  client_timestamp : Z;
  checksum : string
}.

Record BatchSyncResponse := mkBatchSyncResponse {
  processed_items : list ProcessedItem;
  server_timestamp : Z;
  checksum_verified : bool
}.

Record Env := mkEnv {
  BATCH_SIZE : Z;                       (* parseInt(SYNC_BATCH_SIZE || '10') *)
  clock : nat -> Z;                     (* new Date() *)
  uuid : nat -> string;                 (* uuidv4() *)
  md5 : string -> string;               (* crypto md5, hex digest *)
  health : nat -> bool;                 (* GET /sync/health answered 2xx in time *)
  post_batch : nat -> BatchSyncRequest -> string + BatchSyncResponse
                                        (* POST /sync/batch: inl is the thrown
                                           error's message *)
}.

Definition MAX_RETRIES : Z := 3.

Record SyncError := mkSyncError {
  se_task_id : string;
  se_operation : string;
  se_error : string;
  se_timestamp : Z
}.

Record SyncResult := mkSyncResult {
  success : bool;
  synced_items : Z;
  failed_items : Z;
  errors : list SyncError
}.

(** ** TaskService *)

Section Services.
Variable E : Env.

Local Open Scope svc_scope.

(** [new Date()] *)
Definition new_Date : M Z := fun w => (clock E (ticks w), tick w).

(** [uuidv4()] *)
Definition uuidv4 : M string := fun w => (uuid E (ticks w), tick w).

Definition mapRowToTask (row : TaskRow.t) : Task.t :=
  {| Task.id := TaskRow.id row;
     Task.title := TaskRow.title row;
     Task.description := TaskRow.description row;
     Task.completed := Boolean (TaskRow.completed row);
     Task.created_at := TaskRow.created_at row;
     Task.updated_at := TaskRow.updated_at row;
     Task.is_deleted := Boolean (TaskRow.is_deleted row);
     Task.sync_status := TaskRow.sync_status row;
     Task.server_id := TaskRow.server_id row;
     Task.last_synced_at := TaskRow.last_synced_at row |}.

(** [INSERT INTO sync_queue (...) VALUES (?, ?, ?, ?, ?, 0)] *)
Definition addToSyncQueue
    (taskId : string) (operation : Operation.t) (data : Task.t) : M unit :=
  queueId <- uuidv4 ;;
  now <- new_Date ;;
  db_run (InsertSyncQueue queueId taskId operation)
    (with_sync_queue (fun q =>
       q ++ [ {| SyncQueueItem.id := queueId;
                 SyncQueueItem.task_id := taskId;
                 SyncQueueItem.operation := operation;
                 SyncQueueItem.data := data;
                 SyncQueueItem.created_at := now;
                 SyncQueueItem.retry_count := 0;
                 SyncQueueItem.error_message := None |} ])).

Definition createTask (taskData : Partial.t) : M Task.t :=
  id <- uuidv4 ;;
  now <- new_Date ;;
  let task :=
    {| Task.id := id;
       Task.title := opt_str_or (Partial.title taskData) EmptyString;
       Task.description := opt_str_or (Partial.description taskData) EmptyString;
       Task.completed := opt_bool_or (Partial.completed taskData) false;
       Task.created_at := now;
       Task.updated_at := now;
       Task.is_deleted := false;
       Task.sync_status := SyncStatus.pending;
       Task.server_id := None;
       Task.last_synced_at := None |} in
  db_run (InsertTask (Task.id task))
    (with_tasks (fun ts =>
       ts ++ [ {| TaskRow.id := Task.id task;
                  TaskRow.title := Task.title task;
                  TaskRow.description := Task.description task;
                  TaskRow.completed := to_int (Task.completed task);
                  TaskRow.created_at := now;
                  TaskRow.updated_at := now;
                  TaskRow.is_deleted := to_int (Task.is_deleted task);
                  TaskRow.sync_status := Task.sync_status task;
                  TaskRow.server_id := None;
                  TaskRow.last_synced_at := None |} ])) ;;;
  addToSyncQueue (Task.id task) Operation.create task ;;;
  ret task.

(** [WHERE id = ? AND is_deleted = 0] *)
Definition live_with_id (id : string) (row : TaskRow.t) : bool :=
  String.eqb (TaskRow.id row) id && (TaskRow.is_deleted row =? 0).

(** [db.get] returns the first row of the result, if any. *)
Definition getTask (id : string) : M (option Task.t) :=
  row <- db_query (SelectTask id) (fun w => hd_error (filter (live_with_id id) (tasks w))) ;;
  match row with
  | None => ret None
  | Some r => ret (Some (mapRowToTask r))
  end.

(** [{ ...existingTask, ...updates }] *)
Definition spread (t : Task.t) (u : Partial.t) : Task.t :=
  let over {A} (o : option A) (d : A) := match o with Some v => v | None => d end in
  {| Task.id := over (Partial.id u) (Task.id t);
     Task.title := over (Partial.title u) (Task.title t);
     Task.description := over (Partial.description u) (Task.description t);
     Task.completed := over (Partial.completed u) (Task.completed t);
     Task.created_at := over (Partial.created_at u) (Task.created_at t);
     Task.updated_at := over (Partial.updated_at u) (Task.updated_at t);
     Task.is_deleted := over (Partial.is_deleted u) (Task.is_deleted t);
     Task.sync_status := over (Partial.sync_status u) (Task.sync_status t);
     Task.server_id :=
       match Partial.server_id u with Some s => Some s | None => Task.server_id t end;
     Task.last_synced_at :=
       match Partial.last_synced_at u with
       | Some d => Some d
       | None => Task.last_synced_at t
       end |}.

(** [UPDATE tasks SET title = ?, description = ?, completed = ?,
    updated_at = ?, sync_status = ? WHERE id = ? AND is_deleted = 0] *)
Definition update_fields
    (id title description : string) (completed now : Z) (st : SyncStatus.t)
    (row : TaskRow.t) : TaskRow.t :=
  if live_with_id id row then
    {| TaskRow.id := TaskRow.id row;
       TaskRow.title := title;
       TaskRow.description := description;
       TaskRow.completed := completed;
       TaskRow.created_at := TaskRow.created_at row;
       TaskRow.updated_at := now;
       TaskRow.is_deleted := TaskRow.is_deleted row;
       TaskRow.sync_status := st;
       TaskRow.server_id := TaskRow.server_id row;
       TaskRow.last_synced_at := TaskRow.last_synced_at row |}
  else row.

Definition updateTask (id : string) (updates : Partial.t) : M (option Task.t) :=
  existingTask <- getTask id ;;
  match existingTask with
  | None => ret None
  | Some existing =>
      now <- new_Date ;;
      let merged := spread existing updates in
      let updatedTask :=
        {| Task.id := id; (* Ensure ID cannot be changed *)
           Task.title := Task.title merged;
           Task.description := Task.description merged;
           Task.completed := Task.completed merged;
           Task.created_at := Task.created_at merged;
           Task.updated_at := now;
           Task.is_deleted := Task.is_deleted merged;
           Task.sync_status := SyncStatus.pending;
           Task.server_id := Task.server_id merged;
           Task.last_synced_at := Task.last_synced_at merged |} in
      db_run (UpdateTaskFields id)
        (with_tasks (map (update_fields id
           (Task.title updatedTask) (Task.description updatedTask)
           (to_int (Task.completed updatedTask)) now
           (Task.sync_status updatedTask)))) ;;;
      addToSyncQueue id Operation.update updatedTask ;;;
      ret (Some updatedTask)
  end.

(** [UPDATE tasks SET is_deleted = 1, updated_at = ?, sync_status = ?
    WHERE id = ? AND is_deleted = 0] *)
Definition soft_delete (id : string) (now : Z) (st : SyncStatus.t)
    (row : TaskRow.t) : TaskRow.t :=
  if live_with_id id row then
    {| TaskRow.id := TaskRow.id row;
       TaskRow.title := TaskRow.title row;
       TaskRow.description := TaskRow.description row;
       TaskRow.completed := TaskRow.completed row;
       TaskRow.created_at := TaskRow.created_at row;
       TaskRow.updated_at := now;
       TaskRow.is_deleted := 1;
       TaskRow.sync_status := st;
       TaskRow.server_id := TaskRow.server_id row;
       TaskRow.last_synced_at := TaskRow.last_synced_at row |}
  else row.

Definition deleteTask (id : string) : M bool :=
  existingTask <- getTask id ;;
  match existingTask with
  | None => ret false
  | Some existing =>
      now <- new_Date ;;
      db_run (SoftDeleteTask id)
        (with_tasks (map (soft_delete id now SyncStatus.pending))) ;;;
      let deletedTask :=
        {| Task.id := Task.id existing;
           Task.title := Task.title existing;
           Task.description := Task.description existing;
           Task.completed := Task.completed existing;
           Task.created_at := Task.created_at existing;
           Task.updated_at := now;
           Task.is_deleted := true;
           Task.sync_status := SyncStatus.pending;
           Task.server_id := Task.server_id existing;
           Task.last_synced_at := Task.last_synced_at existing |} in
      addToSyncQueue id Operation.delete deletedTask ;;;
      ret true
  end.

(** [WHERE is_deleted = 0 ORDER BY created_at DESC] *)
Definition getAllTasks : M (list Task.t) :=
  rows <- db_query SelectAllTasks (fun w =>
    sort_by (fun a b => TaskRow.created_at b <=? TaskRow.created_at a)
      (filter (fun r => TaskRow.is_deleted r =? 0) (tasks w))) ;;
  ret (map mapRowToTask rows).

(** [WHERE sync_status IN ('pending', 'error')] *)
Definition needs_sync (row : TaskRow.t) : bool :=
  match TaskRow.sync_status row with
  | SyncStatus.pending | SyncStatus.error => true
  | _ => false
  end.

(** [... ORDER BY updated_at ASC] *)
Definition getTasksNeedingSync : M (list Task.t) :=
  rows <- db_query SelectTasksNeedingSync (fun w =>
    sort_by (fun a b => TaskRow.updated_at a <=? TaskRow.updated_at b)
      (filter needs_sync (tasks w))) ;;
  ret (map mapRowToTask rows).

(** ** SyncService *)

(** [new Date(x.updated_at).getTime()] is the instant itself. *)
Definition resolveConflict (localTask serverTask : Task.t) : Task.t :=
  let localTime := Task.updated_at localTask in
  let serverTime := Task.updated_at serverTask in
  if localTime >? serverTime then localTask
  else if serverTime >? localTime then serverTask
  else serverTask.

(** [UPDATE tasks SET sync_status = ?, last_synced_at = ? [, server_id = ?]
    WHERE id = ?] *)
Definition mark_synced
    (taskId : string) (st : SyncStatus.t) (now : Z) (new_server_id : option string)
    (row : TaskRow.t) : TaskRow.t :=
  if String.eqb (TaskRow.id row) taskId then
    {| TaskRow.id := TaskRow.id row;
       TaskRow.title := TaskRow.title row;
       TaskRow.description := TaskRow.description row;
       TaskRow.completed := TaskRow.completed row;
       TaskRow.created_at := TaskRow.created_at row;
       TaskRow.updated_at := TaskRow.updated_at row;
       TaskRow.is_deleted := TaskRow.is_deleted row;
       TaskRow.sync_status := st;
       TaskRow.server_id :=
         match new_server_id with
         | Some s => Some s
         | None => TaskRow.server_id row
         end;
       TaskRow.last_synced_at := Some now |}
  else row.

Definition updateSyncStatus
    (taskId : string) (st : SyncStatus.t) (serverData : option Partial.t) : M unit :=
  now <- new_Date ;;
  let sid := match serverData with Some d => Partial.server_id d | None => None end in
  db_run (UpdateTaskSynced taskId st)
    (with_tasks (map (mark_synced taskId st now
                        (if truthy_str sid then sid else None)))) ;;;
  if SyncStatus.eqb st SyncStatus.synced then
    db_run (DeleteSyncQueueByTask taskId)
      (with_sync_queue
         (filter (fun i => negb (String.eqb (SyncQueueItem.task_id i) taskId))))
  else ret tt.

(** [UPDATE tasks SET sync_status = ? WHERE id = ?] *)
Definition set_status (taskId : string) (st : SyncStatus.t)
    (row : TaskRow.t) : TaskRow.t :=
  if String.eqb (TaskRow.id row) taskId then
    {| TaskRow.id := TaskRow.id row;
       TaskRow.title := TaskRow.title row;
       TaskRow.description := TaskRow.description row;
       TaskRow.completed := TaskRow.completed row;
       TaskRow.created_at := TaskRow.created_at row;
       TaskRow.updated_at := TaskRow.updated_at row;
       TaskRow.is_deleted := TaskRow.is_deleted row;
       TaskRow.sync_status := st;
       TaskRow.server_id := TaskRow.server_id row;
       TaskRow.last_synced_at := TaskRow.last_synced_at row |}
  else row.

Definition updateTaskSyncStatus (taskId : string) (st : SyncStatus.t) : M unit :=
  db_run (UpdateTaskSyncStatus taskId st) (with_tasks (map (set_status taskId st))).

(** The insertion binds [item.data], the snapshot that [getSyncQueueItems]
    parsed, without [JSON.stringify] (unlike [addToSyncQueue]): the column
    receives [object_text], whatever the snapshot. *)
Definition moveToDeadLetterQueue
    (item : SyncQueueItem.t) (errorMessage : string) : M unit :=
  now <- new_Date ;;
  db_run (InsertDeadLetter (SyncQueueItem.id item))
    (with_dead_letter_queue (fun d =>
       d ++ [ {| DeadLetter.id := SyncQueueItem.id item;
                 DeadLetter.task_id := SyncQueueItem.task_id item;
                 DeadLetter.operation := SyncQueueItem.operation item;
                 DeadLetter.data := object_text;
                 DeadLetter.created_at := SyncQueueItem.created_at item;
                 DeadLetter.failed_at := now;
                 DeadLetter.retry_count := SyncQueueItem.retry_count item;
                 DeadLetter.final_error_message := errorMessage |} ])).

(** [UPDATE sync_queue SET retry_count = ?, error_message = ? WHERE id = ?] *)
Definition bump_retry (id : string) (newRetryCount : Z) (message : string)
    (row : SyncQueueItem.t) : SyncQueueItem.t :=
  if String.eqb (SyncQueueItem.id row) id then
    {| SyncQueueItem.id := SyncQueueItem.id row;
       SyncQueueItem.task_id := SyncQueueItem.task_id row;
       SyncQueueItem.operation := SyncQueueItem.operation row;
       SyncQueueItem.data := SyncQueueItem.data row;
       SyncQueueItem.created_at := SyncQueueItem.created_at row;
       SyncQueueItem.retry_count := newRetryCount;
       SyncQueueItem.error_message := Some message |}
  else row.

Definition handleSyncError (item : SyncQueueItem.t) (message : string) : M unit :=
  let newRetryCount := SyncQueueItem.retry_count item + 1 in
  if newRetryCount >=? MAX_RETRIES then
    moveToDeadLetterQueue item message ;;;
    updateTaskSyncStatus (SyncQueueItem.task_id item) SyncStatus.failed ;;;
    db_run (DeleteSyncQueueById (SyncQueueItem.id item))
      (with_sync_queue
         (filter (fun r =>
            negb (String.eqb (SyncQueueItem.id r) (SyncQueueItem.id item)))))
  else
    db_run (UpdateSyncQueueRetry (SyncQueueItem.id item) newRetryCount)
      (with_sync_queue (map (bump_retry (SyncQueueItem.id item) newRetryCount message))) ;;;
    updateTaskSyncStatus (SyncQueueItem.task_id item) SyncStatus.error.

Definition checkConnectivity : M bool := fun w => (health E (ticks w), tick w).

(** [ORDER BY task_id, created_at ASC] *)
Definition queue_order (a b : SyncQueueItem.t) : bool :=
  match String.compare (SyncQueueItem.task_id a) (SyncQueueItem.task_id b) with
  | Lt => true
  | Eq => SyncQueueItem.created_at a <=? SyncQueueItem.created_at b
  | Gt => false
  end.

Definition getSyncQueueItems : M (list SyncQueueItem.t) :=
  db_query SelectSyncQueue (fun w => sort_by queue_order (sync_queue w)).

(** A [Map<string, SyncQueueItem[]>] in insertion order of its keys. *)
Definition Groups : Type := list (string * list SyncQueueItem.t).

(** [if (!groups.has(k)) groups.set(k, []); groups.get(k).push(item)] *)
Fixpoint group_push (groups : Groups) (item : SyncQueueItem.t) : Groups :=
  match groups with
  | [] => [(SyncQueueItem.task_id item, [item])]
  | (k, g) :: rest =>
      if String.eqb k (SyncQueueItem.task_id item)
      then (k, g ++ [item]) :: rest
      else (k, g) :: group_push rest item
  end.

Definition by_created_at (a b : SyncQueueItem.t) : bool :=
  SyncQueueItem.created_at a <=? SyncQueueItem.created_at b.

Definition groupItemsByTaskChronologically (its : list SyncQueueItem.t) : Groups :=
  map (fun kg => (fst kg, sort_by by_created_at (snd kg)))
      (fold_left group_push its []).

(** One turn of the inner loop of [createBatches] on the pair
    [(batches, currentBatch)]. *)
Definition batch_step
    (st : list (list SyncQueueItem.t) * list SyncQueueItem.t)
    (item : SyncQueueItem.t) : list (list SyncQueueItem.t) * list SyncQueueItem.t :=
  let (batches, currentBatch) := st in
  if Z.of_nat (length currentBatch) >=? BATCH_SIZE E
  then (batches ++ [currentBatch], [item])
  else (batches, currentBatch ++ [item]).

Definition createBatches (itemsByTask : Groups) : list (list SyncQueueItem.t) :=
  let (batches, currentBatch) :=
    fold_left (fun st kg => fold_left batch_step (snd kg) st) itemsByTask ([], []) in
  if 0 <? Z.of_nat (length currentBatch) then batches ++ [currentBatch] else batches.

Definition calculateBatchChecksum (its : list SyncQueueItem.t) : string :=
  md5 E (String.concat "|"
    (map (fun item =>
            (SyncQueueItem.id item ++ "-"
             ++ Operation.to_string (SyncQueueItem.operation item) ++ "-"
             ++ SyncQueueItem.task_id item)%string) its)).

(** The result is [inl message] when the request throws. *)
Definition processBatch (its : list SyncQueueItem.t) : M (string + BatchSyncResponse) :=
  for_each (fun item =>
    updateTaskSyncStatus (SyncQueueItem.task_id item) SyncStatus.in_progress) its ;;;
  let checksum := calculateBatchChecksum its in
  stamp <- new_Date ;;
  response <- (fun w => (post_batch E (ticks w) (mkBatchSyncRequest its stamp checksum),
                         tick w)) ;;
  match response with
  | inr data => ret (inr data)
  | inl message =>
      for_each (fun item =>
        updateTaskSyncStatus (SyncQueueItem.task_id item) SyncStatus.error) its ;;;
      ret (inl message)
  end.

Definition count_synced (r : SyncResult) : SyncResult :=
  mkSyncResult (success r) (synced_items r + 1) (failed_items r) (errors r).

Definition count_failed (r : SyncResult) (e : SyncError) : SyncResult :=
  mkSyncResult (success r) (synced_items r) (failed_items r + 1) (errors r ++ [e]).

(** The failure branch shared by the per-item [else] and the [catch]. *)
Definition fail_item (item : SyncQueueItem.t) (message : string)
    (r : SyncResult) : M SyncResult :=
  handleSyncError item message ;;;
  stamp <- new_Date ;;
  ret (count_failed r
         (mkSyncError (SyncQueueItem.task_id item)
            (Operation.to_string (SyncQueueItem.operation item)) message stamp)).

(** Body of [for (const processedItem of batchResponse.processed_items)]. *)
Definition settle_item (batch : list SyncQueueItem.t)
    (r : SyncResult) (processedItem : ProcessedItem) : M SyncResult :=
  match find (fun item => String.eqb (SyncQueueItem.id item) (client_id processedItem))
             batch with
  | None => ret r
  | Some originalItem =>
      match status processedItem, resolved_data processedItem with
      | ItemStatus.success, _ =>
          updateSyncStatus (SyncQueueItem.task_id originalItem) SyncStatus.synced
            (Some (Partial.of_server_id (pi_server_id processedItem))) ;;;
          ret (count_synced r)
      | ItemStatus.conflict, Some serverTask =>
          let resolvedTask :=
            resolveConflict (SyncQueueItem.data originalItem) serverTask in
          updateSyncStatus (SyncQueueItem.task_id originalItem) SyncStatus.synced
            (Some (Partial.of_task resolvedTask)) ;;;
          ret (count_synced r)
      | _, _ =>
          fail_item originalItem
            (opt_str_or (pi_error processedItem) "Unknown sync error") r
      end
  end.

(** Body of [for (const batch of batches)]. *)
Definition run_batch (r : SyncResult) (batch : list SyncQueueItem.t) : M SyncResult :=
  batchResponse <- processBatch batch ;;
  match batchResponse with
  | inr response => fold_each (settle_item batch) (processed_items response) r
  | inl message => fold_each (fun r' item => fail_item item message r') batch r
  end.

Definition sync : M SyncResult :=
  let result := mkSyncResult true 0 0 [] in
  isConnected <- checkConnectivity ;;
  if negb isConnected then
    stamp <- new_Date ;;
    ret (mkSyncResult false (synced_items result) (failed_items result)
           (errors result ++
              [mkSyncError "connection" "connectivity_check"
                 "Server is not reachable" stamp]))
  else
    queueItems <- getSyncQueueItems ;;
    if (length queueItems =? 0)%nat then ret result
    else
      let itemsByTask := groupItemsByTaskChronologically queueItems in
      let batches := createBatches itemsByTask in
      final <- fold_each run_batch batches result ;;
      ret (mkSyncResult (match errors final with [] => true | _ => false end)
             (synced_items final) (failed_items final) (errors final)).

End Services.

(** ** The create handler of routes/tasks.ts *)

(** A JSON value of the request body.  [JOther] stands for the objects and
    arrays, which are truthy and have no [trim] method. *)
Inductive JsValue :=
| JUndefined
| JNull
| JBool (b : bool)
| JNum (n : Z)
| JStr (s : string)
| JOther.

Definition truthy (v : JsValue) : bool :=
  match v with
  | JUndefined | JNull => false
  | JBool b => b
  | JNum n => negb (n =? 0)
  | JStr s => negb (String.eqb s EmptyString)
  | JOther => true
  end.

(** An implementation of [String.prototype.trim] on strings held as the bytes
    of their UTF-8 encoding.  It strips the white space and the line
    terminators of ECMAScript: U+0009 to U+000D and U+0020 (one byte),
    U+00A0 (two bytes), and U+1680, U+2000 to U+200A, U+2028, U+2029,
    U+202F, U+205F, U+3000 and U+FEFF (three bytes). *)
Definition is_space1 (c : ascii) : bool :=
  let n := nat_of_ascii c in
  ((9 <=? n) && (n <=? 13) || (n =? 32))%nat.

Definition is_space2 (c1 c2 : ascii) : bool :=
  ((nat_of_ascii c1 =? 194) && (nat_of_ascii c2 =? 160))%nat.

Definition is_space3 (c1 c2 c3 : ascii) : bool :=
  let a := nat_of_ascii c1 in
  let b := nat_of_ascii c2 in
  let c := nat_of_ascii c3 in
  ((a =? 225) && (b =? 154) && (c =? 128)
   || (a =? 226) && (b =? 128)
      && ((128 <=? c) && (c <=? 138) || (c =? 168) || (c =? 169) || (c =? 175))
   || (a =? 226) && (b =? 129) && (c =? 159)
   || (a =? 227) && (b =? 128) && (c =? 128)
   || (a =? 239) && (b =? 187) && (c =? 191))%nat.

(** Drops the white space a byte list starts with; with [backwards] the list
    is a reversed one, in which the bytes of a character come last first. *)
Fixpoint drop_spaces (backwards : bool) (l : list ascii) : list ascii :=
  match l with
  | [] => []
  | c1 :: r1 =>
      if is_space1 c1 then drop_spaces backwards r1
      else
        match r1 with
        | [] => l
        | c2 :: r2 =>
            if (if backwards then is_space2 c2 c1 else is_space2 c1 c2)
            then drop_spaces backwards r2
            else
              match r2 with
              | [] => l
              | c3 :: r3 =>
                  if (if backwards then is_space3 c3 c2 c1 else is_space3 c1 c2 c3)
                  then drop_spaces backwards r3
                  else l
              end
        end
  end.

Definition trim_utf8 (s : string) : string :=
  string_of_list_ascii
    (rev (drop_spaces true (rev (drop_spaces false (list_ascii_of_string s))))).

Record Body := mkBody {
  body_title : JsValue;
  body_description : JsValue;
  body_completed : JsValue
}.

Inductive Response :=
| Created (task : Task.t)             (* 201 *)
| BadRequest (message : string)       (* 400 *)
| ServerError (message : string).     (* 500, from the catch block *)

Section Routes.
Variable E : Env.
(** [String.prototype.trim], a built-in of the language. *)
Variable trim : string -> string.

Local Open Scope svc_scope.

(** [router.post('/', ...)]: calling [trim] on a value that is not a string
    throws, which the handler's [catch] turns into a 500. *)
Definition post_task (body : Body) : M Response :=
  let title := body_title body in
  if negb (truthy title) then ret (BadRequest "Title is required")
  else
    match title with
    | JStr t =>
        if (String.length (trim t) =? 0)%nat
        then ret (BadRequest "Title is required")
        else
          let create description :=
            createdTask <- createTask E
              {| Partial.id := None;
                 Partial.title := Some (trim t);
                 Partial.description := description;
                 Partial.completed := Some (truthy (body_completed body));
                 Partial.created_at := None;
                 Partial.updated_at := None;
                 Partial.is_deleted := None;
                 Partial.sync_status := None;
                 Partial.server_id := None;
                 Partial.last_synced_at := None |} ;;
            ret (Created createdTask) in
          match body_description body with
          | JUndefined | JNull => create None
          | JStr d =>
              create (if String.eqb (trim d) EmptyString then None else Some (trim d))
          | _ => ret (ServerError "Failed to create task")
          end
    | _ => ret (ServerError "Failed to create task")
    end.
End Routes.

(** ** Sample environment and stores *)

Definition sample_env : Env :=
  {| BATCH_SIZE := 2;
     clock := fun n => 1000 + Z.of_nat n;
     uuid := fun n => string_of_list_ascii (repeat "u"%char (S n));
     md5 := fun s => s;
     health := fun _ => false;
     post_batch := fun _ _ => inl "timeout of 30000ms exceeded"%string |}.

Definition sample_task (id : string) (updated : Z) : Task.t :=
  {| Task.id := id;
     Task.title := "buy milk";
     Task.description := EmptyString;
     Task.completed := false;
     Task.created_at := 10;
     Task.updated_at := updated;
     Task.is_deleted := false;
     Task.sync_status := SyncStatus.pending;
     Task.server_id := None;
     Task.last_synced_at := None |}.

Definition sample_row (id : string) (deleted : Z) (st : SyncStatus.t) (updated : Z)
    : TaskRow.t :=
  {| TaskRow.id := id;
     TaskRow.title := "buy milk";
     TaskRow.description := EmptyString;
     TaskRow.completed := 0;
     TaskRow.created_at := 10;
     TaskRow.updated_at := updated;
     TaskRow.is_deleted := deleted;
     TaskRow.sync_status := st;
     TaskRow.server_id := None;
     TaskRow.last_synced_at := None |}.

Definition sample_item (id task_id : string) (created retries : Z) : SyncQueueItem.t :=
  {| SyncQueueItem.id := id;
     SyncQueueItem.task_id := task_id;
     SyncQueueItem.operation := Operation.update;
     SyncQueueItem.data := sample_task task_id created;
     SyncQueueItem.created_at := created;
     SyncQueueItem.retry_count := retries;
     SyncQueueItem.error_message := None |}.

Definition empty_world : World := mkWorld [] [] [] [] 0.

Definition sample_world : World :=
  {| tasks := [sample_row "a" 0 SyncStatus.pending 20;
               sample_row "b" 1 SyncStatus.pending 15;
               sample_row "c" 0 SyncStatus.synced 12];
     sync_queue := [sample_item "q1" "a" 20 0;
                    sample_item "q2" "b" 15 2];
     dead_letter_queue := [];
     journal := [];
     ticks := 0 |}.

Definition patch_other_id : Partial.t :=
  {| Partial.id := Some "z"%string;
     Partial.title := Some "buy bread"%string;
     Partial.description := None;
     Partial.completed := None;
     Partial.created_at := None;
     Partial.updated_at := None;
     Partial.is_deleted := None;
     Partial.sync_status := None;
     Partial.server_id := None;
     Partial.last_synced_at := None |}.

Definition patch_deleted : Partial.t :=
  {| Partial.id := None;
     Partial.title := None;
     Partial.description := None;
     Partial.completed := None;
     Partial.created_at := Some 1;
     Partial.updated_at := None;
     Partial.is_deleted := Some true;
     Partial.sync_status := None;
     Partial.server_id := Some "s9"%string;
     Partial.last_synced_at := Some 2 |}.

(** U+00A0 followed by U+3000. *)
Definition blank_title : string :=
  string_of_list_ascii (map ascii_of_nat [194; 160; 227; 128; 128]%nat).

(** "buy milk" between a U+FEFF and a space, and a tab and a U+2028. *)
Definition padded_title : string :=
  String.append (string_of_list_ascii (map ascii_of_nat [239; 187; 191; 32]%nat))
    (String.append "buy milk"
       (string_of_list_ascii (map ascii_of_nat [9; 226; 128; 168]%nat))).

Definition sample_body : Body :=
  {| body_title := JStr "  buy milk ";
     body_description := JUndefined;
     body_completed := JUndefined |}.

(** The mock [POST /batch] endpoint of routes/sync.ts: every item succeeds. *)
Definition mock_batch (request : BatchSyncRequest) : BatchSyncResponse :=
  {| processed_items :=
       map (fun item =>
              {| client_id := SyncQueueItem.id item;
                 pi_server_id := Some ("server_" ++ SyncQueueItem.id item)%string;
                 status := ItemStatus.success;
                 resolved_data := None;
                 pi_error := None |}) (items request);
     server_timestamp := client_timestamp request;
     checksum_verified := true |}.

Definition online_env : Env :=
  {| BATCH_SIZE := 2;
     clock := fun n => 1000 + Z.of_nat n;
     uuid := fun n => string_of_list_ascii (repeat "u"%char (S n));
     md5 := fun s => s;
     health := fun _ => true;
     post_batch := fun _ request => inr (mock_batch request) |}.

Definition sample_processed : ProcessedItem :=
  {| client_id := "q1";
     pi_server_id := Some "server_q1"%string;
     status := ItemStatus.success;
     resolved_data := None;
     pi_error := None |}.

Definition intents_of_T : list SyncQueueItem.t :=
  [ SyncQueueItem.mk "i1" "T" Operation.create (sample_task "T" 1) 1 0 None;
    SyncQueueItem.mk "i2" "T" Operation.update (sample_task "T" 2) 2 0 None;
    SyncQueueItem.mk "i3" "T" Operation.delete (sample_task "T" 3) 3 0 None ].

(** The probe succeeds but every batch request times out. *)
Definition flaky_env : Env :=
  {| BATCH_SIZE := 10;
     clock := fun n => 1000 + Z.of_nat n;
     uuid := fun n => string_of_list_ascii (repeat "u"%char (S n));
     md5 := fun s => s;
     health := fun _ => true;
     post_batch := fun _ _ => inl "timeout of 30000ms exceeded"%string |}.

(** ** Auxiliary definitions of the statements *)

(** P4: no queue item has used up its retries. *)
Definition retry_bounded (w : World) : Prop :=
  Forall (fun q => SyncQueueItem.retry_count q < MAX_RETRIES) (sync_queue w).

(** I6: a synced task has no queue item. *)
Definition synced_clear (w : World) : Prop :=
  forall r q, In r (tasks w) -> In q (sync_queue w) ->
              TaskRow.sync_status r = SyncStatus.synced ->
              SyncQueueItem.task_id q <> TaskRow.id r.

(** The rows of a table that a statement's [WHERE] clause does not select
    are left as they are, the others satisfy [P]. *)
Definition rows_updated {A} (selected : A -> bool) (P : A -> A -> Prop)
    (before after : list A) : Prop :=
  Forall2 (fun r r' => if selected r then P r r' else r' = r) before after.

(** What [getTask] reads: the first live row carrying the identifier. *)
Definition first_live (id : string) (w : World) : option TaskRow.t :=
  hd_error (filter (live_with_id id) (tasks w)).

(** The task object built by [updateTask] from the row it found. *)
Definition updated_task (id : string) (row : TaskRow.t) (updates : Partial.t) (now : Z)
    : Task.t :=
  let merged := spread (mapRowToTask row) updates in
  {| Task.id := id;
     Task.title := Task.title merged;
     Task.description := Task.description merged;
     Task.completed := Task.completed merged;
     Task.created_at := Task.created_at merged;
     Task.updated_at := now;
     Task.is_deleted := Task.is_deleted merged;
     Task.sync_status := SyncStatus.pending;
     Task.server_id := Task.server_id merged;
     Task.last_synced_at := Task.last_synced_at merged |}.


(** A computation keeps an invariant of the store. *)
Definition preserves {A} (I : World -> Prop) (m : M A) : Prop :=
  forall w, I w -> I (snd (m w)).

(** [x] may stand before [y] in the upload order: [y] is not an earlier
    intent of the same task. *)
Definition may_precede (x y : SyncQueueItem.t) : Prop :=
  ~ (SyncQueueItem.task_id x = SyncQueueItem.task_id y /\
     SyncQueueItem.created_at y < SyncQueueItem.created_at x).

(** The keys of a map are distinct and a group holds items of its key only. *)
Definition groups_ok (gs : Groups) : Prop :=
  NoDup (map fst gs) /\
  Forall (fun kg => Forall (fun it => SyncQueueItem.task_id it = fst kg) (snd kg)) gs.

(** Every closed batch and the open one of [createBatches] respect the cap. *)
Definition within_cap (E : Env)
    (st : list (list SyncQueueItem.t) * list SyncQueueItem.t) : Prop :=
  Forall (fun b => Z.of_nat (length b) <= BATCH_SIZE E) (fst st) /\
  Z.of_nat (length (snd st)) <= BATCH_SIZE E.

(** Every dead-letter record was moved at its last allowed attempt. *)
Definition dead_letters_ok (w : World) : Prop :=
  Forall (fun d => DeadLetter.retry_count d = MAX_RETRIES - 1) (dead_letter_queue w).

(** ** Status surface of SyncService *)

(** The three status queries read the store and leave it as it is; being
    outside the mutation and sync paths, they are not entered in the journal. *)

(** [SELECT COUNT( * ) as count FROM sync_queue] *)
Definition getPendingSyncCount : M Z :=
  fun w => (Z.of_nat (length (sync_queue w)), w).

(** [MAX] of a column: nothing for no row. *)
Definition max_instant (l : list Z) : option Z :=
  fold_left (fun acc d => match acc with
                          | None => Some d
                          | Some m => Some (Z.max m d)
                          end) l None.

(** [SELECT MAX(last_synced_at) ... WHERE last_synced_at IS NOT NULL], then
    [result.last_sync ? new Date(result.last_sync) : null]. *)
Definition getLastSyncTimestamp : M (option Z) :=
  fun w =>
    (max_instant
       (flat_map (fun r => match TaskRow.last_synced_at r with
                           | Some d => [d]
                           | None => []
                           end) (tasks w)), w).

(** [SELECT * FROM dead_letter_queue ORDER BY failed_at DESC] *)
Definition getDeadLetterQueue : M (list DeadLetter.t) :=
  fun w =>
    (sort_by (fun a b => DeadLetter.failed_at b <=? DeadLetter.failed_at a)
       (dead_letter_queue w), w).

(** ** The handlers of routes/sync.ts *)

(** The reply of [POST /sync]: the status code and the [sync_result]. *)
Record SyncReply := mkSyncReply {
  reply_code : Z;
  reply_result : SyncResult
}.

(** The body of [GET /status]. *)
Record StatusSummary := mkStatusSummary {
  st_online : bool;
  st_last_checked : Z;
  st_pending_items : Z;
  st_last_sync : option Z;
  st_failed_items : Z;
  st_dead_letter_count : Z;
  st_dead_letter_items : list DeadLetter.t;
  st_timestamp : Z
}.

Section SyncRoutes.
Variable E : Env.

Local Open Scope svc_scope.

(** [router.post('/sync', ...)]: the handler probes the server itself before
    it calls [sync], which probes again. *)
Definition post_sync : M SyncReply :=
  isConnected <- checkConnectivity E ;;
  if negb isConnected then
    stamp <- new_Date E ;;
    ret (mkSyncReply 503
           (mkSyncResult false 0 0
              [mkSyncError "connection" "connectivity_check"
                 "Server is not reachable" stamp]))
  else
    syncResult <- sync E ;;
    stamp <- new_Date E ;;
    ret (mkSyncReply (if success syncResult then 200 else 207) syncResult).

(** [router.get('/status', ...)]; [slice(0, 10)] keeps the first ten. *)
Definition get_status : M StatusSummary :=
  pendingCount <- getPendingSyncCount ;;
  lastSync <- getLastSyncTimestamp ;;
  isConnected <- checkConnectivity E ;;
  deadLetterQueue <- getDeadLetterQueue ;;
  checked <- new_Date E ;;
  stamp <- new_Date E ;;
  ret {| st_online := isConnected;
         st_last_checked := checked;
         st_pending_items := pendingCount;
         st_last_sync := lastSync;
         st_failed_items := Z.of_nat (length deadLetterQueue);
         st_dead_letter_count := Z.of_nat (length deadLetterQueue);
         st_dead_letter_items := firstn 10 deadLetterQueue;
         st_timestamp := stamp |}.
End SyncRoutes.

(** ** Further definitions of the statements *)

(** The columns of a task row that only the task operations write. *)
Definition row_content (r : TaskRow.t)
    : string * string * string * Z * Z * Z * Z :=
  (TaskRow.id r, TaskRow.title r, TaskRow.description r, TaskRow.completed r,
   TaskRow.created_at r, TaskRow.updated_at r, TaskRow.is_deleted r).

(** What a queue row says of the mutation it records. *)
Definition intent_of (q : SyncQueueItem.t)
    : string * string * Operation.t * Task.t * Z :=
  (SyncQueueItem.id q, SyncQueueItem.task_id q, SyncQueueItem.operation q,
   SyncQueueItem.data q, SyncQueueItem.created_at q).

(** An invariant of the store that the statements issued by a sync cycle
    keep, one statement at a time. *)
Record cycle_stable (I : World -> Prop) : Prop := {
  stable_log : forall s w, I w -> I (log s w);
  stable_tick : forall w, I w -> I (tick w);
  stable_status :
    forall taskId st w, I w -> I (with_tasks (map (set_status taskId st)) w);
  stable_synced :
    forall taskId st now sid w,
      I w -> I (with_tasks (map (mark_synced taskId st now sid)) w);
  stable_delete :
    forall keep w, I w -> I (with_sync_queue (filter keep) w);
  stable_retry :
    forall id n message w,
      I w -> I (with_sync_queue (map (bump_retry id n message)) w);
  stable_dead :
    forall d w, I w -> I (with_dead_letter_queue (fun l => l ++ [d]) w)
}.

(** The response entry acknowledges the item. *)
Definition acknowledged (item : SyncQueueItem.t) (p : ProcessedItem) : Prop :=
  client_id p = SyncQueueItem.id item /\ status p = ItemStatus.success.

(** Every task row whose id satisfies [P] is synced and stamped. *)
Definition synced_on (P : string -> Prop) (w : World) : Prop :=
  forall row, In row (tasks w) -> P (TaskRow.id row) ->
              TaskRow.sync_status row = SyncStatus.synced /\
              TaskRow.last_synced_at row <> None.

(** The counters of a result agree with its error list. *)
Definition result_consistent (r : SyncResult) : Prop :=
  failed_items r = Z.of_nat (length (errors r)) /\ 0 <= synced_items r.

(** The task of the row has an item in the batch. *)
Definition in_batch (batch : list SyncQueueItem.t) (r : TaskRow.t) : bool :=
  existsb (fun item => String.eqb (TaskRow.id r) (SyncQueueItem.task_id item)) batch.

(** The rows of the tasks of a batch, all set to one status. *)
Definition mark_batch (st : SyncStatus.t) (batch : list SyncQueueItem.t)
    (r : TaskRow.t) : TaskRow.t :=
  if in_batch batch r then set_status (TaskRow.id r) st r else r.

(** What the settling of acknowledged items of the tasks [ids], [n] of them,
    makes of a result [r] and a store [w]. *)
Definition acked_outcome (ids : list string) (n : nat)
    (r : SyncResult) (w : World) (res : SyncResult * World) : Prop :=
  success (fst res) = success r /\
  synced_items (fst res) = synced_items r + Z.of_nat n /\
  failed_items (fst res) = failed_items r /\
  errors (fst res) = errors r /\
  dead_letter_queue (snd res) = dead_letter_queue w /\
  (forall q, In q (sync_queue (snd res)) <->
             In q (sync_queue w) /\ ~ In (SyncQueueItem.task_id q) ids) /\
  (forall P : string -> Prop,
     synced_on P w -> synced_on (fun k => P k \/ In k ids) (snd res)).

(** [q'] is the queue row [q] after one more failed attempt. *)
Definition bumped (q q' : SyncQueueItem.t) : Prop :=
  intent_of q' = intent_of q /\
  SyncQueueItem.retry_count q' = SyncQueueItem.retry_count q + 1 /\
  SyncQueueItem.error_message q' <> None.

(** What a dead-letter record keeps of the queue row it comes from. *)
Definition origin_of (q : SyncQueueItem.t) : string * string * Operation.t * Z :=
  (SyncQueueItem.id q, SyncQueueItem.task_id q, SyncQueueItem.operation q,
   SyncQueueItem.created_at q).

Definition dead_origin (d : DeadLetter.t) : string * string * Operation.t * Z :=
  (DeadLetter.id d, DeadLetter.task_id d, DeadLetter.operation d,
   DeadLetter.created_at d).

(** [d] is the dead-letter record of the queue row [q]: the row's id, task,
    operation, creation instant and retry count, and a [data] column that
    holds [object_text] in place of the snapshot. *)
Definition dead_of (q : SyncQueueItem.t) (d : DeadLetter.t) : Prop :=
  dead_origin d = origin_of q /\
  DeadLetter.data d = object_text /\
  DeadLetter.retry_count d = SyncQueueItem.retry_count q.

(** The store after the failure handler has run once on each item of
    [done], all of them rows of the queue [Q0] the cycle started with. *)
Record handled (Q0 : list SyncQueueItem.t) (D0 : list DeadLetter.t)
    (done : list SyncQueueItem.t) (w : World) : Prop := {
  untouched_in :
    forall q', In q' (sync_queue w) ->
               ~ In (SyncQueueItem.id q') (map SyncQueueItem.id done) -> In q' Q0;
  bumped_in :
    forall q', In q' (sync_queue w) ->
               In (SyncQueueItem.id q') (map SyncQueueItem.id done) ->
               exists q, In q done /\
                         SyncQueueItem.retry_count q + 1 < MAX_RETRIES /\ bumped q q';
  untouched_kept :
    forall q, In q Q0 -> ~ In (SyncQueueItem.id q) (map SyncQueueItem.id done) ->
              In q (sync_queue w);
  retried_kept :
    forall q, In q done -> SyncQueueItem.retry_count q + 1 < MAX_RETRIES ->
              exists q', In q' (sync_queue w) /\ bumped q q';
  exhausted_moved :
    forall q, In q done -> SyncQueueItem.retry_count q + 1 >= MAX_RETRIES ->
              exists d, In d (dead_letter_queue w) /\ dead_of q d;
  dead_from :
    forall d, In d (dead_letter_queue w) ->
              In d D0 \/
              exists q, In q done /\
                        SyncQueueItem.retry_count q + 1 >= MAX_RETRIES /\ dead_of q d;
  ids_unique : NoDup (map SyncQueueItem.id (sync_queue w))
}.

(** What failing the items [its] makes of a result [r]. *)
Definition failed_outcome (its : list SyncQueueItem.t) (message : string)
    (r res : SyncResult) : Prop :=
  success res = success r /\
  synced_items res = synced_items r /\
  failed_items res = failed_items r + Z.of_nat (length its) /\
  exists errs,
    errors res = errors r ++ errs /\
    map se_task_id errs = map SyncQueueItem.task_id its /\
    map se_operation errs =
      map (fun item => Operation.to_string (SyncQueueItem.operation item)) its /\
    Forall (fun e => se_error e = message) errs.

(** The store after [n] sync cycles in a row. *)
Fixpoint cycles (E : Env) (n : nat) (w : World) : World :=
  match n with
  | O => w
  | S k => cycles E k (snd (sync E w))
  end.

(** * Properties *)

(** ** Conflict resolution *)

(** C1: the resolver returns the local snapshot exactly when its [updated_at]
    is strictly greater than the server's, and the server snapshot otherwise
    (server strictly newer, or equal timestamps); which snapshot wins is a
    function of the two [updated_at] values alone. *)
Theorem resolveConflict_last_writer_wins (localTask serverTask : Task.t) :
  (Task.updated_at localTask > Task.updated_at serverTask ->
     resolveConflict localTask serverTask = localTask) /\
  (Task.updated_at serverTask > Task.updated_at localTask ->
     resolveConflict localTask serverTask = serverTask) /\
  (Task.updated_at localTask = Task.updated_at serverTask ->
     resolveConflict localTask serverTask = serverTask) /\
  resolveConflict localTask serverTask =
    (if Task.updated_at localTask >? Task.updated_at serverTask
     then localTask else serverTask).
Proof.
  unfold resolveConflict.
  destruct (Task.updated_at localTask >? Task.updated_at serverTask) eqn:Hl.
  - repeat split; intros; try reflexivity; lia.
  - destruct (Task.updated_at serverTask >? Task.updated_at localTask);
      repeat split; intros; try reflexivity; lia.
Qed.

Lemma resolveConflict_last_writer_wins_witness :
  resolveConflict (sample_task "a" 7) (sample_task "a" 5) = sample_task "a" 7 /\
  resolveConflict (sample_task "a" 5) (sample_task "b" 7) = sample_task "b" 7 /\
  resolveConflict (sample_task "a" 5) (sample_task "b" 5) = sample_task "b" 5.
Proof.
  split; [| split].
  - apply (proj1 (resolveConflict_last_writer_wins
                    (sample_task "a" 7) (sample_task "a" 5))).
    simpl; lia.
  - apply (proj1 (proj2 (resolveConflict_last_writer_wins
                           (sample_task "a" 5) (sample_task "b" 7)))).
    simpl; lia.
  - apply (proj1 (proj2 (proj2 (resolveConflict_last_writer_wins
                                  (sample_task "a" 5) (sample_task "b" 5))))).
    reflexivity.
Defined.

(** ** TaskService.updateTask *)

Section UpdateTask.
Variable E : Env.

Lemma getTask_run id w :
  getTask id w = (option_map mapRowToTask (first_live id w), log (SelectTask id) w).
Proof.
  unfold getTask, bind, db_query, first_live.
  destruct (hd_error (filter (live_with_id id) (tasks w))); reflexivity.
Qed.

Lemma first_live_none id w :
  first_live id w = None <->
  (forall r, In r (tasks w) -> TaskRow.id r = id -> TaskRow.is_deleted r <> 0).
Proof.
  unfold first_live. split.
  - intros H r Hin Hid Hdel.
    assert (Hf : In r (filter (live_with_id id) (tasks w))).
    { apply filter_In. split; [exact Hin|].
      unfold live_with_id. rewrite Hid, String.eqb_refl, Hdel. reflexivity. }
    destruct (filter (live_with_id id) (tasks w)); [destruct Hf | discriminate H].
  - intros H.
    destruct (filter (live_with_id id) (tasks w)) as [|r l] eqn:Hf; [reflexivity|].
    exfalso.
    assert (Hin : In r (filter (live_with_id id) (tasks w))) by (rewrite Hf; left; reflexivity).
    apply filter_In in Hin. destruct Hin as [Hin Hlive].
    unfold live_with_id in Hlive. apply andb_true_iff in Hlive.
    destruct Hlive as [Hid Hdel].
    apply String.eqb_eq in Hid. apply Z.eqb_eq in Hdel.
    exact (H r Hin Hid Hdel).
Qed.

Lemma updateTask_absent id updates w :
  first_live id w = None ->
  updateTask E id updates w = (None, log (SelectTask id) w).
Proof.
  intros H. unfold updateTask, bind. rewrite getTask_run, H. reflexivity.
Qed.

Lemma updateTask_present id updates w row :
  first_live id w = Some row ->
  let now := clock E (ticks w) in
  let t := updated_task id row updates now in
  fst (updateTask E id updates w) = Some t /\
  tasks (snd (updateTask E id updates w)) =
    map (update_fields id (Task.title t) (Task.description t)
           (to_int (Task.completed t)) now SyncStatus.pending) (tasks w) /\
  sync_queue (snd (updateTask E id updates w)) =
    sync_queue w ++
      [ {| SyncQueueItem.id := uuid E (S (ticks w));
           SyncQueueItem.task_id := id;
           SyncQueueItem.operation := Operation.update;
           SyncQueueItem.data := t;
           SyncQueueItem.created_at := clock E (S (S (ticks w)));
           SyncQueueItem.retry_count := 0;
           SyncQueueItem.error_message := None |} ] /\
  dead_letter_queue (snd (updateTask E id updates w)) = dead_letter_queue w.
Proof.
  intros H now t. unfold updateTask, bind. rewrite getTask_run, H. simpl.
  repeat split.
Qed.
End UpdateTask.

Lemma Forall2_map_self {A} (P : A -> A -> Prop) (f : A -> A) (l : list A) :
  (forall x, P x (f x)) -> Forall2 P l (map f l).
Proof.
  intros H. induction l as [|x l IH]; simpl; constructor; auto.
Qed.

Lemma update_fields_effect id title description completed now st r :
  if live_with_id id r
  then TaskRow.title (update_fields id title description completed now st r) = title /\
       TaskRow.description (update_fields id title description completed now st r)
         = description /\
       TaskRow.completed (update_fields id title description completed now st r)
         = completed /\
       TaskRow.updated_at (update_fields id title description completed now st r) = now /\
       TaskRow.sync_status (update_fields id title description completed now st r) = st
  else update_fields id title description completed now st r = r.
Proof.
  unfold update_fields. destruct (live_with_id id r); simpl; repeat split.
Qed.

Lemma update_fields_frame id title description completed now st r :
  let r' := update_fields id title description completed now st r in
  TaskRow.id r' = TaskRow.id r /\
  TaskRow.created_at r' = TaskRow.created_at r /\
  TaskRow.is_deleted r' = TaskRow.is_deleted r /\
  TaskRow.server_id r' = TaskRow.server_id r /\
  TaskRow.last_synced_at r' = TaskRow.last_synced_at r /\
  (live_with_id id r = false -> r' = r).
Proof.
  unfold update_fields. destruct (live_with_id id r); simpl; repeat split.
  intros H; discriminate H.
Qed.

(** C6: [updateTask id updates] returns nothing and leaves the three tables
    as they were when every row carrying [id] is soft-deleted (in particular
    when there is none); otherwise it returns a task whose [id] is the
    argument, whose title, description and completed flag come from the patch
    where the patch has them, whose [updated_at] is the current instant and
    whose status is pending; the live rows with that id receive exactly these
    values, and the queue grows by exactly one [update] intent for [id]
    carrying the returned task. *)
Theorem updateTask_contract (E : Env) (id : string) (updates : Partial.t) (w : World) :
  ((forall r, In r (tasks w) -> TaskRow.id r = id -> TaskRow.is_deleted r <> 0) ->
     fst (updateTask E id updates w) = None /\
     tasks (snd (updateTask E id updates w)) = tasks w /\
     sync_queue (snd (updateTask E id updates w)) = sync_queue w /\
     dead_letter_queue (snd (updateTask E id updates w)) = dead_letter_queue w) /\
  (forall row, first_live id w = Some row ->
     exists t item,
       fst (updateTask E id updates w) = Some t /\
       Task.id t = id /\
       Task.title t =
         match Partial.title updates with Some v => v | None => TaskRow.title row end /\
       Task.description t =
         match Partial.description updates with
         | Some v => v
         | None => TaskRow.description row
         end /\
       Task.completed t =
         match Partial.completed updates with
         | Some v => v
         | None => Boolean (TaskRow.completed row)
         end /\
       Task.updated_at t = clock E (ticks w) /\
       Task.sync_status t = SyncStatus.pending /\
       Forall2 (fun r r' =>
                  if live_with_id id r
                  then TaskRow.title r' = Task.title t /\
                       TaskRow.description r' = Task.description t /\
                       TaskRow.completed r' = to_int (Task.completed t) /\
                       TaskRow.updated_at r' = Task.updated_at t /\
                       TaskRow.sync_status r' = SyncStatus.pending
                  else r' = r)
               (tasks w) (tasks (snd (updateTask E id updates w))) /\
       sync_queue (snd (updateTask E id updates w)) = sync_queue w ++ [item] /\
       SyncQueueItem.task_id item = id /\
       SyncQueueItem.operation item = Operation.update /\
       SyncQueueItem.data item = t /\
       SyncQueueItem.retry_count item = 0).
Proof.
  split.
  - intros H. apply first_live_none in H.
    rewrite (updateTask_absent E id updates w H). simpl. repeat split.
  - intros row H.
    destruct (updateTask_present E id updates w row H) as (Hres & Htasks & Hq & _).
    eexists. eexists.
    split; [exact Hres|].
    rewrite Htasks, Hq.
    repeat split.
    apply Forall2_map_self. intros r. apply update_fields_effect.
Qed.

Lemma updateTask_contract_witness :
  (fst (updateTask sample_env "b" Partial.empty sample_world) = None /\
   tasks (snd (updateTask sample_env "b" Partial.empty sample_world))
     = tasks sample_world) /\
  exists t, fst (updateTask sample_env "a" Partial.empty sample_world) = Some t /\
            Task.id t = "a"%string.
Proof.
  split.
  - destruct (proj1 (updateTask_contract sample_env "b" Partial.empty sample_world))
      as (H1 & H2 & _).
    + intros r Hin Hid.
      simpl in Hin.
      destruct Hin as [<-|[<-|[<-|[]]]]; simpl in *; try discriminate Hid; lia.
    + split; assumption.
  - destruct (proj2 (updateTask_contract sample_env "a" Partial.empty sample_world)
                (sample_row "a" 0 SyncStatus.pending 20) eq_refl)
      as (t & item & H1 & H2 & _).
    exists t. split; assumption.
Defined.

(** C10 as amended: on a live task, [updateTask] leaves the stored [id],
    [created_at], [is_deleted], [server_id] and [last_synced_at] of every row
    as they were, and rows that are not live rows of that id are untouched;
    the returned object carries the patch's [created_at], [is_deleted],
    [server_id] and [last_synced_at] when the patch supplies them, while its
    [id] is the argument. *)
Theorem updateTask_frame
    (E : Env) (id : string) (updates : Partial.t) (w : World) (row : TaskRow.t) :
  first_live id w = Some row ->
  exists t,
    fst (updateTask E id updates w) = Some t /\
    Forall2 (fun r r' =>
               TaskRow.id r' = TaskRow.id r /\
               TaskRow.created_at r' = TaskRow.created_at r /\
               TaskRow.is_deleted r' = TaskRow.is_deleted r /\
               TaskRow.server_id r' = TaskRow.server_id r /\
               TaskRow.last_synced_at r' = TaskRow.last_synced_at r /\
               (live_with_id id r = false -> r' = r))
            (tasks w) (tasks (snd (updateTask E id updates w))) /\
    Task.id t = id /\
    (forall v, Partial.created_at updates = Some v -> Task.created_at t = v) /\
    (forall v, Partial.is_deleted updates = Some v -> Task.is_deleted t = v) /\
    (forall v, Partial.server_id updates = Some v -> Task.server_id t = Some v) /\
    (forall v, Partial.last_synced_at updates = Some v ->
               Task.last_synced_at t = Some v).
Proof.
  intros H.
  destruct (updateTask_present E id updates w row H) as (Hres & Htasks & _).
  eexists. split; [exact Hres|].
  rewrite Htasks.
  split; [apply Forall2_map_self; intros r; apply update_fields_frame|].
  simpl. repeat split; intros v Hv; rewrite Hv; reflexivity.
Qed.

Lemma updateTask_frame_witness :
  exists t,
    fst (updateTask sample_env "a" patch_deleted sample_world) = Some t /\
    Task.is_deleted t = true /\
    Task.server_id t = Some "s9"%string.
Proof.
  destruct (updateTask_frame sample_env "a" patch_deleted sample_world
              (sample_row "a" 0 SyncStatus.pending 20) eq_refl)
    as (t & H1 & _ & _ & _ & H2 & H3 & _).
  exists t. split; [exact H1|]. split; [apply H2 | apply H3]; reflexivity.
Defined.

(** C10 as stated fails for [id]: a patch that supplies an identifier does not
    show in the returned task. *)
Lemma updateTask_patched_id_not_returned :
  ~ (forall (E : Env) (id : string) (updates : Partial.t) (w : World) (t : Task.t)
            (v : string),
       fst (updateTask E id updates w) = Some t ->
       Partial.id updates = Some v ->
       Task.id t = v).
Proof.
  intros H.
  specialize (H sample_env "a"%string patch_other_id sample_world _ "z"%string
                eq_refl eq_refl).
  discriminate H.
Qed.

(** ** Creation *)

(** C8 as stated fails on the service: [createTask] called without a title
    produces a task whose title is empty. *)
Lemma createTask_allows_empty_title :
  ~ (forall (E : Env) (taskData : Partial.t) (w : World),
       Task.title (fst (createTask E taskData w)) <> EmptyString).
Proof.
  intros H. apply (H sample_env Partial.empty empty_world). reflexivity.
Qed.

Lemma Boolean_to_int (b : bool) : Boolean (to_int b) = b.
Proof. destruct b; reflexivity. Qed.

Lemma length_zero_empty (s : string) : (String.length s =? 0)%nat = false -> s <> EmptyString.
Proof. intros H ->. discriminate H. Qed.

(** C8 as amended, on the POST handler of the task router, for whatever
    [trim] computes.  A task the handler creates has a non-empty title, the
    trimmed title of the request body.  The handler answers 400 exactly when
    the title is missing or falsy (undefined, null, false, 0, the empty
    string) or is a string that is empty once trimmed; the message is then
    "Title is required" and nothing is stored, journalled or drawn from the
    clock.  A truthy title that is not a string is answered 500 with the
    store untouched.  A string title that is non-empty before and after
    trimming creates the task when the description is undefined, null or a
    string, and is answered 500, nothing stored, otherwise. *)
Theorem post_task_title_non_empty
    (E : Env) (trim : string -> string) (body : Body) (w : World) :
  (forall t, fst (post_task E trim body w) = Created t ->
     Task.title t <> EmptyString /\
     exists s, body_title body = JStr s /\ Task.title t = trim s) /\
  ((truthy (body_title body) = false \/
    exists s, body_title body = JStr s /\ trim s = EmptyString) <->
   exists m, fst (post_task E trim body w) = BadRequest m) /\
  (forall m, fst (post_task E trim body w) = BadRequest m ->
     m = "Title is required"%string /\ snd (post_task E trim body w) = w) /\
  (truthy (body_title body) = true -> (forall s, body_title body <> JStr s) ->
     post_task E trim body w = (ServerError "Failed to create task", w)) /\
  (forall s, body_title body = JStr s -> s <> EmptyString -> trim s <> EmptyString ->
     match body_description body with
     | JUndefined | JNull | JStr _ =>
         exists t, fst (post_task E trim body w) = Created t /\
                   Task.title t = trim s /\
                   Task.completed t = truthy (body_completed body) /\
                   exists row, tasks (snd (post_task E trim body w)) = tasks w ++ [row] /\
                               mapRowToTask row = t
     | _ => post_task E trim body w = (ServerError "Failed to create task", w)
     end).
Proof.
  unfold post_task.
  destruct (body_title body) as [| |b|n|s|] eqn:Ht; simpl.
  - (* undefined *)
    split; [intros t H; discriminate H|].
    split; [split; [intros _; eexists; reflexivity | intros _; left; reflexivity]|].
    split; [intros m H; injection H as <-; split; reflexivity|].
    split; [intros H; discriminate H|]. intros s H; discriminate H.
  - (* null *)
    split; [intros t H; discriminate H|].
    split; [split; [intros _; eexists; reflexivity | intros _; left; reflexivity]|].
    split; [intros m H; injection H as <-; split; reflexivity|].
    split; [intros H; discriminate H|]. intros s H; discriminate H.
  - (* a boolean *)
    destruct b; simpl.
    + split; [intros t H; discriminate H|].
      split; [split; [intros [H|(s & H & _)]; discriminate H
                     | intros (m & H); discriminate H]|].
      split; [intros m H; discriminate H|].
      split; [intros _ _; reflexivity|]. intros s H; discriminate H.
    + split; [intros t H; discriminate H|].
      split; [split; [intros _; eexists; reflexivity | intros _; left; reflexivity]|].
      split; [intros m H; injection H as <-; split; reflexivity|].
      split; [intros H; discriminate H|]. intros s H; discriminate H.
  - (* a number *)
    destruct (n =? 0); simpl.
    + split; [intros t H; discriminate H|].
      split; [split; [intros _; eexists; reflexivity | intros _; left; reflexivity]|].
      split; [intros m H; injection H as <-; split; reflexivity|].
      split; [intros H; discriminate H|]. intros s H; discriminate H.
    + split; [intros t H; discriminate H|].
      split; [split; [intros [H|(s & H & _)]; discriminate H
                     | intros (m & H); discriminate H]|].
      split; [intros m H; discriminate H|].
      split; [intros _ _; reflexivity|]. intros s H; discriminate H.
  - (* a string *)
    destruct (String.eqb_spec s EmptyString) as [Hs|Hs]; simpl.
    + split; [intros t H; discriminate H|].
      split; [split; [intros _; eexists; reflexivity | intros _; left; reflexivity]|].
      split; [intros m H; injection H as <-; split; reflexivity|].
      split; [intros H; discriminate H|].
      intros s' H Hs'. injection H as <-. contradiction.
    + destruct (String.length (trim s) =? 0)%nat eqn:Hlen.
      * assert (Hempty : trim s = EmptyString).
        { destruct (trim s); [reflexivity | discriminate Hlen]. }
        split; [intros t H; discriminate H|].
        split; [split; [intros _; eexists; reflexivity
                       | intros _; right; exists s; split; [reflexivity | exact Hempty]]|].
        split; [intros m H; injection H as <-; split; reflexivity|].
        split; [intros _ H; exfalso; apply (H s); reflexivity|].
        intros s' H _ Hs'. injection H as <-. contradiction.
      * apply length_zero_empty in Hlen.
        assert (Hor : str_or (trim s) EmptyString = trim s).
        { unfold str_or.
          destruct (String.eqb_spec (trim s) EmptyString) as [He|_];
            [contradiction | reflexivity]. }
        split.
        { intros t H.
          assert (Hgoal : Task.title t = trim s).
          { destruct (body_description body) as [| |b|n|d|]; try discriminate H;
              cbn in H; injection H as <-; cbn; exact Hor. }
          split; [rewrite Hgoal; exact Hlen|].
          exists s. split; [reflexivity | exact Hgoal]. }
        split.
        { split.
          - intros [H|(s' & H & He)]; [discriminate H|].
            injection H as <-. contradiction.
          - intros (m & H).
            destruct (body_description body) as [| |b|n|d|]; discriminate H. }
        split.
        { intros m H.
          destruct (body_description body) as [| |b|n|d|]; discriminate H. }
        split; [intros _ H; exfalso; apply (H s); reflexivity|].
        intros s' H _ _. injection H as <-.
        destruct (body_description body) as [| |b|n|d|]; try reflexivity;
          (eexists; split; [reflexivity|]; cbn; split; [exact Hor|];
           split; [apply orb_false_r|];
           eexists; split; [reflexivity|];
           unfold mapRowToTask; cbn; rewrite Boolean_to_int; reflexivity).
  - (* an object or an array *)
    split; [intros t H; discriminate H|].
    split; [split; [intros [H|(s & H & _)]; discriminate H
                   | intros (m & H); discriminate H]|].
    split; [intros m H; discriminate H|].
    split; [intros _ _; reflexivity|]. intros s H; discriminate H.
Qed.

(** On the samples, with [trim_utf8]: a padded title is trimmed and stored, a
    title made of U+00A0 and U+3000 and a missing title are answered 400 with
    the store as it was. *)
Lemma post_task_title_non_empty_witness :
  (exists t, fst (post_task sample_env trim_utf8 sample_body empty_world) = Created t /\
             Task.title t <> EmptyString) /\
  post_task sample_env trim_utf8 (mkBody (JStr blank_title) JUndefined JUndefined) sample_world
    = (BadRequest "Title is required", sample_world) /\
  post_task sample_env trim_utf8 (mkBody JUndefined JUndefined JUndefined) sample_world
    = (BadRequest "Title is required", sample_world) /\
  exists t, fst (post_task sample_env trim_utf8
                   (mkBody (JStr padded_title) JNull (JBool true)) empty_world)
              = Created t /\
            Task.title t = "buy milk"%string.
Proof.
  split; [|split; [|split]].
  - eexists. split; [reflexivity|].
    apply (proj1 (post_task_title_non_empty sample_env trim_utf8 sample_body empty_world)).
    reflexivity.
  - destruct (post_task_title_non_empty sample_env trim_utf8
                (mkBody (JStr blank_title) JUndefined JUndefined) sample_world)
      as (_ & [Hreject _] & Hmessage & _).
    destruct Hreject as (m & Hm).
    + right. exists blank_title. split; reflexivity.
    + destruct (Hmessage m Hm) as [-> Hstore].
      rewrite <- Hstore at 2. rewrite <- Hm. apply surjective_pairing.
  - destruct (post_task_title_non_empty sample_env trim_utf8
                (mkBody JUndefined JUndefined JUndefined) sample_world)
      as (_ & [Hreject _] & Hmessage & _).
    destruct Hreject as (m & Hm).
    + left. reflexivity.
    + destruct (Hmessage m Hm) as [-> Hstore].
      rewrite <- Hstore at 2. rewrite <- Hm. apply surjective_pairing.
  - destruct (post_task_title_non_empty sample_env trim_utf8
                (mkBody (JStr padded_title) JNull (JBool true)) empty_world)
      as (_ & _ & _ & _ & Hcreate).
    destruct (Hcreate padded_title) as (t & Ht & Htitle & _).
    + reflexivity.
    + intros H. discriminate H.
    + intros H. discriminate H.
    + exists t. split; [exact Ht | exact Htitle].
Defined.

(** ** The stable sort *)

Section SortFacts.
Context {A : Type} (le : A -> A -> bool).

Lemma insert_sorted_perm (x : A) (l : list A) :
  Permutation (insert_sorted le x l) (x :: l).
Proof.
  induction l as [|y l IH]; simpl.
  - apply Permutation_refl.
  - destruct (le x y).
    + apply Permutation_refl.
    + apply perm_trans with (y :: x :: l).
      * apply perm_skip, IH.
      * apply perm_swap.
Qed.

Lemma sort_by_perm (l : list A) : Permutation (sort_by le l) l.
Proof.
  induction l as [|x l IH]; simpl.
  - apply perm_nil.
  - apply perm_trans with (x :: sort_by le l).
    + apply insert_sorted_perm.
    + apply perm_skip, IH.
Qed.

Lemma sort_by_In (x : A) (l : list A) : In x (sort_by le l) <-> In x l.
Proof.
  split; apply Permutation_in;
    [apply sort_by_perm | apply Permutation_sym, sort_by_perm].
Qed.

Lemma sort_by_Forall (P : A -> Prop) (l : list A) :
  Forall P l -> Forall P (sort_by le l).
Proof.
  apply Permutation_Forall, Permutation_sym, sort_by_perm.
Qed.

Hypothesis le_total : forall a b, le a b = false -> le b a = true.
Hypothesis le_trans : forall a b c, le a b = true -> le b c = true -> le a c = true.

Lemma insert_sorted_sorted (x : A) (l : list A) :
  StronglySorted (fun a b => le a b = true) l ->
  StronglySorted (fun a b => le a b = true) (insert_sorted le x l).
Proof.
  induction 1 as [|y l Hs IH Hall]; simpl.
  - constructor; constructor.
  - destruct (le x y) eqn:Hxy.
    + constructor.
      * constructor; assumption.
      * constructor; [exact Hxy|].
        eapply Forall_impl; [|exact Hall].
        intros z Hz. exact (le_trans _ _ _ Hxy Hz).
    + constructor; [exact IH|].
      apply (Permutation_Forall (Permutation_sym (insert_sorted_perm x l))).
      constructor; [apply le_total, Hxy | exact Hall].
Qed.

Lemma sort_by_sorted (l : list A) :
  StronglySorted (fun a b => le a b = true) (sort_by le l).
Proof.
  induction l as [|x l IH]; simpl.
  - constructor.
  - apply insert_sorted_sorted, IH.
Qed.
End SortFacts.

Lemma StronglySorted_map {A B} (R : A -> A -> Prop) (R' : B -> B -> Prop)
    (f : A -> B) (l : list A) :
  (forall a b, R a b -> R' (f a) (f b)) ->
  StronglySorted R l -> StronglySorted R' (map f l).
Proof.
  intros Hf. induction 1 as [|x l Hs IH Hall]; simpl; constructor.
  - exact IH.
  - apply Forall_map. eapply Forall_impl; [|exact Hall]. intros b. apply Hf.
Qed.

Lemma NoDup_map_eq {A B} (f : A -> B) (l : list A) (a b : A) :
  NoDup (map f l) -> In a l -> In b l -> f a = f b -> a = b.
Proof.
  induction l as [|x l IH]; simpl; intros Hnd Ha Hb Hab; [destruct Ha|].
  inversion Hnd as [|? ? Hnotin Hnd']; subst.
  destruct Ha as [<-|Ha], Hb as [<-|Hb].
  - reflexivity.
  - exfalso. apply Hnotin. rewrite Hab. apply in_map, Hb.
  - exfalso. apply Hnotin. rewrite <- Hab. apply in_map, Ha.
  - apply IH; assumption.
Qed.

(** ** Visibility of soft-deleted rows *)

Lemma first_live_spec id w r :
  first_live id w = Some r ->
  In r (tasks w) /\ TaskRow.id r = id /\ TaskRow.is_deleted r = 0.
Proof.
  unfold first_live. intros H.
  assert (Hin : In r (filter (live_with_id id) (tasks w))).
  { destruct (filter (live_with_id id) (tasks w)); [discriminate H|].
    injection H as ->. left; reflexivity. }
  apply filter_In in Hin. destruct Hin as [Hin Hlive].
  unfold live_with_id in Hlive. apply andb_true_iff in Hlive.
  destruct Hlive as [Hid Hdel].
  apply String.eqb_eq in Hid. apply Z.eqb_eq in Hdel. auto.
Qed.

(** C7: [getTask] never returns a soft-deleted row and returns nothing for
    the identifier of a soft-deleted row (identifiers being unique);
    [getAllTasks] contains no soft-deleted row; [getTasksNeedingSync] returns
    exactly the rows, deleted or not, whose status is pending or error, in
    ascending order of [updated_at]. *)
Theorem soft_delete_visibility (w : World) :
  (forall id t, fst (getTask id w) = Some t ->
                Task.is_deleted t = false /\ Task.id t = id) /\
  (forall r, In r (tasks w) -> TaskRow.is_deleted r <> 0 ->
             NoDup (map TaskRow.id (tasks w)) ->
             fst (getTask (TaskRow.id r) w) = None) /\
  Forall (fun t => Task.is_deleted t = false) (fst (getAllTasks w)) /\
  (forall r, In r (tasks w) -> TaskRow.is_deleted r <> 0 ->
             ~ In (mapRowToTask r) (fst (getAllTasks w))) /\
  Permutation (fst (getTasksNeedingSync w))
              (map mapRowToTask (filter needs_sync (tasks w))) /\
  (forall r, In r (tasks w) ->
             TaskRow.sync_status r = SyncStatus.pending \/
             TaskRow.sync_status r = SyncStatus.error ->
             In (mapRowToTask r) (fst (getTasksNeedingSync w))) /\
  StronglySorted (fun a b => Task.updated_at a <= Task.updated_at b)
                 (fst (getTasksNeedingSync w)).
Proof.
  assert (Hall : Forall (fun t => Task.is_deleted t = false) (fst (getAllTasks w))).
  { unfold getAllTasks, bind, db_query; simpl.
    apply Forall_map. apply sort_by_Forall.
    apply Forall_forall. intros r Hr. apply filter_In in Hr.
    destruct Hr as [_ Hr]. simpl. unfold Boolean. rewrite Hr. reflexivity. }
  assert (Hperm : Permutation (fst (getTasksNeedingSync w))
                    (map mapRowToTask (filter needs_sync (tasks w)))).
  { unfold getTasksNeedingSync, bind, db_query; simpl.
    apply Permutation_map, sort_by_perm. }
  repeat split.
  - rewrite getTask_run in H. simpl in H.
    destruct (first_live id w) as [r|] eqn:Hr; [|discriminate H].
    injection H as <-. apply first_live_spec in Hr.
    destruct Hr as (_ & _ & Hdel). simpl. unfold Boolean. rewrite Hdel. reflexivity.
  - rewrite getTask_run in H. simpl in H.
    destruct (first_live id w) as [r|] eqn:Hr; [|discriminate H].
    injection H as <-. apply first_live_spec in Hr. simpl. apply Hr.
  - intros r Hin Hdel Hnd. rewrite getTask_run. simpl.
    replace (first_live (TaskRow.id r) w) with (@None TaskRow.t); [reflexivity|].
    symmetry. apply first_live_none. intros r' Hin' Hid.
    rewrite (NoDup_map_eq TaskRow.id (tasks w) r' r Hnd Hin' Hin Hid). exact Hdel.
  - exact Hall.
  - intros r Hin Hdel Hcontra.
    rewrite Forall_forall in Hall. specialize (Hall _ Hcontra).
    simpl in Hall. unfold Boolean in Hall.
    apply negb_false_iff, Z.eqb_eq in Hall. contradiction.
  - exact Hperm.
  - intros r Hin Hst.
    apply (Permutation_in _ (Permutation_sym Hperm)).
    apply in_map, filter_In. split; [exact Hin|].
    unfold needs_sync. destruct Hst as [-> | ->]; reflexivity.
  - unfold getTasksNeedingSync, bind, db_query; simpl.
    apply StronglySorted_map
      with (R := fun a b => (TaskRow.updated_at a <=? TaskRow.updated_at b) = true).
    + intros a b Hab. simpl. apply Z.leb_le, Hab.
    + apply sort_by_sorted.
      * intros a b Hab. apply Z.leb_le. apply Z.leb_gt in Hab. lia.
      * intros a b c Hab Hbc. apply Z.leb_le. apply Z.leb_le in Hab, Hbc. lia.
Qed.

Lemma soft_delete_visibility_witness :
  fst (getTask "b" sample_world) = None /\
  In (mapRowToTask (sample_row "b" 1 SyncStatus.pending 15))
     (fst (getTasksNeedingSync sample_world)).
Proof.
  destruct (soft_delete_visibility sample_world) as (_ & Hget & _ & _ & _ & Hneed & _).
  split.
  - apply (Hget (sample_row "b" 1 SyncStatus.pending 15)).
    + simpl. right. left. reflexivity.
    + simpl. lia.
    + simpl. repeat constructor; simpl; intuition discriminate.
  - apply Hneed.
    + simpl. right. left. reflexivity.
    + left. reflexivity.
Defined.

(** ** The sync cycle when the server is unreachable *)

(** C5: when the connectivity probe fails, [sync] returns a result with
    [success = false], no synced and no failed item and exactly one error, the
    synthetic connectivity record; the three tables are left as they were and
    no statement is issued to the store, so no queue item is even read. *)
Theorem sync_offline (E : Env) (w : World) :
  health E (ticks w) = false ->
  success (fst (sync E w)) = false /\
  synced_items (fst (sync E w)) = 0 /\
  failed_items (fst (sync E w)) = 0 /\
  errors (fst (sync E w)) =
    [mkSyncError "connection" "connectivity_check" "Server is not reachable"
       (clock E (S (ticks w)))] /\
  tasks (snd (sync E w)) = tasks w /\
  sync_queue (snd (sync E w)) = sync_queue w /\
  dead_letter_queue (snd (sync E w)) = dead_letter_queue w /\
  journal (snd (sync E w)) = journal w.
Proof.
  intros H. unfold sync, bind, checkConnectivity. rewrite H. simpl.
  repeat split.
Qed.

Lemma sync_offline_witness :
  success (fst (sync sample_env sample_world)) = false /\
  map SyncQueueItem.retry_count (sync_queue (snd (sync sample_env sample_world)))
    = [0; 2].
Proof.
  destruct (sync_offline sample_env sample_world eq_refl)
    as (H1 & _ & _ & _ & _ & H2 & _).
  split; [exact H1 | rewrite H2; reflexivity].
Defined.

(** ** The failure handler *)

Lemma rows_updated_map {A} (selected : A -> bool) (P : A -> A -> Prop)
    (f : A -> A) (l : list A) :
  (forall r, if selected r then P r (f r) else f r = r) ->
  rows_updated selected P l (map f l).
Proof. intros H. apply Forall2_map_self. exact H. Qed.

Lemma set_status_effect taskId st r :
  if String.eqb (TaskRow.id r) taskId
  then TaskRow.sync_status (set_status taskId st r) = st /\
       TaskRow.id (set_status taskId st r) = TaskRow.id r
  else set_status taskId st r = r.
Proof.
  unfold set_status. destruct (String.eqb (TaskRow.id r) taskId); simpl; auto.
Qed.

Lemma bump_retry_effect id n message r :
  if String.eqb (SyncQueueItem.id r) id
  then SyncQueueItem.retry_count (bump_retry id n message r) = n /\
       SyncQueueItem.error_message (bump_retry id n message r) = Some message /\
       SyncQueueItem.id (bump_retry id n message r) = SyncQueueItem.id r /\
       SyncQueueItem.task_id (bump_retry id n message r) = SyncQueueItem.task_id r /\
       SyncQueueItem.operation (bump_retry id n message r) = SyncQueueItem.operation r /\
       SyncQueueItem.data (bump_retry id n message r) = SyncQueueItem.data r /\
       SyncQueueItem.created_at (bump_retry id n message r) = SyncQueueItem.created_at r
  else bump_retry id n message r = r.
Proof.
  unfold bump_retry. destruct (String.eqb (SyncQueueItem.id r) id); simpl; repeat split.
Qed.

Lemma bump_retry_task_id id n message r :
  SyncQueueItem.task_id (bump_retry id n message r) = SyncQueueItem.task_id r.
Proof. unfold bump_retry. destruct (String.eqb _ _); reflexivity. Qed.

Lemma handleSyncError_retry E item message w :
  SyncQueueItem.retry_count item + 1 < MAX_RETRIES ->
  handleSyncError E item message w =
  (tt, log (UpdateTaskSyncStatus (SyncQueueItem.task_id item) SyncStatus.error)
         (with_tasks (map (set_status (SyncQueueItem.task_id item) SyncStatus.error))
            (log (UpdateSyncQueueRetry (SyncQueueItem.id item)
                    (SyncQueueItem.retry_count item + 1))
               (with_sync_queue
                  (map (bump_retry (SyncQueueItem.id item)
                          (SyncQueueItem.retry_count item + 1) message)) w)))).
Proof.
  intros H. unfold handleSyncError.
  replace (SyncQueueItem.retry_count item + 1 >=? MAX_RETRIES) with false
    by (symmetry; rewrite Z.geb_leb; apply Z.leb_gt; lia).
  reflexivity.
Qed.

Lemma handleSyncError_exhausted E item message w :
  SyncQueueItem.retry_count item + 1 >= MAX_RETRIES ->
  handleSyncError E item message w =
  (tt, log (DeleteSyncQueueById (SyncQueueItem.id item))
         (with_sync_queue
            (filter (fun r =>
               negb (String.eqb (SyncQueueItem.id r) (SyncQueueItem.id item))))
            (snd (updateTaskSyncStatus (SyncQueueItem.task_id item) SyncStatus.failed
               (snd (moveToDeadLetterQueue E item message w)))))).
Proof.
  intros H. unfold handleSyncError.
  replace (SyncQueueItem.retry_count item + 1 >=? MAX_RETRIES) with true
    by (symmetry; rewrite Z.geb_leb; apply Z.leb_le; lia).
  reflexivity.
Qed.

Lemma handleSyncError_retry_bounded E item message w :
  retry_bounded w -> retry_bounded (snd (handleSyncError E item message w)).
Proof.
  unfold retry_bounded. intros H.
  destruct (Z.lt_ge_cases (SyncQueueItem.retry_count item + 1) MAX_RETRIES) as [Hlt|Hge].
  - rewrite (handleSyncError_retry E item message w Hlt). simpl.
    apply Forall_map. eapply Forall_impl; [|exact H].
    intros q Hq. unfold bump_retry.
    destruct (String.eqb (SyncQueueItem.id q) (SyncQueueItem.id item)); simpl;
      unfold MAX_RETRIES in *; lia.
  - rewrite (handleSyncError_exhausted E item message w) by lia. simpl.
    apply Forall_forall. intros q Hq. apply filter_In in Hq.
    rewrite Forall_forall in H. apply H, Hq.
Qed.

(** ** Invariants along a computation *)

Section Preservation.
Variable I : World -> Prop.

Lemma preserves_ret {A} (a : A) : preserves I (ret a).
Proof. intros w H. exact H. Qed.

Lemma preserves_bind {A B} (m : M A) (k : A -> M B) :
  preserves I m -> (forall a, preserves I (k a)) -> preserves I (bind m k).
Proof.
  intros Hm Hk w H. unfold bind.
  specialize (Hm w H). destruct (m w) as [a w']. apply Hk, Hm.
Qed.

Lemma preserves_for_each {A} (body : A -> M unit) (xs : list A) :
  (forall x, preserves I (body x)) -> preserves I (for_each body xs).
Proof.
  intros Hb. induction xs as [|x xs IH]; simpl.
  - apply preserves_ret.
  - apply preserves_bind; [apply Hb | intros _; exact IH].
Qed.

Lemma preserves_fold_each {A S} (body : S -> A -> M S) (xs : list A) :
  (forall s x, preserves I (body s x)) -> forall s, preserves I (fold_each body xs s).
Proof.
  intros Hb. induction xs as [|x xs IH]; intros s; simpl.
  - apply preserves_ret.
  - apply preserves_bind; [apply Hb | intros s'; apply IH].
Qed.
End Preservation.

Ltac preserve_step :=
  repeat match goal with
         | |- preserves _ (ret _) => apply preserves_ret
         | |- preserves _ (bind _ _) => apply preserves_bind; [| intros ?]
         | |- preserves _ (for_each _ _) => apply preserves_for_each; intros ?
         | |- preserves _ (fold_each _ _ _) => apply preserves_fold_each; intros ? ?
         end.

(** *** The retry bound *)

Lemma retry_bounded_frame (f : World -> World) :
  (forall w, sync_queue (f w) = sync_queue w) ->
  forall {A} (a : A), preserves retry_bounded (fun w => (a, f w)).
Proof.
  intros Hf A a w H. unfold retry_bounded in *. simpl. rewrite Hf. exact H.
Qed.

Lemma updateTaskSyncStatus_retry_bounded taskId st :
  preserves retry_bounded (updateTaskSyncStatus taskId st).
Proof. intros w H. exact H. Qed.

Lemma updateSyncStatus_retry_bounded E taskId st serverData :
  preserves retry_bounded (updateSyncStatus E taskId st serverData).
Proof.
  intros w H. unfold updateSyncStatus, bind, new_Date, db_run. simpl.
  destruct (SyncStatus.eqb st SyncStatus.synced); [|exact H].
  unfold retry_bounded in *. simpl.
  apply Forall_forall. intros q Hq. apply filter_In in Hq.
  rewrite Forall_forall in H. apply H, Hq.
Qed.

Lemma fail_item_retry_bounded E item message r :
  preserves retry_bounded (fail_item E item message r).
Proof.
  unfold fail_item. preserve_step.
  - intros w. apply handleSyncError_retry_bounded.
  - intros w H. exact H.
Qed.

Lemma processBatch_retry_bounded E batch :
  preserves retry_bounded (processBatch E batch).
Proof.
  unfold processBatch. preserve_step.
  - apply updateTaskSyncStatus_retry_bounded.
  - intros w H. exact H.
  - intros w H. exact H.
  - destruct a1; preserve_step. apply updateTaskSyncStatus_retry_bounded.
Qed.

Lemma settle_item_retry_bounded E batch r p :
  preserves retry_bounded (settle_item E batch r p).
Proof.
  unfold settle_item.
  destruct (find _ batch) as [originalItem|]; [|apply preserves_ret].
  destruct (status p); try destruct (resolved_data p);
    solve [ apply fail_item_retry_bounded
          | preserve_step; apply updateSyncStatus_retry_bounded ].
Qed.

Lemma run_batch_retry_bounded E r batch :
  preserves retry_bounded (run_batch E r batch).
Proof.
  unfold run_batch. preserve_step.
  - apply processBatch_retry_bounded.
  - destruct a; preserve_step.
    + apply fail_item_retry_bounded.
    + apply settle_item_retry_bounded.
Qed.

Lemma sync_retry_bounded E : preserves retry_bounded (sync E).
Proof.
  unfold sync. preserve_step.
  - intros w H. exact H.
  - destruct (negb a); preserve_step.
    + intros w H. exact H.
    + intros w H. exact H.
    + destruct (length a0 =? 0)%nat; preserve_step.
      apply run_batch_retry_bounded.
Qed.

Lemma addToSyncQueue_retry_bounded E taskId op data :
  preserves retry_bounded (addToSyncQueue E taskId op data).
Proof.
  intros w H. unfold retry_bounded in *. simpl.
  apply Forall_app. split; [exact H|].
  constructor; [|constructor]. simpl. unfold MAX_RETRIES. lia.
Qed.

(** *** Synced tasks have no queue item *)

Lemma set_status_synced_inv taskId st r :
  st <> SyncStatus.synced ->
  TaskRow.sync_status (set_status taskId st r) = SyncStatus.synced ->
  set_status taskId st r = r.
Proof.
  unfold set_status. destruct (String.eqb (TaskRow.id r) taskId); simpl.
  - intros Hst H. contradiction.
  - reflexivity.
Qed.

Lemma updateTaskSyncStatus_synced_clear taskId st :
  st <> SyncStatus.synced ->
  preserves synced_clear (updateTaskSyncStatus taskId st).
Proof.
  intros Hst w H r' q Hr' Hq Hsynced. simpl in Hr', Hq.
  apply in_map_iff in Hr'. destruct Hr' as (r & <- & Hr).
  pose proof (set_status_synced_inv taskId st r Hst Hsynced) as Heq.
  rewrite Heq in *.
  exact (H r q Hr Hq Hsynced).
Qed.

Lemma mark_synced_id taskId st now sid r :
  TaskRow.id (mark_synced taskId st now sid r) = TaskRow.id r.
Proof. unfold mark_synced. destruct (String.eqb _ _); reflexivity. Qed.

Lemma updateSyncStatus_synced_clear E taskId serverData :
  preserves synced_clear (updateSyncStatus E taskId SyncStatus.synced serverData).
Proof.
  intros w H r' q Hr' Hq Hsynced.
  unfold updateSyncStatus, bind, new_Date, db_run in Hr', Hq. simpl in Hr', Hq.
  apply in_map_iff in Hr'. destruct Hr' as (r & <- & Hr).
  apply filter_In in Hq. destruct Hq as [Hq Hne].
  rewrite mark_synced_id.
  unfold mark_synced in Hsynced.
  destruct (String.eqb (TaskRow.id r) taskId) eqn:Hid.
  - apply String.eqb_eq in Hid. rewrite Hid.
    apply negb_true_iff, String.eqb_neq in Hne. exact Hne.
  - exact (H r q Hr Hq Hsynced).
Qed.

Lemma handleSyncError_synced_clear E item message :
  preserves synced_clear (handleSyncError E item message).
Proof.
  intros w H r' q' Hr' Hq' Hsynced.
  destruct (Z.lt_ge_cases (SyncQueueItem.retry_count item + 1) MAX_RETRIES) as [Hlt|Hge].
  - rewrite (handleSyncError_retry E item message w Hlt) in Hr', Hq'.
    simpl in Hr', Hq'.
    apply in_map_iff in Hr'. destruct Hr' as (r & <- & Hr).
    apply in_map_iff in Hq'. destruct Hq' as (q & <- & Hq).
    rewrite bump_retry_task_id.
    assert (Heq : set_status (SyncQueueItem.task_id item) SyncStatus.error r = r)
      by (apply set_status_synced_inv; [discriminate | exact Hsynced]).
    rewrite Heq in *.
    exact (H r q Hr Hq Hsynced).
  - rewrite (handleSyncError_exhausted E item message w) in Hr', Hq' by lia.
    simpl in Hr', Hq'.
    apply in_map_iff in Hr'. destruct Hr' as (r & <- & Hr).
    apply filter_In in Hq'. destruct Hq' as [Hq _].
    assert (Heq : set_status (SyncQueueItem.task_id item) SyncStatus.failed r = r)
      by (apply set_status_synced_inv; [discriminate | exact Hsynced]).
    rewrite Heq in *.
    exact (H r q' Hr Hq Hsynced).
Qed.

Lemma fail_item_synced_clear E item message r :
  preserves synced_clear (fail_item E item message r).
Proof.
  unfold fail_item. preserve_step.
  - apply handleSyncError_synced_clear.
  - intros w H. exact H.
Qed.

Lemma processBatch_synced_clear E batch :
  preserves synced_clear (processBatch E batch).
Proof.
  unfold processBatch. preserve_step.
  - apply updateTaskSyncStatus_synced_clear. discriminate.
  - intros w H. exact H.
  - intros w H. exact H.
  - destruct a1; preserve_step.
    apply updateTaskSyncStatus_synced_clear. discriminate.
Qed.

Lemma settle_item_synced_clear E batch r p :
  preserves synced_clear (settle_item E batch r p).
Proof.
  unfold settle_item.
  destruct (find _ batch) as [originalItem|]; [|apply preserves_ret].
  destruct (status p); try destruct (resolved_data p);
    solve [ apply fail_item_synced_clear
          | preserve_step; apply updateSyncStatus_synced_clear ].
Qed.

Lemma run_batch_synced_clear E r batch :
  preserves synced_clear (run_batch E r batch).
Proof.
  unfold run_batch. preserve_step.
  - apply processBatch_synced_clear.
  - destruct a; preserve_step.
    + apply fail_item_synced_clear.
    + apply settle_item_synced_clear.
Qed.

Lemma sync_synced_clear E : preserves synced_clear (sync E).
Proof.
  unfold sync. preserve_step.
  - intros w H. exact H.
  - destruct (negb a); preserve_step.
    + intros w H. exact H.
    + intros w H. exact H.
    + destruct (length a0 =? 0)%nat; preserve_step.
      apply run_batch_synced_clear.
Qed.

(** *** The retry bound under the task operations *)

Lemma getTask_retry_bounded id : preserves retry_bounded (getTask id).
Proof. intros w H. rewrite getTask_run. exact H. Qed.

Lemma createTask_retry_bounded E taskData :
  preserves retry_bounded (createTask E taskData).
Proof.
  unfold createTask. preserve_step; try (intros w H; exact H).
  apply addToSyncQueue_retry_bounded.
Qed.

Lemma updateTask_retry_bounded E id updates :
  preserves retry_bounded (updateTask E id updates).
Proof.
  unfold updateTask. preserve_step; [apply getTask_retry_bounded|].
  destruct a; preserve_step; try (intros w H; exact H).
  apply addToSyncQueue_retry_bounded.
Qed.

Lemma deleteTask_retry_bounded E id :
  preserves retry_bounded (deleteTask E id).
Proof.
  unfold deleteTask. preserve_step; [apply getTask_retry_bounded|].
  destruct a; preserve_step; try (intros w H; exact H).
  apply addToSyncQueue_retry_bounded.
Qed.

(** C2: the failure handler, on an item whose next retry count stays below
    [MAX_RETRIES], sets the retry count of the queue rows with the item's id to
    the item's count plus one, stores the message as their error message and
    sets the task's status to error, leaving the dead-letter table alone;
    otherwise it appends the item to the dead-letter table, sets the task's
    status to failed and deletes the queue rows with the item's id, the
    insertion being issued before the deletion.  The bound
    [retry_count < MAX_RETRIES] on all queue rows is kept by the handler, by
    the whole sync cycle and by the three task mutations. *)
Theorem handleSyncError_contract
    (E : Env) (item : SyncQueueItem.t) (message : string) (w : World) :
  let w' := snd (handleSyncError E item message w) in
  (SyncQueueItem.retry_count item + 1 < MAX_RETRIES ->
     rows_updated
       (fun q => String.eqb (SyncQueueItem.id q) (SyncQueueItem.id item))
       (fun q q' =>
          SyncQueueItem.retry_count q' = SyncQueueItem.retry_count item + 1 /\
          SyncQueueItem.error_message q' = Some message /\
          SyncQueueItem.id q' = SyncQueueItem.id q /\
          SyncQueueItem.task_id q' = SyncQueueItem.task_id q /\
          SyncQueueItem.operation q' = SyncQueueItem.operation q /\
          SyncQueueItem.data q' = SyncQueueItem.data q /\
          SyncQueueItem.created_at q' = SyncQueueItem.created_at q)
       (sync_queue w) (sync_queue w') /\
     (In item (sync_queue w) ->
        In (SyncQueueItem.mk (SyncQueueItem.id item) (SyncQueueItem.task_id item)
              (SyncQueueItem.operation item) (SyncQueueItem.data item)
              (SyncQueueItem.created_at item)
              (SyncQueueItem.retry_count item + 1) (Some message))
           (sync_queue w')) /\
     rows_updated
       (fun r => String.eqb (TaskRow.id r) (SyncQueueItem.task_id item))
       (fun r r' => TaskRow.sync_status r' = SyncStatus.error /\
                    TaskRow.id r' = TaskRow.id r)
       (tasks w) (tasks w') /\
     dead_letter_queue w' = dead_letter_queue w) /\
  (~ SyncQueueItem.retry_count item + 1 < MAX_RETRIES ->
     (exists record,
        dead_letter_queue w' = dead_letter_queue w ++ [record] /\
        DeadLetter.id record = SyncQueueItem.id item) /\
     sync_queue w' =
       filter (fun q => negb (String.eqb (SyncQueueItem.id q) (SyncQueueItem.id item)))
              (sync_queue w) /\
     (forall q, In q (sync_queue w') -> SyncQueueItem.id q <> SyncQueueItem.id item) /\
     rows_updated
       (fun r => String.eqb (TaskRow.id r) (SyncQueueItem.task_id item))
       (fun r r' => TaskRow.sync_status r' = SyncStatus.failed /\
                    TaskRow.id r' = TaskRow.id r)
       (tasks w) (tasks w') /\
     journal w' =
       journal w ++
         [InsertDeadLetter (SyncQueueItem.id item);
          UpdateTaskSyncStatus (SyncQueueItem.task_id item) SyncStatus.failed;
          DeleteSyncQueueById (SyncQueueItem.id item)]) /\
  (retry_bounded w -> retry_bounded w') /\
  (retry_bounded w -> retry_bounded (snd (sync E w))) /\
  (forall taskData, retry_bounded w -> retry_bounded (snd (createTask E taskData w))) /\
  (forall id updates, retry_bounded w -> retry_bounded (snd (updateTask E id updates w))) /\
  (forall id, retry_bounded w -> retry_bounded (snd (deleteTask E id w))).
Proof.
  intros w'. subst w'. split; [|split].
  - intros Hlt. rewrite (handleSyncError_retry E item message w Hlt). simpl.
    split; [|split; [|split; [|reflexivity]]].
    + apply rows_updated_map. intros q. apply bump_retry_effect.
    + intros Hin.
      apply in_map_iff. exists item. split; [|exact Hin].
      unfold bump_retry. rewrite String.eqb_refl. reflexivity.
    + apply rows_updated_map. intros r. apply set_status_effect.
  - intros Hge. rewrite (handleSyncError_exhausted E item message w) by lia. simpl.
    split; [|split; [|split; [|split]]].
    + eexists. split; reflexivity.
    + reflexivity.
    + intros q Hq. apply filter_In in Hq. destruct Hq as [_ Hq].
      apply negb_true_iff, String.eqb_neq in Hq. exact Hq.
    + apply rows_updated_map. intros r. apply set_status_effect.
    + rewrite <- !app_assoc. reflexivity.
  - split; [apply handleSyncError_retry_bounded|].
    split; [apply sync_retry_bounded|].
    split; [intros taskData; apply createTask_retry_bounded|].
    split; [intros id updates; apply updateTask_retry_bounded|].
    intros id; apply deleteTask_retry_bounded.
Qed.

Lemma handleSyncError_contract_witness :
  dead_letter_queue
    (snd (handleSyncError sample_env (sample_item "q1" "a" 20 0)
            "boom" sample_world)) = [] /\
  length (dead_letter_queue
            (snd (handleSyncError sample_env (sample_item "q2" "b" 15 2)
                    "boom" sample_world))) = 1%nat /\
  retry_bounded (snd (handleSyncError sample_env (sample_item "q2" "b" 15 2)
                        "boom" sample_world)).
Proof.
  split; [|split].
  - destruct (handleSyncError_contract sample_env (sample_item "q1" "a" 20 0)
                "boom" sample_world) as (Hretry & _).
    destruct Hretry as (_ & _ & _ & Hdead).
    + simpl. unfold MAX_RETRIES. lia.
    + exact Hdead.
  - destruct (handleSyncError_contract sample_env (sample_item "q2" "b" 15 2)
                "boom" sample_world) as (_ & Hmove & _).
    destruct Hmove as ((record & Hdead & _) & _).
    + simpl. unfold MAX_RETRIES. lia.
    + rewrite Hdead. reflexivity.
  - apply (handleSyncError_contract sample_env (sample_item "q2" "b" 15 2)
             "boom" sample_world).
    unfold retry_bounded, MAX_RETRIES. simpl. repeat constructor.
Defined.

(** ** Successful items *)

Lemma mark_synced_effect taskId st now sid r :
  if String.eqb (TaskRow.id r) taskId
  then TaskRow.sync_status (mark_synced taskId st now sid r) = st /\
       TaskRow.last_synced_at (mark_synced taskId st now sid r) = Some now /\
       TaskRow.server_id (mark_synced taskId st now sid r) =
         match sid with Some s => Some s | None => TaskRow.server_id r end /\
       TaskRow.id (mark_synced taskId st now sid r) = TaskRow.id r /\
       TaskRow.title (mark_synced taskId st now sid r) = TaskRow.title r /\
       TaskRow.description (mark_synced taskId st now sid r) = TaskRow.description r /\
       TaskRow.completed (mark_synced taskId st now sid r) = TaskRow.completed r /\
       TaskRow.created_at (mark_synced taskId st now sid r) = TaskRow.created_at r /\
       TaskRow.updated_at (mark_synced taskId st now sid r) = TaskRow.updated_at r /\
       TaskRow.is_deleted (mark_synced taskId st now sid r) = TaskRow.is_deleted r
  else mark_synced taskId st now sid r = r.
Proof.
  unfold mark_synced. destruct (String.eqb (TaskRow.id r) taskId); simpl; repeat split.
Qed.

Lemma settle_item_success E batch r p originalItem :
  find (fun item => String.eqb (SyncQueueItem.id item) (client_id p)) batch
    = Some originalItem ->
  status p = ItemStatus.success ->
  settle_item E batch r p =
  bind (updateSyncStatus E (SyncQueueItem.task_id originalItem) SyncStatus.synced
          (Some (Partial.of_server_id (pi_server_id p))))
       (fun _ => ret (count_synced r)).
Proof.
  intros Hfind Hst. unfold settle_item. rewrite Hfind, Hst. reflexivity.
Qed.

(** C3: for a processed item reported as success whose client id is found in
    the batch, the engine sets every task row with the item's [task_id] to
    synced with [last_synced_at] the current instant, stores the response's
    [server_id] when it carries a non-empty one (and keeps the stored one
    otherwise), deletes every queue row of that task and counts one synced
    item; so the queue holds no row of the task afterwards, and over a whole
    cycle the property that synced tasks have no queue row is kept. *)
Theorem success_marks_synced
    (E : Env) (batch : list SyncQueueItem.t) (r : SyncResult) (p : ProcessedItem)
    (originalItem : SyncQueueItem.t) (w : World) :
  find (fun item => String.eqb (SyncQueueItem.id item) (client_id p)) batch
    = Some originalItem ->
  status p = ItemStatus.success ->
  let w' := snd (settle_item E batch r p w) in
  let taskId := SyncQueueItem.task_id originalItem in
  rows_updated
    (fun row => String.eqb (TaskRow.id row) taskId)
    (fun row row' =>
       TaskRow.sync_status row' = SyncStatus.synced /\
       TaskRow.last_synced_at row' = Some (clock E (ticks w)) /\
       TaskRow.server_id row' =
         (if truthy_str (pi_server_id p) then pi_server_id p
          else TaskRow.server_id row) /\
       TaskRow.id row' = TaskRow.id row)
    (tasks w) (tasks w') /\
  sync_queue w' =
    filter (fun q => negb (String.eqb (SyncQueueItem.task_id q) taskId)) (sync_queue w) /\
  (forall q, In q (sync_queue w') -> SyncQueueItem.task_id q <> taskId) /\
  fst (settle_item E batch r p w) = count_synced r /\
  (synced_clear w -> synced_clear w') /\
  (synced_clear w -> synced_clear (snd (sync E w))).
Proof.
  intros Hfind Hst w' taskId. subst w' taskId.
  pose proof (settle_item_synced_clear E batch r p w) as Hkeep.
  rewrite (settle_item_success E batch r p originalItem Hfind Hst) in *.
  unfold bind, updateSyncStatus, new_Date, db_run in *. simpl in *.
  split; [|split; [|split; [|split; [|split]]]].
  - apply rows_updated_map. intros row.
    pose proof (mark_synced_effect (SyncQueueItem.task_id originalItem)
                  SyncStatus.synced (clock E (ticks w))
                  (if truthy_str (pi_server_id p) then pi_server_id p else None) row)
      as Heff.
    destruct (String.eqb (TaskRow.id row) (SyncQueueItem.task_id originalItem));
      [|exact Heff].
    destruct Heff as (H1 & H2 & H3 & H4 & _).
    repeat split; try assumption.
    rewrite H3. destruct (truthy_str (pi_server_id p)) eqn:Ht; [|reflexivity].
    destruct (pi_server_id p); [reflexivity | discriminate Ht].
  - reflexivity.
  - intros q Hq. apply filter_In in Hq. destruct Hq as [_ Hq].
    apply negb_true_iff, String.eqb_neq in Hq. exact Hq.
  - reflexivity.
  - exact Hkeep.
  - apply sync_synced_clear.
Qed.

Lemma sample_world_synced_clear : synced_clear sample_world.
Proof.
  intros row q Hrow Hq Hsynced. simpl in Hrow, Hq.
  destruct Hrow as [<-|[<-|[<-|[]]]]; try discriminate Hsynced;
    destruct Hq as [<-|[<-|[]]]; simpl; discriminate.
Defined.

Lemma success_marks_synced_witness :
  map SyncQueueItem.id
    (sync_queue (snd (settle_item online_env [sample_item "q1" "a" 20 0]
                        (mkSyncResult true 0 0 []) sample_processed sample_world)))
    = ["q2"%string] /\
  synced_clear (snd (sync online_env sample_world)).
Proof.
  destruct (success_marks_synced online_env [sample_item "q1" "a" 20 0]
              (mkSyncResult true 0 0 []) sample_processed
              (sample_item "q1" "a" 20 0) sample_world eq_refl eq_refl)
    as (_ & Hqueue & _ & _ & _ & Hcycle).
  split.
  - rewrite Hqueue. reflexivity.
  - apply Hcycle, sample_world_synced_clear.
Defined.

(** ** Grouping and batching *)

Section StronglySortedFacts.
Context {A : Type} (R : A -> A -> Prop).

Lemma StronglySorted_app (l1 l2 : list A) :
  StronglySorted R l1 -> StronglySorted R l2 ->
  (forall x y, In x l1 -> In y l2 -> R x y) ->
  StronglySorted R (l1 ++ l2).
Proof.
  induction l1 as [|a l1 IH]; simpl; intros H1 H2 Hcross; [exact H2|].
  apply StronglySorted_inv in H1. destruct H1 as [H1 Ha].
  constructor.
  - apply IH; auto.
  - apply Forall_app. split; [exact Ha|].
    apply Forall_forall. intros y Hy. apply Hcross; auto.
Qed.

Lemma StronglySorted_app_inv (l1 l2 : list A) :
  StronglySorted R (l1 ++ l2) ->
  StronglySorted R l1 /\ StronglySorted R l2 /\
  (forall x y, In x l1 -> In y l2 -> R x y).
Proof.
  induction l1 as [|a l1 IH]; simpl; intros H.
  - split; [constructor|]. split; [exact H|]. intros x y [].
  - apply StronglySorted_inv in H. destruct H as [H Ha].
    destruct (IH H) as (H1 & H2 & Hcross).
    apply Forall_app in Ha. destruct Ha as [Ha1 Ha2].
    split; [constructor; assumption|]. split; [exact H2|].
    intros x y [<-|Hx] Hy.
    + rewrite Forall_forall in Ha2. apply Ha2, Hy.
    + apply Hcross; assumption.
Qed.

Lemma StronglySorted_nth (l : list A) (i j : nat) (x y : A) :
  StronglySorted R l -> (i < j)%nat ->
  nth_error l i = Some x -> nth_error l j = Some y -> R x y.
Proof.
  intros H. revert i j. induction H as [|a l Hs IH Ha]; intros i j Hij Hx Hy.
  - destruct i; discriminate Hx.
  - destruct j as [|j]; [lia|]. simpl in Hy.
    destruct i as [|i]; simpl in Hx.
    + injection Hx as <-. rewrite Forall_forall in Ha.
      apply Ha. eapply nth_error_In, Hy.
    + apply (IH i j); [lia | assumption | assumption].
Qed.

(** Positions in a list of lists, ordered by outer then inner index. *)
Lemma StronglySorted_concat_lex (ls : list (list A)) :
  StronglySorted R (concat ls) ->
  forall bi bj i j Bi Bj x y,
    nth_error ls bi = Some Bi -> nth_error Bi i = Some x ->
    nth_error ls bj = Some Bj -> nth_error Bj j = Some y ->
    (bi < bj)%nat \/ (bi = bj /\ (i < j)%nat) ->
    R x y.
Proof.
  induction ls as [|B ls IH]; simpl; intros H bi bj i j Bi Bj x y HBi Hx HBj Hy Hlt.
  - destruct bi; discriminate HBi.
  - apply StronglySorted_app_inv in H. destruct H as (HB & Hrest & Hcross).
    destruct bi as [|bi], bj as [|bj]; simpl in HBi, HBj.
    + injection HBi as <-. injection HBj as <-.
      apply (StronglySorted_nth B i j); try assumption. lia.
    + injection HBi as <-.
      apply Hcross; [eapply nth_error_In, Hx|].
      apply in_concat. exists Bj. split; eapply nth_error_In; eassumption.
    + lia.
    + apply (IH Hrest bi bj i j Bi Bj); try assumption. lia.
Qed.
End StronglySortedFacts.

Lemma StronglySorted_weaken {A} (R R' : A -> A -> Prop) (l : list A) :
  (forall a b, R a b -> R' a b) -> StronglySorted R l -> StronglySorted R' l.
Proof.
  intros Hw. induction 1 as [|a l Hs IH Ha]; constructor; [exact IH|].
  eapply Forall_impl; [|exact Ha]. intros b. apply Hw.
Qed.

(** *** Grouping *)

Lemma group_push_keys gs it k :
  In k (map fst (group_push gs it)) ->
  In k (map fst gs) \/ k = SyncQueueItem.task_id it.
Proof.
  induction gs as [|[k0 g] gs IH]; simpl.
  - intros [<-|[]]. right. reflexivity.
  - destruct (String.eqb k0 (SyncQueueItem.task_id it)); simpl.
    + intros H. left. exact H.
    + intros [<-|H]; [left; left; reflexivity|].
      destruct (IH H) as [H'|H']; [left; right; exact H' | right; exact H'].
Qed.

Lemma group_push_ok gs it : groups_ok gs -> groups_ok (group_push gs it).
Proof.
  unfold groups_ok. induction gs as [|[k g] gs IH]; simpl; intros [Hnd Hall].
  - split; repeat constructor. intros [].
  - apply NoDup_cons_iff in Hnd. destruct Hnd as [Hk Hnd].
    apply Forall_cons_iff in Hall. destruct Hall as [Hg Hall].
    destruct (String.eqb_spec k (SyncQueueItem.task_id it)) as [Heq|Hne]; simpl.
    + split; [constructor; assumption|].
      constructor; [|exact Hall]. simpl in *.
      apply Forall_app. split; [exact Hg|]. constructor; [symmetry; exact Heq|constructor].
    + destruct (IH (conj Hnd Hall)) as [Hnd' Hall'].
      split; [|constructor; assumption].
      constructor; [|exact Hnd'].
      intros Hin. apply group_push_keys in Hin. destruct Hin as [Hin|Hin]; auto.
Qed.

Lemma group_push_perm gs it :
  Permutation (concat (map snd (group_push gs it))) (it :: concat (map snd gs)).
Proof.
  induction gs as [|[k g] gs IH]; simpl.
  - apply Permutation_refl.
  - destruct (String.eqb k (SyncQueueItem.task_id it)); simpl.
    + rewrite <- app_assoc. simpl.
      apply Permutation_sym, Permutation_middle.
    + apply perm_trans with (g ++ it :: concat (map snd gs)).
      * apply Permutation_app_head, IH.
      * apply Permutation_sym, Permutation_middle.
Qed.

Lemma fold_group_push_ok its gs :
  groups_ok gs -> groups_ok (fold_left group_push its gs).
Proof.
  revert gs. induction its as [|it its IH]; simpl; intros gs H; [exact H|].
  apply IH, group_push_ok, H.
Qed.

Lemma fold_group_push_perm its gs :
  Permutation (concat (map snd (fold_left group_push its gs)))
              (concat (map snd gs) ++ its).
Proof.
  revert gs. induction its as [|it its IH]; simpl; intros gs.
  - rewrite app_nil_r. apply Permutation_refl.
  - apply perm_trans with (concat (map snd (group_push gs it)) ++ its); [apply IH|].
    apply perm_trans with ((it :: concat (map snd gs)) ++ its).
    + apply Permutation_app_tail, group_push_perm.
    + simpl. apply Permutation_middle.
Qed.

Lemma by_created_at_sorted (g : list SyncQueueItem.t) :
  StronglySorted
    (fun a b => SyncQueueItem.created_at a <= SyncQueueItem.created_at b)
    (sort_by by_created_at g).
Proof.
  apply StronglySorted_weaken with (R := fun a b => by_created_at a b = true).
  - intros a b H. apply Z.leb_le, H.
  - apply sort_by_sorted; unfold by_created_at.
    + intros a b H. apply Z.leb_le. apply Z.leb_gt in H. lia.
    + intros a b c Hab Hbc. apply Z.leb_le. apply Z.leb_le in Hab, Hbc. lia.
Qed.

Lemma groupItems_ok (its : list SyncQueueItem.t) :
  groups_ok (groupItemsByTaskChronologically its) /\
  Forall (fun kg =>
            StronglySorted
              (fun a b => SyncQueueItem.created_at a <= SyncQueueItem.created_at b)
              (snd kg))
         (groupItemsByTaskChronologically its).
Proof.
  unfold groupItemsByTaskChronologically.
  assert (H : groups_ok (fold_left group_push its [])).
  { apply fold_group_push_ok. split; constructor. }
  destruct H as [Hnd Hall]. unfold groups_ok. repeat split.
  - rewrite map_map. simpl. exact Hnd.
  - apply Forall_map. eapply Forall_impl; [|exact Hall].
    intros [k g] Hg. simpl in *. apply sort_by_Forall, Hg.
  - apply Forall_map. apply Forall_forall. intros [k g] _. simpl.
    apply by_created_at_sorted.
Qed.

Lemma groupItems_perm (its : list SyncQueueItem.t) :
  Permutation (concat (map snd (groupItemsByTaskChronologically its))) its.
Proof.
  unfold groupItemsByTaskChronologically.
  apply perm_trans with (concat (map snd (fold_left group_push its []))).
  - generalize (fold_left group_push its []). intros gs.
    induction gs as [|[k g] gs IH]; simpl; [apply perm_nil|].
    apply Permutation_app; [apply sort_by_perm | exact IH].
  - apply (fold_group_push_perm its []).
Qed.

(** The concatenation of the groups respects the order of each task. *)
Lemma groups_flat_sorted (gs : Groups) :
  groups_ok gs ->
  Forall (fun kg =>
            StronglySorted
              (fun a b => SyncQueueItem.created_at a <= SyncQueueItem.created_at b)
              (snd kg)) gs ->
  StronglySorted may_precede (concat (map snd gs)).
Proof.
  unfold groups_ok. induction gs as [|[k g] gs IH]; simpl; intros [Hnd Hall] Hsorted.
  - constructor.
  - apply NoDup_cons_iff in Hnd. destruct Hnd as [Hk Hnd].
    apply Forall_cons_iff in Hall. destruct Hall as [Hg Hall].
    apply Forall_cons_iff in Hsorted. destruct Hsorted as [Hs Hsorted].
    simpl in Hg, Hs.
    apply StronglySorted_app.
    + apply StronglySorted_weaken with (2 := Hs).
      intros a b Hab [_ Hlt]. lia.
    + apply IH; [split|]; assumption.
    + intros x y Hx Hy [Htask _].
      apply in_concat in Hy. destruct Hy as (g' & Hg' & Hy).
      apply in_map_iff in Hg'. destruct Hg' as ([k' g''] & Heq & Hin). simpl in Heq. subst g''.
      rewrite Forall_forall in Hg, Hall.
      pose proof (Hg x Hx) as Hxk. pose proof (Hall _ Hin) as Hk'. simpl in Hk'.
      rewrite Forall_forall in Hk'. pose proof (Hk' y Hy) as Hyk.
      apply Hk. replace k with k' by congruence.
      apply in_map_iff. exists (k', g'). split; [reflexivity | exact Hin].
Qed.

(** *** Batching *)

Section Batching.
Variable E : Env.

Lemma fold_batch_step_flat its bs cur :
  concat (fst (fold_left (batch_step E) its (bs, cur)))
    ++ snd (fold_left (batch_step E) its (bs, cur))
  = concat bs ++ cur ++ its.
Proof.
  revert bs cur. induction its as [|it its IH]; simpl; intros bs cur.
  - rewrite app_nil_r. reflexivity.
  - destruct (Z.of_nat (length cur) >=? BATCH_SIZE E); rewrite IH.
    + rewrite concat_app. simpl. rewrite app_nil_r, <- app_assoc. reflexivity.
    + rewrite <- app_assoc. reflexivity.
Qed.

Lemma fold_groups_flat (gs : Groups) st :
  concat (fst (fold_left (fun st kg => fold_left (batch_step E) (snd kg) st) gs st))
    ++ snd (fold_left (fun st kg => fold_left (batch_step E) (snd kg) st) gs st)
  = concat (fst st) ++ snd st ++ concat (map snd gs).
Proof.
  revert st. induction gs as [|[k g] gs IH]; simpl; intros st.
  - rewrite app_nil_r. reflexivity.
  - rewrite IH. destruct st as [bs cur].
    rewrite app_assoc, fold_batch_step_flat. simpl. rewrite <- !app_assoc. reflexivity.
Qed.

Lemma createBatches_flat (gs : Groups) :
  concat (createBatches E gs) = concat (map snd gs).
Proof.
  unfold createBatches.
  pose proof (fold_groups_flat gs ([], [])) as H. simpl in H.
  destruct (fold_left _ gs ([], [])) as [bs cur]. simpl in H.
  destruct cur as [|c cur]; simpl.
  - rewrite app_nil_r in H. exact H.
  - rewrite concat_app. simpl. rewrite app_nil_r. exact H.
Qed.

Hypothesis cap_positive : 1 <= BATCH_SIZE E.

Lemma batch_step_within_cap st it : within_cap E st -> within_cap E (batch_step E st it).
Proof.
  destruct st as [bs cur]. unfold within_cap, batch_step. simpl. intros [Hbs Hcur].
  destruct (Z.of_nat (length cur) >=? BATCH_SIZE E) eqn:Hfull; simpl.
  - split; [|lia]. apply Forall_app. split; [exact Hbs|].
    constructor; [exact Hcur | constructor].
  - split; [exact Hbs|].
    rewrite Z.geb_leb in Hfull. apply Z.leb_gt in Hfull.
    rewrite length_app. simpl. lia.
Qed.

Lemma fold_batch_step_within_cap its st :
  within_cap E st -> within_cap E (fold_left (batch_step E) its st).
Proof.
  revert st. induction its as [|it its IH]; simpl; intros st H; [exact H|].
  apply IH, batch_step_within_cap, H.
Qed.

Lemma createBatches_within_cap (gs : Groups) :
  Forall (fun b => Z.of_nat (length b) <= BATCH_SIZE E) (createBatches E gs).
Proof.
  unfold createBatches.
  assert (H : within_cap E
                (fold_left (fun st kg => fold_left (batch_step E) (snd kg) st) gs ([], []))).
  { assert (H0 : within_cap E ([], [])) by (split; [constructor | simpl; lia]).
    revert H0. generalize (@nil (list SyncQueueItem.t), @nil SyncQueueItem.t).
    induction gs as [|[k g] gs IH]; simpl; intros st H0; [exact H0|].
    apply IH, fold_batch_step_within_cap, H0. }
  destruct (fold_left _ gs ([], [])) as [bs cur]. destruct H as [Hbs Hcur]. simpl in *.
  destruct (0 <? Z.of_nat (length cur)); [|exact Hbs].
  apply Forall_app. split; [exact Hbs|]. constructor; [exact Hcur | constructor].
Qed.
End Batching.

(** C4: for every list of drained queue items, the batches hold exactly the
    drained items; with a cap of at least one, no batch is longer than
    [BATCH_SIZE]; and of two intents of the same task, the one with the
    smaller [created_at] comes first: in an earlier batch, or earlier in the
    same batch.  Nothing is said of intents of different tasks. *)
Theorem createBatches_order_and_size (E : Env) (queue : list SyncQueueItem.t) :
  let batches := createBatches E (groupItemsByTaskChronologically queue) in
  (1 <= BATCH_SIZE E ->
     Forall (fun batch => Z.of_nat (length batch) <= BATCH_SIZE E) batches) /\
  Permutation (concat batches) queue /\
  (forall bi bj i j batch_a batch_b a b,
     nth_error batches bi = Some batch_a -> nth_error batch_a i = Some a ->
     nth_error batches bj = Some batch_b -> nth_error batch_b j = Some b ->
     SyncQueueItem.task_id a = SyncQueueItem.task_id b ->
     SyncQueueItem.created_at a < SyncQueueItem.created_at b ->
     (bi < bj)%nat \/ (bi = bj /\ (i < j)%nat)).
Proof.
  intros batches. subst batches.
  split; [|split].
  - intros Hcap. apply createBatches_within_cap, Hcap.
  - rewrite createBatches_flat. apply groupItems_perm.
  - intros bi bj i j batch_a batch_b a b Ha Hia Hb Hjb Htask Hlt.
    assert (Hsorted : StronglySorted may_precede
              (concat (createBatches E (groupItemsByTaskChronologically queue)))).
    { rewrite createBatches_flat.
      destruct (groupItems_ok queue) as [Hok Hs].
      apply groups_flat_sorted; assumption. }
    assert (Hcases : ((bi < bj)%nat \/ (bi = bj /\ (i < j)%nat)) \/
                     ((bj < bi)%nat \/ (bj = bi /\ (j < i)%nat)) \/
                     (bi = bj /\ i = j)) by lia.
    destruct Hcases as [H|[H|[Hb' Hi']]]; [exact H| |].
    + exfalso.
      apply (StronglySorted_concat_lex may_precede _ Hsorted
               bj bi j i batch_b batch_a b a Hb Hjb Ha Hia H).
      split; [symmetry; exact Htask | exact Hlt].
    + exfalso. subst bj j. rewrite Ha in Hb. injection Hb as <-.
      rewrite Hia in Hjb. injection Hjb as <-. lia.
Qed.

Lemma createBatches_order_and_size_witness :
  Forall (fun batch => Z.of_nat (length batch) <= 2)
         (createBatches online_env (groupItemsByTaskChronologically intents_of_T)) /\
  ((0 < 1)%nat \/ (0 = 1 /\ (1 < 0)%nat))%nat.
Proof.
  destruct (createBatches_order_and_size online_env intents_of_T) as (Hcap & _ & Horder).
  split.
  - apply Hcap. simpl. lia.
  - apply (Horder 0%nat 1%nat 1%nat 0%nat
             [SyncQueueItem.mk "i1" "T" Operation.create (sample_task "T" 1) 1 0 None;
              SyncQueueItem.mk "i2" "T" Operation.update (sample_task "T" 2) 2 0 None]
             [SyncQueueItem.mk "i3" "T" Operation.delete (sample_task "T" 3) 3 0 None]
             (SyncQueueItem.mk "i2" "T" Operation.update (sample_task "T" 2) 2 0 None)
             (SyncQueueItem.mk "i3" "T" Operation.delete (sample_task "T" 3) 3 0 None));
      try reflexivity.
Defined.

(** *** Dead-letter records along a cycle *)

Lemma preserves_fold_each_in (I : World -> Prop) {A S}
    (body : S -> A -> M S) (xs : list A) :
  (forall s x, In x xs -> preserves I (body s x)) ->
  forall s, preserves I (fold_each body xs s).
Proof.
  induction xs as [|x xs IH]; intros Hb s; simpl.
  - apply preserves_ret.
  - apply preserves_bind.
    + apply Hb. left. reflexivity.
    + intros s'. apply IH. intros s0 y Hy. apply Hb. right. exact Hy.
Qed.

Lemma handleSyncError_dead_letters_ok E item message :
  SyncQueueItem.retry_count item < MAX_RETRIES ->
  preserves dead_letters_ok (handleSyncError E item message).
Proof.
  intros Hb w H. unfold dead_letters_ok in *.
  destruct (Z.lt_ge_cases (SyncQueueItem.retry_count item + 1) MAX_RETRIES) as [Hlt|Hge].
  - rewrite (handleSyncError_retry E item message w Hlt). exact H.
  - rewrite (handleSyncError_exhausted E item message w) by lia. simpl.
    apply Forall_app. split; [exact H|].
    constructor; [|constructor]. simpl. unfold MAX_RETRIES in *. lia.
Qed.

Lemma fail_item_dead_letters_ok E item message r :
  SyncQueueItem.retry_count item < MAX_RETRIES ->
  preserves dead_letters_ok (fail_item E item message r).
Proof.
  intros Hb. unfold fail_item. preserve_step.
  - apply handleSyncError_dead_letters_ok, Hb.
  - intros w H. exact H.
Qed.

Lemma updateSyncStatus_dead_letters_ok E taskId st serverData :
  preserves dead_letters_ok (updateSyncStatus E taskId st serverData).
Proof.
  intros w H. unfold updateSyncStatus, bind, new_Date, db_run. simpl.
  destruct (SyncStatus.eqb st SyncStatus.synced); exact H.
Qed.

Lemma processBatch_dead_letters_ok E batch :
  preserves dead_letters_ok (processBatch E batch).
Proof.
  unfold processBatch. preserve_step; try (intros w H; exact H).
  destruct a1; preserve_step. intros w H. exact H.
Qed.

Lemma settle_item_dead_letters_ok E batch r p :
  Forall (fun item => SyncQueueItem.retry_count item < MAX_RETRIES) batch ->
  preserves dead_letters_ok (settle_item E batch r p).
Proof.
  intros Hbatch. unfold settle_item.
  destruct (find _ batch) as [originalItem|] eqn:Hfind; [|apply preserves_ret].
  apply find_some in Hfind. destruct Hfind as [Hin _].
  rewrite Forall_forall in Hbatch. specialize (Hbatch _ Hin).
  destruct (status p); try destruct (resolved_data p);
    solve [ apply fail_item_dead_letters_ok, Hbatch
          | preserve_step; apply updateSyncStatus_dead_letters_ok ].
Qed.

Lemma run_batch_dead_letters_ok E r batch :
  Forall (fun item => SyncQueueItem.retry_count item < MAX_RETRIES) batch ->
  preserves dead_letters_ok (run_batch E r batch).
Proof.
  intros Hbatch. unfold run_batch. preserve_step.
  - apply processBatch_dead_letters_ok.
  - destruct a.
    + apply preserves_fold_each_in. intros r' item Hin.
      apply fail_item_dead_letters_ok.
      rewrite Forall_forall in Hbatch. apply Hbatch, Hin.
    + preserve_step. apply settle_item_dead_letters_ok, Hbatch.
Qed.

Lemma drained_batches_bounded E (w : World) batch :
  retry_bounded w ->
  In batch (createBatches E
              (groupItemsByTaskChronologically (sort_by queue_order (sync_queue w)))) ->
  Forall (fun item => SyncQueueItem.retry_count item < MAX_RETRIES) batch.
Proof.
  intros Hb Hin. apply Forall_forall. intros item Hitem.
  assert (Hflat : In item (concat (createBatches E
            (groupItemsByTaskChronologically (sort_by queue_order (sync_queue w)))))).
  { apply in_concat. exists batch. split; assumption. }
  rewrite createBatches_flat in Hflat.
  apply (Permutation_in _ (groupItems_perm _)) in Hflat.
  apply sort_by_In in Hflat.
  unfold retry_bounded in Hb. rewrite Forall_forall in Hb. apply Hb, Hflat.
Qed.

Lemma sync_dead_letters_ok E (w : World) :
  retry_bounded w -> dead_letters_ok w -> dead_letters_ok (snd (sync E w)).
Proof.
  intros Hb H. unfold sync, bind, checkConnectivity.
  destruct (health E (ticks w)); simpl; [|exact H].
  unfold getSyncQueueItems, db_query. simpl.
  destruct (length (sort_by queue_order (sync_queue w)) =? 0)%nat; [exact H|].
  match goal with
  | |- context [fold_each ?body ?batches ?r ?w1] =>
      assert (Hfinal : dead_letters_ok (snd (fold_each body batches r w1)));
      [| destruct (fold_each body batches r w1); exact Hfinal]
  end.
  apply preserves_fold_each_in; [|exact H].
  intros s batch Hin. apply run_batch_dead_letters_ok.
  apply (drained_batches_bounded E w batch Hb Hin).
Qed.

(** C9: the code departs from the claim on one column.  When the handler
    moves an item to the dead-letter table, the record appended copies the
    item's [id], [task_id], [operation] and [created_at], carries the error
    message and the instant of the move, and its [retry_count] is the item's
    own, not incremented; for an item within the retry bound this is
    [MAX_RETRIES - 1] and never [MAX_RETRIES].  Its [data], however, is not
    the item's snapshot: the column holds [object_text] whatever the snapshot
    was, so that the payload of the intent cannot be read back from the
    record.  Over a whole cycle started with a queue within the retry bound,
    every record added to the dead-letter table has
    [retry_count = MAX_RETRIES - 1]. *)
Theorem dead_letter_record
    (E : Env) (item : SyncQueueItem.t) (message : string) (w : World) :
  (SyncQueueItem.retry_count item + 1 >= MAX_RETRIES ->
   exists record,
     dead_letter_queue (snd (handleSyncError E item message w)) =
       dead_letter_queue w ++ [record] /\
     DeadLetter.id record = SyncQueueItem.id item /\
     DeadLetter.task_id record = SyncQueueItem.task_id item /\
     DeadLetter.operation record = SyncQueueItem.operation item /\
     DeadLetter.data record = "[object Object]"%string /\
     DeadLetter.created_at record = SyncQueueItem.created_at item /\
     DeadLetter.final_error_message record = message /\
     DeadLetter.failed_at record = clock E (ticks w) /\
     DeadLetter.retry_count record = SyncQueueItem.retry_count item /\
     (SyncQueueItem.retry_count item < MAX_RETRIES ->
        DeadLetter.retry_count record = MAX_RETRIES - 1 /\
        DeadLetter.retry_count record <> MAX_RETRIES)) /\
  (retry_bounded w -> dead_letters_ok w -> dead_letters_ok (snd (sync E w))).
Proof.
  split; [|apply sync_dead_letters_ok].
  intros Hge. rewrite (handleSyncError_exhausted E item message w Hge). simpl.
  eexists. split; [reflexivity|]. simpl.
  repeat split; unfold MAX_RETRIES in *; lia.
Qed.

Lemma sample_world_retry_bounded : retry_bounded sample_world.
Proof. unfold retry_bounded, MAX_RETRIES. simpl. repeat constructor. Defined.

(** The failing input of C9: the third failure of the intent [q2], whose
    snapshot is [sample_task "b" 15], and of an intent that differs from it
    in the snapshot alone; both leave the same [data] behind. *)
Lemma dead_letter_record_witness :
  (exists record,
     dead_letter_queue
       (snd (handleSyncError sample_env (sample_item "q2" "b" 15 2) "boom" sample_world))
       = [record] /\
     SyncQueueItem.data (sample_item "q2" "b" 15 2) = sample_task "b" 15 /\
     DeadLetter.data record = "[object Object]"%string /\
     DeadLetter.retry_count record = 2 /\
     DeadLetter.final_error_message record = "boom"%string) /\
  map DeadLetter.data
    (dead_letter_queue
       (snd (handleSyncError sample_env
               (SyncQueueItem.mk "q2" "b" Operation.update (sample_task "b" 99) 15 2 None)
               "boom" sample_world)))
    = ["[object Object]"%string] /\
  dead_letters_ok (snd (sync flaky_env sample_world)).
Proof.
  destruct (dead_letter_record sample_env (sample_item "q2" "b" 15 2) "boom" sample_world)
    as (Hmove & _).
  destruct (dead_letter_record sample_env
              (SyncQueueItem.mk "q2" "b" Operation.update (sample_task "b" 99) 15 2 None)
              "boom" sample_world)
    as (Hother & _).
  destruct (dead_letter_record flaky_env (sample_item "q2" "b" 15 2) "boom" sample_world)
    as (_ & Hcycle).
  split; [|split].
  - destruct Hmove as (record & Hdead & _ & _ & _ & Hdata & _ & Hmsg & _ & _ & Hcount).
    + simpl. unfold MAX_RETRIES. lia.
    + exists record. split; [exact Hdead|]. split; [reflexivity|].
      split; [exact Hdata|]. split; [|exact Hmsg].
      apply Hcount. simpl. unfold MAX_RETRIES. lia.
  - destruct Hother as (record & Hdead & _ & _ & _ & Hdata & _).
    + simpl. unfold MAX_RETRIES. lia.
    + rewrite Hdead. simpl. rewrite Hdata. reflexivity.
  - apply Hcycle; [apply sample_world_retry_bounded | constructor].
Defined.

(** * Further properties of the services *)

(** ** TaskService: creation, deletion and lookups *)

Lemma filter_app_single {A} (f : A -> bool) (l : list A) (x : A) :
  filter f (l ++ [x]) = filter f l ++ (if f x then [x] else []).
Proof. rewrite filter_app. reflexivity. Qed.

Lemma first_live_fresh id (ts : list TaskRow.t) (row : TaskRow.t) :
  (forall r, In r ts -> TaskRow.id r = id -> TaskRow.is_deleted r <> 0) ->
  live_with_id id row = true ->
  hd_error (filter (live_with_id id) (ts ++ [row])) = Some row.
Proof.
  intros Hfresh Hrow. rewrite filter_app_single, Hrow.
  replace (filter (live_with_id id) ts) with (@nil TaskRow.t); [reflexivity|].
  symmetry.
  assert (H : first_live id (mkWorld ts [] [] [] 0) = None)
    by (apply first_live_none; exact Hfresh).
  unfold first_live in H. simpl in H.
  destruct (filter (live_with_id id) ts); [reflexivity | discriminate H].
Qed.

(** X1: [createTask] returns a pending, live task whose id is the fresh uuid
    and whose two timestamps are the current instant; it appends one row that
    projects back to the returned task and one [create] intent carrying it,
    with no retry yet; and when no live row already has that id, looking the
    id up afterwards returns the task just created. *)
Theorem createTask_contract (E : Env) (taskData : Partial.t) (w : World) :
  let t := fst (createTask E taskData w) in
  let w' := snd (createTask E taskData w) in
  Task.id t = uuid E (ticks w) /\
  Task.created_at t = clock E (S (ticks w)) /\
  Task.updated_at t = Task.created_at t /\
  Task.is_deleted t = false /\
  Task.sync_status t = SyncStatus.pending /\
  Task.server_id t = None /\
  Task.last_synced_at t = None /\
  (exists row, tasks w' = tasks w ++ [row] /\ mapRowToTask row = t) /\
  (exists item,
     sync_queue w' = sync_queue w ++ [item] /\
     SyncQueueItem.task_id item = Task.id t /\
     SyncQueueItem.operation item = Operation.create /\
     SyncQueueItem.data item = t /\
     SyncQueueItem.retry_count item = 0 /\
     SyncQueueItem.error_message item = None) /\
  dead_letter_queue w' = dead_letter_queue w /\
  ((forall r, In r (tasks w) -> TaskRow.id r = Task.id t -> TaskRow.is_deleted r <> 0) ->
   fst (getTask (Task.id t) w') = Some t).
Proof.
  intros t w'. subst t w'.
  repeat split; try reflexivity.
  - eexists. split; [reflexivity|]. simpl. unfold mapRowToTask. simpl.
    rewrite Boolean_to_int. reflexivity.
  - eexists. repeat split; reflexivity.
  - intros Hfresh. rewrite getTask_run. unfold first_live. simpl in *.
    match goal with
    | |- option_map _ (hd_error (filter _ (_ ++ [?row]))) = _ =>
        rewrite (first_live_fresh (uuid E (ticks w)) (tasks w) row Hfresh)
    end.
    + simpl. unfold mapRowToTask. simpl. rewrite Boolean_to_int. reflexivity.
    + unfold live_with_id. simpl. rewrite String.eqb_refl. reflexivity.
Qed.

Lemma createTask_contract_witness :
  fst (getTask "u" (snd (createTask sample_env Partial.empty sample_world)))
  = Some (fst (createTask sample_env Partial.empty sample_world)).
Proof.
  apply (createTask_contract sample_env Partial.empty sample_world).
  intros r Hin Hid. simpl in Hin.
  destruct Hin as [<-|[<-|[<-|[]]]]; simpl in Hid; discriminate Hid.
Defined.

Lemma deleteTask_absent E id w :
  first_live id w = None ->
  deleteTask E id w = (false, log (SelectTask id) w).
Proof.
  intros H. unfold deleteTask, bind. rewrite getTask_run, H. reflexivity.
Qed.

Lemma deleteTask_present E id w row :
  first_live id w = Some row ->
  fst (deleteTask E id w) = true /\
  tasks (snd (deleteTask E id w)) =
    map (soft_delete id (clock E (ticks w)) SyncStatus.pending) (tasks w) /\
  sync_queue (snd (deleteTask E id w)) =
    sync_queue w ++
      [ {| SyncQueueItem.id := uuid E (S (ticks w));
           SyncQueueItem.task_id := id;
           SyncQueueItem.operation := Operation.delete;
           SyncQueueItem.data :=
             {| Task.id := TaskRow.id row;
                Task.title := TaskRow.title row;
                Task.description := TaskRow.description row;
                Task.completed := Boolean (TaskRow.completed row);
                Task.created_at := TaskRow.created_at row;
                Task.updated_at := clock E (ticks w);
                Task.is_deleted := true;
                Task.sync_status := SyncStatus.pending;
                Task.server_id := TaskRow.server_id row;
                Task.last_synced_at := TaskRow.last_synced_at row |};
           SyncQueueItem.created_at := clock E (S (S (ticks w)));
           SyncQueueItem.retry_count := 0;
           SyncQueueItem.error_message := None |} ] /\
  dead_letter_queue (snd (deleteTask E id w)) = dead_letter_queue w.
Proof.
  intros H. unfold deleteTask, bind. rewrite getTask_run, H. simpl.
  repeat split.
Qed.

Lemma soft_delete_effect id now st r :
  if live_with_id id r
  then TaskRow.is_deleted (soft_delete id now st r) = 1 /\
       TaskRow.updated_at (soft_delete id now st r) = now /\
       TaskRow.sync_status (soft_delete id now st r) = st /\
       TaskRow.id (soft_delete id now st r) = TaskRow.id r /\
       TaskRow.title (soft_delete id now st r) = TaskRow.title r /\
       TaskRow.description (soft_delete id now st r) = TaskRow.description r /\
       TaskRow.completed (soft_delete id now st r) = TaskRow.completed r /\
       TaskRow.created_at (soft_delete id now st r) = TaskRow.created_at r /\
       TaskRow.server_id (soft_delete id now st r) = TaskRow.server_id r /\
       TaskRow.last_synced_at (soft_delete id now st r) = TaskRow.last_synced_at r
  else soft_delete id now st r = r.
Proof.
  unfold soft_delete. destruct (live_with_id id r); simpl; repeat split.
Qed.

(** X2: [deleteTask] returns false and leaves the three tables as they were
    when no live row has the id; otherwise it returns true, marks every live
    row of that id deleted with a fresh [updated_at] and status pending while
    keeping all its other columns, leaves the other rows alone and the
    dead-letter table as it was, and appends one [delete] intent, with a
    fresh id, no retry and no error yet, whose snapshot is the whole found
    task (title, description, completion, creation instant, server id and
    last synchronisation as the row has them) with [is_deleted] set,
    [updated_at] the instant of the deletion and status pending. *)
Theorem deleteTask_contract (E : Env) (id : string) (w : World) :
  ((forall r, In r (tasks w) -> TaskRow.id r = id -> TaskRow.is_deleted r <> 0) ->
     fst (deleteTask E id w) = false /\
     tasks (snd (deleteTask E id w)) = tasks w /\
     sync_queue (snd (deleteTask E id w)) = sync_queue w /\
     dead_letter_queue (snd (deleteTask E id w)) = dead_letter_queue w) /\
  (forall row, first_live id w = Some row ->
     fst (deleteTask E id w) = true /\
     rows_updated (live_with_id id)
       (fun r r' =>
          TaskRow.is_deleted r' = 1 /\
          TaskRow.updated_at r' = clock E (ticks w) /\
          TaskRow.sync_status r' = SyncStatus.pending /\
          TaskRow.id r' = TaskRow.id r /\
          TaskRow.title r' = TaskRow.title r /\
          TaskRow.description r' = TaskRow.description r /\
          TaskRow.completed r' = TaskRow.completed r /\
          TaskRow.created_at r' = TaskRow.created_at r /\
          TaskRow.server_id r' = TaskRow.server_id r /\
          TaskRow.last_synced_at r' = TaskRow.last_synced_at r)
       (tasks w) (tasks (snd (deleteTask E id w))) /\
     dead_letter_queue (snd (deleteTask E id w)) = dead_letter_queue w /\
     exists item,
       sync_queue (snd (deleteTask E id w)) = sync_queue w ++ [item] /\
       SyncQueueItem.id item = uuid E (S (ticks w)) /\
       SyncQueueItem.task_id item = id /\
       SyncQueueItem.operation item = Operation.delete /\
       SyncQueueItem.created_at item = clock E (S (S (ticks w))) /\
       SyncQueueItem.retry_count item = 0 /\
       SyncQueueItem.error_message item = None /\
       SyncQueueItem.data item =
         {| Task.id := Task.id (mapRowToTask row);
            Task.title := Task.title (mapRowToTask row);
            Task.description := Task.description (mapRowToTask row);
            Task.completed := Task.completed (mapRowToTask row);
            Task.created_at := Task.created_at (mapRowToTask row);
            Task.updated_at := clock E (ticks w);
            Task.is_deleted := true;
            Task.sync_status := SyncStatus.pending;
            Task.server_id := Task.server_id (mapRowToTask row);
            Task.last_synced_at := Task.last_synced_at (mapRowToTask row) |} /\
       Task.id (SyncQueueItem.data item) = id /\
       Task.title (SyncQueueItem.data item) = TaskRow.title row /\
       Task.description (SyncQueueItem.data item) = TaskRow.description row /\
       Task.completed (SyncQueueItem.data item) = Boolean (TaskRow.completed row) /\
       Task.created_at (SyncQueueItem.data item) = TaskRow.created_at row /\
       Task.server_id (SyncQueueItem.data item) = TaskRow.server_id row /\
       Task.last_synced_at (SyncQueueItem.data item) = TaskRow.last_synced_at row).
Proof.
  split.
  - intros H. apply first_live_none in H.
    rewrite (deleteTask_absent E id w H). simpl. repeat split.
  - intros row H.
    destruct (deleteTask_present E id w row H) as (Hres & Htasks & Hq & Hdead).
    split; [exact Hres|]. rewrite Htasks, Hq. split; [|split; [exact Hdead|]].
    + apply rows_updated_map. intros r. apply soft_delete_effect.
    + eexists. split; [reflexivity|]. simpl.
      apply first_live_spec in H. destruct H as (_ & Hid & _).
      repeat split; try reflexivity. exact Hid.
Qed.

Lemma deleteTask_contract_witness :
  fst (deleteTask sample_env "b" sample_world) = false /\
  fst (deleteTask sample_env "a" sample_world) = true /\
  exists item,
    sync_queue (snd (deleteTask sample_env "a" sample_world))
      = sync_queue sample_world ++ [item] /\
    SyncQueueItem.data item =
      Task.mk "a" "buy milk" EmptyString false 10 1000 true SyncStatus.pending None None.
Proof.
  split; [|split].
  - apply (proj1 (deleteTask_contract sample_env "b" sample_world)).
    intros r Hin Hid. simpl in Hin.
    destruct Hin as [<-|[<-|[<-|[]]]]; simpl in *; try discriminate Hid; lia.
  - apply (proj2 (deleteTask_contract sample_env "a" sample_world)
             (sample_row "a" 0 SyncStatus.pending 20) eq_refl).
  - destruct (proj2 (deleteTask_contract sample_env "a" sample_world)
                (sample_row "a" 0 SyncStatus.pending 20) eq_refl)
      as (_ & _ & _ & item & Hqueue & _ & _ & _ & _ & _ & _ & Hdata & _).
    exists item. split; [exact Hqueue | exact Hdata].
Defined.

Lemma soft_delete_not_live id now st r :
  live_with_id id (soft_delete id now st r) = false.
Proof.
  unfold soft_delete. destruct (live_with_id id r) eqn:H; [|exact H].
  unfold live_with_id. simpl. apply andb_false_r.
Qed.

Lemma first_live_after_delete E id w :
  fst (deleteTask E id w) = true ->
  first_live id (snd (deleteTask E id w)) = None.
Proof.
  intros Hdel.
  destruct (first_live id w) as [row|] eqn:Hrow.
  - destruct (deleteTask_present E id w row Hrow) as (_ & Htasks & _).
    unfold first_live. rewrite Htasks.
    replace (filter (live_with_id id)
               (map (soft_delete id (clock E (ticks w)) SyncStatus.pending) (tasks w)))
      with (@nil TaskRow.t); [reflexivity|].
    symmetry. clear. induction (tasks w) as [|r l IH]; simpl; [reflexivity|].
    rewrite soft_delete_not_live. exact IH.
  - rewrite (deleteTask_absent E id w Hrow) in Hdel. discriminate Hdel.
Qed.

(** X3: once [deleteTask] has succeeded for an id, the task is gone for the
    readers and writers that hide soft-deleted rows ([getTask] and
    [updateTask] return nothing, a second [deleteTask] returns false, and
    [getAllTasks] lists no task of that id), while [getTasksNeedingSync]
    still returns it, marked deleted and pending. *)
Theorem deleteTask_hides (E : Env) (id : string) (w : World) :
  fst (deleteTask E id w) = true ->
  let w' := snd (deleteTask E id w) in
  fst (getTask id w') = None /\
  (forall E', fst (deleteTask E' id w') = false) /\
  (forall E' updates, fst (updateTask E' id updates w') = None) /\
  Forall (fun t => Task.id t <> id) (fst (getAllTasks w')) /\
  exists t, In t (fst (getTasksNeedingSync w')) /\
            Task.id t = id /\ Task.is_deleted t = true /\
            Task.sync_status t = SyncStatus.pending.
Proof.
  intros Hdel w'. subst w'.
  pose proof (first_live_after_delete E id w Hdel) as Hnone.
  split; [rewrite getTask_run, Hnone; reflexivity|].
  split; [intros E'; rewrite (deleteTask_absent E' _ _ Hnone); reflexivity|].
  split; [intros E' updates; rewrite (updateTask_absent E' _ updates _ Hnone); reflexivity|].
  split.
  - unfold getAllTasks, bind, db_query. simpl.
    apply Forall_map, sort_by_Forall, Forall_forall.
    intros r Hr. apply filter_In in Hr. destruct Hr as [Hin Hlive]. simpl.
    intros Hid.
    pose proof (proj1 (first_live_none id _) Hnone r Hin Hid) as Hdeleted.
    apply Z.eqb_eq in Hlive. contradiction.
  - destruct (first_live id w) as [row|] eqn:Hrow;
      [|rewrite (deleteTask_absent E id w Hrow) in Hdel; discriminate Hdel].
    destruct (deleteTask_present E id w row Hrow) as (_ & Htasks & _).
    pose proof (first_live_spec id w row Hrow) as (Hin & Hid & Hlive).
    exists (mapRowToTask (soft_delete id (clock E (ticks w)) SyncStatus.pending row)).
    assert (Hl : live_with_id id row = true).
    { unfold live_with_id. rewrite Hid, String.eqb_refl, Hlive. reflexivity. }
    split.
    + unfold getTasksNeedingSync, bind, db_query. simpl.
      apply in_map, sort_by_In, filter_In. split.
      * rewrite Htasks. apply in_map, Hin.
      * unfold needs_sync, soft_delete. rewrite Hl. reflexivity.
    + unfold soft_delete. rewrite Hl. simpl. auto.
Qed.

Lemma deleteTask_hides_witness :
  fst (getTask "a" (snd (deleteTask sample_env "a" sample_world))) = None.
Proof.
  apply (deleteTask_hides sample_env "a" sample_world). reflexivity.
Defined.

Lemma hd_filter_map {A} (p : A -> bool) (f : A -> A) (l : list A) :
  (forall x, p (f x) = p x) ->
  hd_error (filter p (map f l)) = option_map f (hd_error (filter p l)).
Proof.
  intros H. induction l as [|x l IH]; simpl; [reflexivity|].
  rewrite H. destruct (p x); [reflexivity | exact IH].
Qed.

Lemma update_fields_live id title description completed now st r :
  live_with_id id (update_fields id title description completed now st r)
  = live_with_id id r.
Proof.
  unfold update_fields. destruct (live_with_id id r) eqn:H; [|exact H].
  unfold live_with_id in *. simpl. exact H.
Qed.

(** X4: after a successful [updateTask], [getTask] on the same id finds a
    task that agrees with the returned one on id, title, description,
    completed flag, [updated_at] and status; the two are equal when the patch
    carries none of [created_at], [is_deleted], [server_id] and
    [last_synced_at]. *)
Theorem updateTask_then_getTask
    (E : Env) (id : string) (updates : Partial.t) (w : World) (t : Task.t) :
  fst (updateTask E id updates w) = Some t ->
  exists t',
    fst (getTask id (snd (updateTask E id updates w))) = Some t' /\
    Task.id t' = Task.id t /\
    Task.title t' = Task.title t /\
    Task.description t' = Task.description t /\
    Task.completed t' = Task.completed t /\
    Task.updated_at t' = Task.updated_at t /\
    Task.sync_status t' = Task.sync_status t /\
    (Partial.created_at updates = None -> Partial.is_deleted updates = None ->
     Partial.server_id updates = None -> Partial.last_synced_at updates = None ->
     t' = t).
Proof.
  intros Hres.
  destruct (first_live id w) as [row|] eqn:Hrow;
    [|rewrite (updateTask_absent E id updates w Hrow) in Hres; discriminate Hres].
  destruct (updateTask_present E id updates w row Hrow) as (Hret & Htasks & _).
  rewrite Hret in Hres. injection Hres as <-.
  pose proof (first_live_spec id w row Hrow) as (_ & Hid & Hlive).
  assert (Hl : live_with_id id row = true).
  { unfold live_with_id. rewrite Hid, String.eqb_refl, Hlive. reflexivity. }
  eexists. split.
  - rewrite getTask_run. unfold first_live at 1. rewrite Htasks.
    rewrite hd_filter_map by (intros x; apply update_fields_live).
    fold (first_live id w). rewrite Hrow. simpl. reflexivity.
  - unfold update_fields. rewrite Hl. unfold mapRowToTask. simpl.
    rewrite Boolean_to_int.
    repeat split; try assumption; try reflexivity.
    intros H1 H2 H3 H4. unfold updated_task, spread, mapRowToTask. simpl.
    rewrite H1, H2, H3, H4, Hid. reflexivity.
Qed.

Lemma updateTask_then_getTask_witness :
  exists t',
    fst (getTask "a" (snd (updateTask sample_env "a" patch_other_id sample_world)))
      = Some t' /\
    Task.title t' = "buy bread"%string.
Proof.
  destruct (updateTask_then_getTask sample_env "a" patch_other_id sample_world _ eq_refl)
    as (t' & Hget & _ & Htitle & _).
  exists t'. split; [exact Hget | exact Htitle].
Defined.

(** ** What a sync cycle can and cannot do to the store *)

Section CycleFootprint.
Variable E : Env.
Variable I : World -> Prop.
Hypothesis I_stable : cycle_stable I.

Lemma new_Date_stable : preserves I (new_Date E).
Proof. intros w H. apply (stable_tick I I_stable), H. Qed.

Lemma updateTaskSyncStatus_stable taskId st :
  preserves I (updateTaskSyncStatus taskId st).
Proof.
  intros w H. apply (stable_log I I_stable), (stable_status I I_stable), H.
Qed.

Lemma updateSyncStatus_stable taskId st serverData :
  preserves I (updateSyncStatus E taskId st serverData).
Proof.
  unfold updateSyncStatus. preserve_step.
  - apply new_Date_stable.
  - intros w H. apply (stable_log I I_stable), (stable_synced I I_stable), H.
  - destruct (SyncStatus.eqb st SyncStatus.synced); [|apply preserves_ret].
    intros w H. apply (stable_log I I_stable), (stable_delete I I_stable), H.
Qed.

Lemma moveToDeadLetterQueue_stable item message :
  preserves I (moveToDeadLetterQueue E item message).
Proof.
  unfold moveToDeadLetterQueue. preserve_step.
  - apply new_Date_stable.
  - intros w H. apply (stable_log I I_stable), (stable_dead I I_stable), H.
Qed.

Lemma handleSyncError_stable item message :
  preserves I (handleSyncError E item message).
Proof.
  unfold handleSyncError.
  destruct (SyncQueueItem.retry_count item + 1 >=? MAX_RETRIES); preserve_step.
  - apply moveToDeadLetterQueue_stable.
  - apply updateTaskSyncStatus_stable.
  - intros w H. apply (stable_log I I_stable), (stable_delete I I_stable), H.
  - intros w H. apply (stable_log I I_stable), (stable_retry I I_stable), H.
  - apply updateTaskSyncStatus_stable.
Qed.

Lemma fail_item_stable item message r : preserves I (fail_item E item message r).
Proof.
  unfold fail_item. preserve_step.
  - apply handleSyncError_stable.
  - apply new_Date_stable.
Qed.

Lemma processBatch_stable batch : preserves I (processBatch E batch).
Proof.
  unfold processBatch. preserve_step.
  - apply updateTaskSyncStatus_stable.
  - apply new_Date_stable.
  - intros w H. apply (stable_tick I I_stable), H.
  - destruct a1; preserve_step. apply updateTaskSyncStatus_stable.
Qed.

Lemma settle_item_stable batch r p : preserves I (settle_item E batch r p).
Proof.
  unfold settle_item.
  destruct (find _ batch) as [originalItem|]; [|apply preserves_ret].
  destruct (status p); try destruct (resolved_data p);
    solve [ apply fail_item_stable
          | preserve_step; apply updateSyncStatus_stable ].
Qed.

Lemma run_batch_stable r batch : preserves I (run_batch E r batch).
Proof.
  unfold run_batch. preserve_step.
  - apply processBatch_stable.
  - destruct a; preserve_step.
    + apply fail_item_stable.
    + apply settle_item_stable.
Qed.

Lemma sync_stable : preserves I (sync E).
Proof.
  unfold sync. preserve_step.
  - intros w H. apply (stable_tick I I_stable), H.
  - destruct (negb a); preserve_step.
    + apply new_Date_stable.
    + intros w H. apply (stable_log I I_stable), H.
    + destruct (length a0 =? 0)%nat; preserve_step.
      apply run_batch_stable.
Qed.
End CycleFootprint.

Lemma set_status_content taskId st r :
  row_content (set_status taskId st r) = row_content r.
Proof. unfold set_status. destruct (String.eqb _ _); reflexivity. Qed.

Lemma mark_synced_content taskId st now sid r :
  row_content (mark_synced taskId st now sid r) = row_content r.
Proof. unfold mark_synced. destruct (String.eqb _ _); reflexivity. Qed.

Lemma bump_retry_intent id n message q :
  intent_of (bump_retry id n message q) = intent_of q.
Proof. unfold bump_retry. destruct (String.eqb _ _); reflexivity. Qed.

Lemma content_stable (ts : list TaskRow.t) :
  cycle_stable (fun w => map row_content (tasks w) = map row_content ts).
Proof.
  constructor; intros; simpl; try assumption;
    rewrite map_map; rewrite <- H; apply map_ext; intros r.
  - apply set_status_content.
  - apply mark_synced_content.
Qed.

(** X5: a sync cycle, whatever the server answers, keeps the number and
    order of the task rows and never writes their id, title, description,
    completed flag, [created_at], [updated_at] or [is_deleted]; in particular
    the snapshot that wins a conflict is not written to the row. *)
Theorem sync_keeps_task_content (E : Env) (w : World) :
  map row_content (tasks (snd (sync E w))) = map row_content (tasks w).
Proof.
  apply (sync_stable E _ (content_stable (tasks w))). reflexivity.
Qed.

Lemma intents_stable (q0 : list SyncQueueItem.t) :
  cycle_stable (fun w =>
    (forall q', In q' (sync_queue w) ->
                exists q, In q q0 /\ intent_of q' = intent_of q) /\
    (length (sync_queue w) <= length q0)%nat).
Proof.
  constructor; intros; simpl; try assumption.
  - destruct H as [Hin Hlen]. split.
    + intros q' Hq'. apply filter_In in Hq'. apply Hin, Hq'.
    + pose proof (filter_length_le keep (sync_queue w)). lia.
  - destruct H as [Hin Hlen]. split.
    + intros q' Hq'. apply in_map_iff in Hq'. destruct Hq' as (q1 & <- & Hq1).
      destruct (Hin q1 Hq1) as (q & Hq & Heq).
      exists q. split; [exact Hq|]. rewrite bump_retry_intent. exact Heq.
    + rewrite length_map. exact Hlen.
Qed.

(** X6: a sync cycle never enqueues: every queue row left after the cycle
    is a row that was there before, with the same id, task, operation,
    snapshot and [created_at], and the pending count does not grow. *)
Theorem sync_never_enqueues (E : Env) (w : World) :
  (forall q', In q' (sync_queue (snd (sync E w))) ->
              exists q, In q (sync_queue w) /\ intent_of q' = intent_of q) /\
  fst (getPendingSyncCount (snd (sync E w))) <= fst (getPendingSyncCount w).
Proof.
  destruct (sync_stable E _ (intents_stable (sync_queue w)) w) as [Hin Hlen].
  - split; [|lia]. intros q' Hq'. exists q'. split; [exact Hq' | reflexivity].
  - split; [exact Hin|]. simpl. lia.
Qed.

Lemma sync_never_enqueues_witness :
  exists q, In q (sync_queue sample_world) /\
            intent_of (SyncQueueItem.mk "q1" "a" Operation.update (sample_task "a" 20)
                         20 1 (Some "timeout of 30000ms exceeded"%string))
            = intent_of q.
Proof.
  apply (proj1 (sync_never_enqueues flaky_env sample_world)).
  vm_compute. left. reflexivity.
Defined.

Lemma dead_letters_stable (d0 : list DeadLetter.t) :
  cycle_stable (fun w => exists added, dead_letter_queue w = d0 ++ added).
Proof.
  constructor; intros; simpl; try assumption.
  destruct H as [added H]. exists (added ++ [d]).
  rewrite H, app_assoc. reflexivity.
Qed.

(** X7: the dead-letter table is append-only under a sync cycle: what it
    held before the cycle is a prefix of what it holds after. *)
Theorem sync_appends_dead_letters (E : Env) (w : World) :
  exists added,
    dead_letter_queue (snd (sync E w)) = dead_letter_queue w ++ added.
Proof.
  apply (sync_stable E _ (dead_letters_stable (dead_letter_queue w))).
  exists []. rewrite app_nil_r. reflexivity.
Qed.

(** ** The result of a cycle *)

Lemma bind_run {A B} (m : M A) (k : A -> M B) (w : World) :
  bind m k w = k (fst (m w)) (snd (m w)).
Proof. unfold bind. destruct (m w); reflexivity. Qed.

Lemma fold_each_result {A S} (R : S -> Prop) (body : S -> A -> M S) (xs : list A) :
  (forall s x w, R s -> R (fst (body s x w))) ->
  forall s w, R s -> R (fst (fold_each body xs s w)).
Proof.
  intros Hb. induction xs as [|x xs IH]; intros s w Hs; simpl.
  - exact Hs.
  - rewrite bind_run. apply IH, Hb, Hs.
Qed.

Lemma fail_item_result E item message r w :
  fst (fail_item E item message r w) =
  count_failed r
    (mkSyncError (SyncQueueItem.task_id item)
       (Operation.to_string (SyncQueueItem.operation item)) message
       (clock E (ticks (snd (handleSyncError E item message w))))).
Proof.
  unfold fail_item. rewrite !bind_run. reflexivity.
Qed.

Lemma count_failed_consistent r e :
  result_consistent r -> result_consistent (count_failed r e).
Proof.
  unfold result_consistent. intros [Hf Hs]. simpl.
  rewrite length_app. simpl. split; [lia | exact Hs].
Qed.

Lemma count_synced_consistent r :
  result_consistent r -> result_consistent (count_synced r).
Proof. unfold result_consistent. intros [Hf Hs]. simpl. split; [exact Hf | lia]. Qed.

Lemma settle_item_consistent E batch r p w :
  result_consistent r -> result_consistent (fst (settle_item E batch r p w)).
Proof.
  intros H. unfold settle_item.
  destruct (find _ batch) as [originalItem|]; [|exact H].
  destruct (status p); try destruct (resolved_data p);
    first [ rewrite fail_item_result; apply count_failed_consistent, H
          | rewrite bind_run; apply count_synced_consistent, H ].
Qed.

Lemma run_batch_consistent E r batch w :
  result_consistent r -> result_consistent (fst (run_batch E r batch w)).
Proof.
  intros H. unfold run_batch. rewrite bind_run.
  destruct (fst (processBatch E batch w)) as [message|response].
  - apply fold_each_result; [|exact H].
    intros r0 x w' Hs. rewrite fail_item_result. apply count_failed_consistent, Hs.
  - apply fold_each_result; [|exact H].
    intros r0 x w' Hs. apply settle_item_consistent, Hs.
Qed.

(** X8: in a cycle whose connectivity probe succeeds, [failed_items] is the
    number of error records, [synced_items] is not negative, and [success]
    is true exactly when no error was recorded, that is when no item
    failed. *)
Theorem sync_result_accounting (E : Env) (w : World) :
  health E (ticks w) = true ->
  failed_items (fst (sync E w)) = Z.of_nat (length (errors (fst (sync E w)))) /\
  0 <= synced_items (fst (sync E w)) /\
  (success (fst (sync E w)) = true <-> errors (fst (sync E w)) = []) /\
  (success (fst (sync E w)) = true <-> failed_items (fst (sync E w)) = 0).
Proof.
  intros Hup. unfold sync. rewrite bind_run. unfold checkConnectivity at 1.
  simpl. rewrite Hup. simpl. rewrite bind_run.
  destruct (length (fst (getSyncQueueItems (tick w))) =? 0)%nat.
  - simpl. repeat split; intros; try reflexivity; lia.
  - rewrite bind_run. simpl.
    match goal with
    | |- context [fold_each ?body ?batches ?r ?w1] =>
        assert (Hfinal : result_consistent (fst (fold_each body batches r w1)));
        [| destruct (fst (fold_each body batches r w1)) as [ok n f errs] ]
    end.
    + apply fold_each_result.
      * intros s x w' Hs. apply run_batch_consistent, Hs.
      * split; simpl; lia.
    + destruct Hfinal as [Hf Hs]. simpl in *.
      destruct errs as [|e errs]; simpl in *.
      * repeat split; intros; try reflexivity; lia.
      * repeat split; intros; try discriminate; lia.
Qed.

Lemma sync_result_accounting_witness :
  failed_items (fst (sync flaky_env sample_world)) = 2 /\
  success (fst (sync online_env sample_world)) = true.
Proof.
  split.
  - destruct (sync_result_accounting flaky_env sample_world eq_refl) as (Hf & _).
    rewrite Hf. reflexivity.
  - apply (sync_result_accounting online_env sample_world eq_refl). reflexivity.
Defined.

(** X9: with the server reachable and an empty queue, a cycle reports
    success with nothing synced and nothing failed, reads the queue once and
    writes nothing: no request is sent and the three tables are unchanged. *)
Theorem sync_empty_queue (E : Env) (w : World) :
  health E (ticks w) = true ->
  sync_queue w = [] ->
  fst (sync E w) = mkSyncResult true 0 0 [] /\
  tasks (snd (sync E w)) = tasks w /\
  sync_queue (snd (sync E w)) = [] /\
  dead_letter_queue (snd (sync E w)) = dead_letter_queue w /\
  journal (snd (sync E w)) = journal w ++ [SelectSyncQueue] /\
  ticks (snd (sync E w)) = S (ticks w).
Proof.
  intros Hup Hempty. unfold sync, bind, checkConnectivity, getSyncQueueItems, db_query.
  rewrite Hup. simpl. rewrite Hempty. simpl. repeat split. exact Hempty.
Qed.

Lemma sync_empty_queue_witness :
  fst (sync online_env empty_world) = mkSyncResult true 0 0 [].
Proof.
  apply (sync_empty_queue online_env empty_world); reflexivity.
Defined.

(** ** Shape of the batches *)

Section BatchShape.
Variable E : Env.
Hypothesis cap_positive : 1 <= BATCH_SIZE E.

Lemma batch_step_full st it :
  Forall (fun b => Z.of_nat (length b) = BATCH_SIZE E) (fst st) ->
  Z.of_nat (length (snd st)) <= BATCH_SIZE E ->
  (snd st = [] -> fst st = []) ->
  Forall (fun b => Z.of_nat (length b) = BATCH_SIZE E) (fst (batch_step E st it)) /\
  Z.of_nat (length (snd (batch_step E st it))) <= BATCH_SIZE E /\
  snd (batch_step E st it) <> [].
Proof.
  destruct st as [bs cur]. unfold batch_step. simpl. intros Hbs Hcur Hnil.
  destruct (Z.of_nat (length cur) >=? BATCH_SIZE E) eqn:Hfull; simpl.
  - rewrite Z.geb_leb in Hfull. apply Z.leb_le in Hfull.
    split; [|split; [lia | discriminate]].
    apply Forall_app. split; [exact Hbs|]. constructor; [lia | constructor].
  - rewrite Z.geb_leb in Hfull. apply Z.leb_gt in Hfull.
    split; [exact Hbs|]. rewrite length_app. simpl.
    split; [lia|]. destruct cur; discriminate.
Qed.

Lemma fold_batch_step_full its st :
  Forall (fun b => Z.of_nat (length b) = BATCH_SIZE E) (fst st) ->
  Z.of_nat (length (snd st)) <= BATCH_SIZE E ->
  (snd st = [] -> fst st = []) ->
  let st' := fold_left (batch_step E) its st in
  Forall (fun b => Z.of_nat (length b) = BATCH_SIZE E) (fst st') /\
  Z.of_nat (length (snd st')) <= BATCH_SIZE E /\
  (snd st' = [] -> fst st' = []).
Proof.
  revert st. induction its as [|it its IH]; simpl; intros st Hbs Hcur Hnil.
  - auto.
  - destruct (batch_step_full st it Hbs Hcur Hnil) as (H1 & H2 & H3).
    apply IH; try assumption. intros H. contradiction.
Qed.

Lemma fold_groups_full (gs : Groups) st :
  Forall (fun b => Z.of_nat (length b) = BATCH_SIZE E) (fst st) ->
  Z.of_nat (length (snd st)) <= BATCH_SIZE E ->
  (snd st = [] -> fst st = []) ->
  let st' := fold_left (fun st kg => fold_left (batch_step E) (snd kg) st) gs st in
  Forall (fun b => Z.of_nat (length b) = BATCH_SIZE E) (fst st') /\
  Z.of_nat (length (snd st')) <= BATCH_SIZE E /\
  (snd st' = [] -> fst st' = []).
Proof.
  revert st. induction gs as [|[k g] gs IH]; simpl; intros st Hbs Hcur Hnil.
  - auto.
  - destruct (fold_batch_step_full g st Hbs Hcur Hnil) as (H1 & H2 & H3).
    apply IH; assumption.
Qed.

Lemma createBatches_shape (gs : Groups) :
  createBatches E gs = [] \/
  exists full last,
    createBatches E gs = full ++ [last] /\
    Forall (fun b => Z.of_nat (length b) = BATCH_SIZE E) full /\
    1 <= Z.of_nat (length last) <= BATCH_SIZE E.
Proof.
  unfold createBatches.
  destruct (fold_groups_full gs ([], [])) as (Hbs & Hcur & Hnil);
    [constructor | simpl; lia | reflexivity |].
  destruct (fold_left _ gs ([], [])) as [bs cur]. simpl in *.
  destruct cur as [|c cur]; simpl.
  - left. apply Hnil. reflexivity.
  - right. exists bs, (c :: cur). split; [reflexivity|]. split; [exact Hbs|].
    simpl in *. lia.
Qed.
End BatchShape.

Lemma length_concat_full {A} (n : Z) (ls : list (list A)) :
  Forall (fun b => Z.of_nat (length b) = n) ls ->
  Z.of_nat (length (concat ls)) = n * Z.of_nat (length ls).
Proof.
  induction 1 as [|b ls Hb Hls IH]; simpl; [lia|].
  rewrite length_app. lia.
Qed.

(** X10: with a cap of at least one, [createBatches] returns no batch when
    the groups hold no item; otherwise every batch but the last holds exactly
    [BATCH_SIZE] items and the last holds between one and [BATCH_SIZE], so no
    batch is empty and the items are split into the least possible number of
    batches. *)
Theorem createBatches_full_except_last (E : Env) (itemsByTask : Groups) :
  1 <= BATCH_SIZE E ->
  (concat (map snd itemsByTask) = [] /\ createBatches E itemsByTask = []) \/
  exists full last,
    createBatches E itemsByTask = full ++ [last] /\
    Forall (fun b => Z.of_nat (length b) = BATCH_SIZE E) full /\
    1 <= Z.of_nat (length last) <= BATCH_SIZE E /\
    Z.of_nat (length (concat (map snd itemsByTask))) =
      BATCH_SIZE E * Z.of_nat (length full) + Z.of_nat (length last).
Proof.
  intros Hcap.
  pose proof (createBatches_flat E itemsByTask) as Hflat.
  destruct (createBatches_shape E Hcap itemsByTask) as [Hnil|(full & last & Heq & Hfull & Hlast)].
  - left. rewrite Hnil in Hflat. simpl in Hflat. auto.
  - right. exists full, last. repeat split; try assumption; try lia.
    rewrite <- Hflat, Heq, concat_app, length_app. simpl. rewrite app_nil_r.
    rewrite Nat2Z.inj_add, (length_concat_full (BATCH_SIZE E) full Hfull). lia.
Qed.

Lemma createBatches_full_except_last_witness :
  exists full last,
    createBatches online_env (groupItemsByTaskChronologically intents_of_T)
      = full ++ [last] /\
    length full = 1%nat /\ length last = 1%nat.
Proof.
  destruct (createBatches_full_except_last online_env
              (groupItemsByTaskChronologically intents_of_T))
    as [[Hnil _]|(full & last & Heq & Hfull & Hlast & Hcount)].
  - simpl. lia.
  - discriminate Hnil.
  - exists full, last. split; [exact Heq|].
    assert (Hlen : length (full ++ [last]) = 2%nat) by (rewrite <- Heq; reflexivity).
    rewrite length_app in Hlen. simpl in Hlen.
    change (3 = 2 * Z.of_nat (length full) + Z.of_nat (length last)) in Hcount.
    split; lia.
Defined.

(** ** Grouping as a partition by task *)

Lemma group_push_cases gs it k g :
  NoDup (map fst gs) ->
  In (k, g) (group_push gs it) ->
  (k <> SyncQueueItem.task_id it /\ In (k, g) gs) \/
  (k = SyncQueueItem.task_id it /\ exists g0, In (k, g0) gs /\ g = g0 ++ [it]) \/
  (k = SyncQueueItem.task_id it /\ ~ In k (map fst gs) /\ g = [it]).
Proof.
  induction gs as [|[k0 g0] gs IH]; simpl; intros Hnd Hin.
  - destruct Hin as [Heq|[]]. injection Heq as <- <-.
    right. right. repeat split. intros [].
  - apply NoDup_cons_iff in Hnd. destruct Hnd as [Hk0 Hnd].
    destruct (String.eqb_spec k0 (SyncQueueItem.task_id it)) as [Heq|Hne].
    + destruct Hin as [Hhead|Htail].
      * injection Hhead as <- <-. right. left. split; [exact Heq|].
        exists g0. split; [left; reflexivity | reflexivity].
      * left. split; [|right; exact Htail].
        intros Hk. apply Hk0. rewrite Heq, <- Hk.
        apply in_map_iff. exists (k, g). split; [reflexivity | exact Htail].
    + destruct Hin as [Hhead|Htail].
      * injection Hhead as <- <-. left. split; [exact Hne | left; reflexivity].
      * destruct (IH Hnd Htail) as [[H1 H2]|[[H1 (g1 & H2 & H3)]|[H1 [H2 H3]]]].
        -- left. split; [exact H1 | right; exact H2].
        -- right. left. split; [exact H1|]. exists g1. split; [right; exact H2 | exact H3].
        -- right. right. split; [exact H1|]. split; [|exact H3].
           intros [Hk|Hk]; [apply Hne; rewrite Hk; exact H1 | exact (H2 Hk)].
Qed.

Lemma group_push_keys_inv gs it k :
  In k (map fst gs) \/ k = SyncQueueItem.task_id it ->
  In k (map fst (group_push gs it)).
Proof.
  induction gs as [|[k0 g0] gs IH]; simpl.
  - intros [[] | ->]. left. reflexivity.
  - destruct (String.eqb_spec k0 (SyncQueueItem.task_id it)) as [Heq|Hne]; simpl.
    + intros [[H|H]|H]; [left; exact H | right; exact H | left; rewrite Heq, H; reflexivity].
    + intros [[H|H]|H]; [left; exact H | right; apply IH; left; exact H
                        | right; apply IH; right; exact H].
Qed.

(** The groups built so far hold, per key, the items seen so far. *)
Lemma group_push_partition seen gs it :
  NoDup (map fst gs) ->
  (forall k g, In (k, g) gs ->
     g <> [] /\ g = filter (fun i => String.eqb k (SyncQueueItem.task_id i)) seen) ->
  (forall i, In i seen -> In (SyncQueueItem.task_id i) (map fst gs)) ->
  (forall k g, In (k, g) (group_push gs it) ->
     g <> [] /\
     g = filter (fun i => String.eqb k (SyncQueueItem.task_id i)) (seen ++ [it])) /\
  (forall i, In i (seen ++ [it]) ->
     In (SyncQueueItem.task_id i) (map fst (group_push gs it))).
Proof.
  intros Hnd Hgroups Hcover. split.
  - intros k g Hin. rewrite filter_app_single.
    destruct (group_push_cases gs it k g Hnd Hin)
      as [[H1 H2]|[[H1 (g1 & H2 & H3)]|[H1 [H2 H3]]]].
    + destruct (Hgroups k g H2) as [Hne Heq].
      apply String.eqb_neq in H1. rewrite H1, app_nil_r. auto.
    + destruct (Hgroups k g1 H2) as [Hne Heq].
      replace (String.eqb k (SyncQueueItem.task_id it)) with true
        by (symmetry; apply String.eqb_eq; exact H1).
      subst g. split.
      * destruct g1; discriminate.
      * rewrite <- Heq. reflexivity.
    + replace (String.eqb k (SyncQueueItem.task_id it)) with true
        by (symmetry; apply String.eqb_eq; exact H1).
      subst g. split; [discriminate|].
      replace (filter (fun i => String.eqb k (SyncQueueItem.task_id i)) seen)
        with (@nil SyncQueueItem.t); [reflexivity|].
      symmetry.
      destruct (filter (fun i => String.eqb k (SyncQueueItem.task_id i)) seen)
        as [|i l] eqn:Hf; [reflexivity|].
      exfalso. apply H2.
      assert (Hi : In i (filter (fun i => String.eqb k (SyncQueueItem.task_id i)) seen))
        by (rewrite Hf; left; reflexivity).
      apply filter_In in Hi. destruct Hi as [Hi Hk].
      apply String.eqb_eq in Hk. rewrite Hk. apply Hcover, Hi.
  - intros i Hi. apply group_push_keys_inv.
    apply in_app_iff in Hi. destruct Hi as [Hi|[<-|[]]].
    + left. apply Hcover, Hi.
    + right. reflexivity.
Qed.

Lemma fold_group_push_partition its :
  forall seen gs,
    groups_ok gs ->
    (forall k g, In (k, g) gs ->
       g <> [] /\ g = filter (fun i => String.eqb k (SyncQueueItem.task_id i)) seen) ->
    (forall i, In i seen -> In (SyncQueueItem.task_id i) (map fst gs)) ->
    (forall k g, In (k, g) (fold_left group_push its gs) ->
       g <> [] /\
       g = filter (fun i => String.eqb k (SyncQueueItem.task_id i)) (seen ++ its)) /\
    (forall i, In i (seen ++ its) ->
       In (SyncQueueItem.task_id i) (map fst (fold_left group_push its gs))).
Proof.
  induction its as [|it its IH]; simpl; intros seen gs Hok Hgroups Hcover.
  - rewrite app_nil_r. auto.
  - destruct (group_push_partition seen gs it (proj1 Hok) Hgroups Hcover) as [Hg Hc].
    replace (seen ++ it :: its) with ((seen ++ [it]) ++ its)
      by (rewrite <- app_assoc; reflexivity).
    apply IH; [apply group_push_ok, Hok | exact Hg | exact Hc].
Qed.

(** X11: [groupItemsByTaskChronologically] partitions the items by task: the
    keys are distinct, every item's task is a key, no group is empty, and the
    group of a key is exactly the items of that task, in input order,
    stably sorted by [created_at]. *)
Theorem groupItems_partition (its : list SyncQueueItem.t) :
  NoDup (map fst (groupItemsByTaskChronologically its)) /\
  (forall i, In i its ->
     In (SyncQueueItem.task_id i) (map fst (groupItemsByTaskChronologically its))) /\
  (forall k g, In (k, g) (groupItemsByTaskChronologically its) ->
     g <> [] /\
     g = sort_by by_created_at
           (filter (fun i => String.eqb k (SyncQueueItem.task_id i)) its)).
Proof.
  assert (Hok : groups_ok []) by (split; constructor).
  destruct (fold_group_push_partition its [] [] Hok) as [Hgroups Hcover];
    [intros k g [] | intros i [] |]. simpl in Hgroups, Hcover.
  split; [apply groupItems_ok|]. split.
  - intros i Hi. unfold groupItemsByTaskChronologically.
    rewrite map_map. simpl. apply Hcover, Hi.
  - intros k g Hin. unfold groupItemsByTaskChronologically in Hin.
    apply in_map_iff in Hin. destruct Hin as ([k0 g0] & Heq & Hin0).
    simpl in Heq. injection Heq as <- <-.
    destruct (Hgroups k0 g0 Hin0) as [Hne Hfilter].
    split; [|rewrite <- Hfilter; reflexivity].
    intros Hnil. apply Hne.
    pose proof (Permutation_length (sort_by_perm by_created_at g0)) as Hlen.
    rewrite Hnil in Hlen. destruct g0; [reflexivity | discriminate Hlen].
Qed.

Lemma groupItems_partition_witness :
  intents_of_T <> [] /\
  intents_of_T =
    sort_by by_created_at
      (filter (fun i => String.eqb "T" (SyncQueueItem.task_id i)) intents_of_T).
Proof.
  apply (proj2 (proj2 (groupItems_partition intents_of_T)) "T"%string intents_of_T).
  vm_compute. left. reflexivity.
Defined.

(** ** Transmission of a batch *)

Lemma for_each_run {A} (body : A -> M unit) (x : A) (xs : list A) (w : World) :
  for_each body (x :: xs) w = for_each body xs (snd (body x w)).
Proof. simpl. rewrite bind_run. reflexivity. Qed.

Lemma fold_each_run {A S} (body : S -> A -> M S) (x : A) (xs : list A) (s : S) (w : World) :
  fold_each body (x :: xs) s w = fold_each body xs (fst (body s x w)) (snd (body s x w)).
Proof. simpl. rewrite bind_run. reflexivity. Qed.

Lemma mark_batch_step st x xs r :
  mark_batch st xs (set_status (SyncQueueItem.task_id x) st r) = mark_batch st (x :: xs) r.
Proof.
  unfold mark_batch, in_batch, set_status. simpl.
  destruct (String.eqb_spec (TaskRow.id r) (SyncQueueItem.task_id x)) as [Heq|Hne];
    simpl; rewrite ?String.eqb_refl; [|reflexivity].
  destruct (existsb _ xs); simpl; rewrite ?String.eqb_refl; reflexivity.
Qed.

Lemma mark_all_run st (its : list SyncQueueItem.t) (w : World) :
  snd (for_each (fun item => updateTaskSyncStatus (SyncQueueItem.task_id item) st) its w)
  = mkWorld (map (mark_batch st its) (tasks w)) (sync_queue w) (dead_letter_queue w)
      (journal w ++
         map (fun item => UpdateTaskSyncStatus (SyncQueueItem.task_id item) st) its)
      (ticks w).
Proof.
  revert w. induction its as [|x xs IH]; intros w.
  - simpl. rewrite app_nil_r.
    replace (map (mark_batch st []) (tasks w)) with (tasks w);
      [destruct w; reflexivity|].
    symmetry. rewrite <- (map_id (tasks w)) at 2. apply map_ext. reflexivity.
  - rewrite for_each_run, IH. simpl. rewrite map_map, <- app_assoc. simpl.
    f_equal. apply map_ext. intros r. apply mark_batch_step.
Qed.

Lemma mark_batch_effect st batch r :
  if in_batch batch r
  then TaskRow.sync_status (mark_batch st batch r) = st /\
       row_content (mark_batch st batch r) = row_content r /\
       TaskRow.server_id (mark_batch st batch r) = TaskRow.server_id r /\
       TaskRow.last_synced_at (mark_batch st batch r) = TaskRow.last_synced_at r
  else mark_batch st batch r = r.
Proof.
  unfold mark_batch. destruct (in_batch batch r); [|reflexivity].
  unfold set_status. rewrite String.eqb_refl. simpl. repeat split.
Qed.

Lemma mark_batch_twice st st' batch r :
  mark_batch st' batch (mark_batch st batch r) = mark_batch st' batch r.
Proof.
  unfold mark_batch. destruct (in_batch batch r) eqn:Hin; [|rewrite Hin; reflexivity].
  unfold in_batch, set_status in *. rewrite String.eqb_refl. simpl.
  rewrite Hin, String.eqb_refl. reflexivity.
Qed.

Lemma processBatch_run E batch w :
  let w1 := snd (for_each (fun item =>
                   updateTaskSyncStatus (SyncQueueItem.task_id item)
                     SyncStatus.in_progress) batch w) in
  let answer := post_batch E (S (ticks w))
                  (mkBatchSyncRequest batch (clock E (ticks w))
                     (calculateBatchChecksum E batch)) in
  processBatch E batch w =
  match answer with
  | inr data => (inr data, tick (tick w1))
  | inl message =>
      (inl message,
       snd (for_each (fun item =>
              updateTaskSyncStatus (SyncQueueItem.task_id item) SyncStatus.error)
              batch (tick (tick w1))))
  end.
Proof.
  intros w1 answer. subst w1 answer.
  unfold processBatch. rewrite !bind_run. unfold new_Date at 1 2. simpl.
  rewrite !mark_all_run. simpl.
  destruct (post_batch E (S (ticks w)) _) as [message|data]; [|reflexivity].
  rewrite bind_run. unfold ret. rewrite !mark_all_run. reflexivity.
Qed.

(** X12: [processBatch] sends one request carrying the batch, the current
    instant and the checksum, and returns the server's answer; it leaves the
    queue and the dead-letter table alone; the rows of the tasks of the batch
    are set to in-progress when the server answers and to error when the
    request fails, nothing else of them being written, and the rows of other
    tasks are untouched. *)
Theorem processBatch_marks (E : Env) (batch : list SyncQueueItem.t) (w : World) :
  fst (processBatch E batch w) =
    post_batch E (S (ticks w))
      (mkBatchSyncRequest batch (clock E (ticks w)) (calculateBatchChecksum E batch)) /\
  sync_queue (snd (processBatch E batch w)) = sync_queue w /\
  dead_letter_queue (snd (processBatch E batch w)) = dead_letter_queue w /\
  rows_updated (in_batch batch)
    (fun r r' =>
       TaskRow.sync_status r' =
         match fst (processBatch E batch w) with
         | inr _ => SyncStatus.in_progress
         | inl _ => SyncStatus.error
         end /\
       row_content r' = row_content r /\
       TaskRow.server_id r' = TaskRow.server_id r /\
       TaskRow.last_synced_at r' = TaskRow.last_synced_at r)
    (tasks w) (tasks (snd (processBatch E batch w))).
Proof.
  pose proof (processBatch_run E batch w) as Hrun. simpl in Hrun. rewrite Hrun.
  rewrite !mark_all_run.
  destruct (post_batch E (S (ticks w)) _) as [message|data]; simpl.
  - rewrite ?mark_all_run. simpl. repeat split.
    rewrite map_map. apply rows_updated_map. intros r.
    rewrite mark_batch_twice. apply mark_batch_effect.
  - repeat split. apply rows_updated_map. intros r. apply mark_batch_effect.
Qed.

(** ** A cycle against a server that acknowledges every item *)

Lemma synced_on_weaken (P Q : string -> Prop) (w : World) :
  (forall k, Q k -> P k) -> synced_on P w -> synced_on Q w.
Proof. intros HPQ H row Hin HQ. apply H; auto. Qed.

Lemma acked_outcome_nil r w : acked_outcome [] 0 r w (r, w).
Proof.
  unfold acked_outcome. simpl.
  split; [reflexivity|]. split; [lia|]. split; [reflexivity|].
  split; [reflexivity|]. split; [reflexivity|]. split.
  - intros q. tauto.
  - intros P HP. apply (synced_on_weaken P); [|exact HP]. intros k [Hk|[]]. exact Hk.
Qed.

Lemma acked_outcome_trans ids1 ids2 n1 n2 r w res1 res2 :
  acked_outcome ids1 n1 r w res1 ->
  acked_outcome ids2 n2 (fst res1) (snd res1) res2 ->
  acked_outcome (ids1 ++ ids2) (n1 + n2) r w res2.
Proof.
  unfold acked_outcome.
  intros (A1 & A2 & A3 & A4 & A5 & A6 & A7) (B1 & B2 & B3 & B4 & B5 & B6 & B7).
  split; [congruence|]. split; [rewrite B2, A2, Nat2Z.inj_add; lia|].
  split; [congruence|]. split; [congruence|]. split; [congruence|]. split.
  - intros q. rewrite B6, A6, in_app_iff. tauto.
  - intros P HP. apply (synced_on_weaken (fun k => (P k \/ In k ids1) \/ In k ids2)).
    + intros k [Hk|Hk]; [tauto|]. apply in_app_iff in Hk. tauto.
    + apply B7, A7, HP.
Qed.

Lemma find_by_id (batch : list SyncQueueItem.t) (item : SyncQueueItem.t) :
  NoDup (map SyncQueueItem.id batch) -> In item batch ->
  find (fun x => String.eqb (SyncQueueItem.id x) (SyncQueueItem.id item)) batch
  = Some item.
Proof.
  induction batch as [|x batch IH]; simpl; intros Hnd Hin; [destruct Hin|].
  apply NoDup_cons_iff in Hnd. destruct Hnd as [Hx Hnd].
  destruct Hin as [<-|Hin].
  - rewrite String.eqb_refl. reflexivity.
  - destruct (String.eqb_spec (SyncQueueItem.id x) (SyncQueueItem.id item)) as [Heq|_].
    + exfalso. apply Hx. rewrite Heq. apply in_map, Hin.
    + apply IH; assumption.
Qed.

Lemma updateSyncStatus_synced_outcome E taskId serverData r w :
  acked_outcome [taskId] 1 r w
    (count_synced r, snd (updateSyncStatus E taskId SyncStatus.synced serverData w)).
Proof.
  unfold acked_outcome, updateSyncStatus, bind, new_Date, db_run. simpl.
  split; [reflexivity|]. split; [reflexivity|]. split; [reflexivity|].
  split; [reflexivity|]. split; [reflexivity|]. split.
  - intros q. rewrite filter_In, negb_true_iff, String.eqb_neq.
    split; intros [Hq Hne]; (split; [exact Hq|]).
    + intros [Heq|[]]. congruence.
    + intros Heq. apply Hne. left. congruence.
  - intros P HP row' Hrow' Hk.
    apply in_map_iff in Hrow'. destruct Hrow' as (row & <- & Hrow).
    unfold mark_synced in *.
    destruct (String.eqb_spec (TaskRow.id row) taskId) as [Heq|Hne]; simpl in *.
    + split; [reflexivity | discriminate].
    + destruct Hk as [Hk|[Heq|[]]]; [|congruence]. apply (HP row Hrow Hk).
Qed.

Lemma settle_acknowledged E batch r p item w :
  NoDup (map SyncQueueItem.id batch) -> In item batch -> acknowledged item p ->
  acked_outcome [SyncQueueItem.task_id item] 1 r w (settle_item E batch r p w).
Proof.
  intros Hnd Hin [Hid Hst].
  rewrite (settle_item_success E batch r p item); [| rewrite Hid; apply find_by_id; assumption | exact Hst].
  rewrite bind_run. apply updateSyncStatus_synced_outcome.
Qed.

Lemma settle_all_acknowledged E batch (its : list SyncQueueItem.t) (ps : list ProcessedItem) :
  NoDup (map SyncQueueItem.id batch) ->
  Forall2 acknowledged its ps ->
  (forall item, In item its -> In item batch) ->
  forall r w,
    acked_outcome (map SyncQueueItem.task_id its) (length its) r w
      (fold_each (settle_item E batch) ps r w).
Proof.
  intros Hnd Hack. induction Hack as [|item p its ps Hp Hrest IH]; intros Hsub r w.
  - apply acked_outcome_nil.
  - rewrite fold_each_run.
    apply (acked_outcome_trans [SyncQueueItem.task_id item]
             (map SyncQueueItem.task_id its) 1 (length its) r w
             (settle_item E batch r p w)).
    + apply settle_acknowledged; [exact Hnd | apply Hsub; left; reflexivity | exact Hp].
    + apply IH. intros x Hx. apply Hsub. right. exact Hx.
Qed.

Lemma in_batch_In batch r :
  in_batch batch r = true <-> In (TaskRow.id r) (map SyncQueueItem.task_id batch).
Proof.
  unfold in_batch. rewrite existsb_exists, in_map_iff. split.
  - intros (item & Hin & Heq). apply String.eqb_eq in Heq. exists item. auto.
  - intros (item & Heq & Hin). exists item. split; [exact Hin|].
    apply String.eqb_eq. auto.
Qed.

Lemma mark_batch_id st batch r : TaskRow.id (mark_batch st batch r) = TaskRow.id r.
Proof.
  unfold mark_batch, set_status. destruct (in_batch batch r); [|reflexivity].
  rewrite String.eqb_refl. reflexivity.
Qed.

Lemma run_batch_acknowledged E batch r w response :
  NoDup (map SyncQueueItem.id batch) ->
  post_batch E (S (ticks w))
    (mkBatchSyncRequest batch (clock E (ticks w)) (calculateBatchChecksum E batch))
    = inr response ->
  Forall2 acknowledged batch (processed_items response) ->
  acked_outcome (map SyncQueueItem.task_id batch) (length batch) r w
    (run_batch E r batch w).
Proof.
  intros Hnd Hpost Hack. unfold run_batch. rewrite bind_run.
  pose proof (processBatch_run E batch w) as Hrun. simpl in Hrun.
  rewrite Hpost in Hrun. rewrite Hrun. simpl. clear Hrun.
  rewrite mark_all_run.
  match goal with
  | |- acked_outcome _ _ _ _ (fold_each _ _ _ ?w1) =>
      pose proof (settle_all_acknowledged E batch batch (processed_items response)
                    Hnd Hack (fun item H => H) r w1) as Hout
  end.
  destruct Hout as (A1 & A2 & A3 & A4 & A5 & A6 & A7). simpl in A5, A6.
  unfold acked_outcome.
  split; [exact A1|]. split; [exact A2|]. split; [exact A3|]. split; [exact A4|].
  split; [exact A5|]. split; [exact A6|].
  intros P HP.
  apply (synced_on_weaken
           (fun k => (P k /\ ~ In k (map SyncQueueItem.task_id batch)) \/
                     In k (map SyncQueueItem.task_id batch))).
  - intros k [Hk|Hk]; [|right; exact Hk].
    destruct (in_dec string_dec k (map SyncQueueItem.task_id batch)) as [Hin|Hout];
      [right; exact Hin | left; split; assumption].
  - apply A7. intros row' Hrow' [Hk Hout]. simpl in Hrow'.
    apply in_map_iff in Hrow'. destruct Hrow' as (row & <- & Hrow).
    rewrite mark_batch_id in Hk, Hout.
    unfold mark_batch. destruct (in_batch batch row) eqn:Hb.
    + exfalso. apply Hout, in_batch_In, Hb.
    + apply (HP row Hrow Hk).
Qed.

Section AcknowledgingServer.
Variable E : Env.
Hypothesis server_acknowledges :
  forall n request, exists response,
    post_batch E n request = inr response /\
    Forall2 acknowledged (items request) (processed_items response).

Lemma run_all_acknowledged (batches : list (list SyncQueueItem.t)) :
  Forall (fun b => NoDup (map SyncQueueItem.id b)) batches ->
  forall r w,
    acked_outcome (map SyncQueueItem.task_id (concat batches))
      (length (concat batches)) r w (fold_each (run_batch E) batches r w).
Proof.
  induction 1 as [|batch batches Hnd Hrest IH]; intros r w.
  - apply acked_outcome_nil.
  - rewrite fold_each_run. simpl. rewrite map_app, length_app.
    apply (acked_outcome_trans _ _ _ _ r w (run_batch E r batch w)); [|apply IH].
    destruct (server_acknowledges (S (ticks w))
                (mkBatchSyncRequest batch (clock E (ticks w))
                   (calculateBatchChecksum E batch)))
      as (response & Hpost & Hack).
    apply (run_batch_acknowledged E batch r w response Hnd Hpost Hack).
Qed.
End AcknowledgingServer.

Lemma NoDup_concat_elem {A B} (f : A -> B) (ls : list (list A)) (l : list A) :
  NoDup (map f (concat ls)) -> In l ls -> NoDup (map f l).
Proof.
  induction ls as [|l0 ls IH]; simpl; intros Hnd Hin; [destruct Hin|].
  rewrite map_app in Hnd. destruct Hin as [<-|Hin].
  - apply (NoDup_app_remove_r _ _ Hnd).
  - apply IH; [apply (NoDup_app_remove_l _ _ Hnd) | exact Hin].
Qed.

Lemma drained_batches_perm E (w : World) :
  Permutation
    (concat (createBatches E
               (groupItemsByTaskChronologically (sort_by queue_order (sync_queue w)))))
    (sync_queue w).
Proof.
  rewrite createBatches_flat.
  apply perm_trans with (sort_by queue_order (sync_queue w)).
  - apply groupItems_perm.
  - apply sort_by_perm.
Qed.

Lemma mock_batch_acknowledges (request : BatchSyncRequest) :
  Forall2 acknowledged (items request) (processed_items (mock_batch request)).
Proof.
  unfold mock_batch. simpl. induction (items request) as [|item its IH]; simpl.
  - constructor.
  - constructor; [split; reflexivity | exact IH].
Defined.

(** X13: against a reachable server that answers every batch and
    acknowledges each of its items as success (as the mock batch endpoint
    does), and with queue ids unique, one cycle drains the queue: it reports
    success with as many synced items as the queue held and no failure,
    leaves the queue empty and the dead-letter table unchanged, and every
    task that had a queue item ends synced with [last_synced_at] set. *)
Theorem sync_all_acknowledged (E : Env) (w : World) :
  health E (ticks w) = true ->
  (forall n request, exists response,
     post_batch E n request = inr response /\
     Forall2 acknowledged (items request) (processed_items response)) ->
  NoDup (map SyncQueueItem.id (sync_queue w)) ->
  fst (sync E w) = mkSyncResult true (Z.of_nat (length (sync_queue w))) 0 [] /\
  sync_queue (snd (sync E w)) = [] /\
  dead_letter_queue (snd (sync E w)) = dead_letter_queue w /\
  (forall row q,
     In row (tasks (snd (sync E w))) -> In q (sync_queue w) ->
     SyncQueueItem.task_id q = TaskRow.id row ->
     TaskRow.sync_status row = SyncStatus.synced /\
     TaskRow.last_synced_at row <> None).
Proof.
  intros Hup Hserver Hnd.
  pose proof (drained_batches_perm E w) as Hperm.
  unfold sync. rewrite bind_run. unfold checkConnectivity at 1. simpl.
  rewrite Hup. simpl. rewrite bind_run. unfold getSyncQueueItems, db_query. simpl.
  destruct (length (sort_by queue_order (sync_queue w)) =? 0)%nat eqn:Hlen.
  - apply Nat.eqb_eq in Hlen.
    rewrite (Permutation_length (sort_by_perm queue_order (sync_queue w))) in Hlen.
    destruct (sync_queue w) as [|q0 l] eqn:Hq; [|discriminate Hlen].
    simpl. rewrite Hq. repeat split; try reflexivity; destruct H0.
  - clear Hlen. rewrite bind_run. simpl.
    set (batches := createBatches E
           (groupItemsByTaskChronologically (sort_by queue_order (sync_queue w)))) in *.
    assert (Hbatches : Forall (fun b => NoDup (map SyncQueueItem.id b)) batches).
    { apply Forall_forall. intros b Hb.
      apply (NoDup_concat_elem SyncQueueItem.id batches b); [|exact Hb].
      apply (Permutation_NoDup (Permutation_map _ (Permutation_sym Hperm)) Hnd). }
    pose proof (run_all_acknowledged E Hserver batches Hbatches
                  (mkSyncResult true 0 0 [])
                  (log SelectSyncQueue (tick w))) as Hout.
    destruct Hout as (A1 & A2 & A3 & A4 & A5 & A6 & A7).
    simpl in A1, A2, A3, A4, A5, A6.
    split; [|split; [|split]].
    + rewrite A2, A3, A4. simpl.
      rewrite (Permutation_length Hperm). reflexivity.
    + match goal with |- ?l = [] => destruct l as [|q l'] eqn:Hq end; [reflexivity|].
      exfalso.
      destruct (proj1 (A6 q) (or_introl eq_refl)) as [Hin Hout]. apply Hout.
      apply in_map. apply (Permutation_in _ (Permutation_sym Hperm)), Hin.
    + exact A5.
    + intros row q Hrow Hq Hid.
      apply (A7 (fun _ => False)); [intros r0 _ [] | exact Hrow |].
      right. rewrite <- Hid. apply in_map.
      apply (Permutation_in _ (Permutation_sym Hperm)), Hq.
Qed.

Lemma sync_all_acknowledged_witness :
  sync_queue (snd (sync online_env sample_world)) = [] /\
  synced_items (fst (sync online_env sample_world)) = 2.
Proof.
  destruct (sync_all_acknowledged online_env sample_world) as (Hres & Hqueue & _).
  - reflexivity.
  - intros n request. exists (mock_batch request).
    split; [reflexivity | apply mock_batch_acknowledges].
  - simpl. repeat constructor; simpl; intuition discriminate.
  - split; [exact Hqueue | rewrite Hres; reflexivity].
Defined.

(** ** A cycle whose batch requests fail *)

Lemma handled_start (w : World) :
  NoDup (map SyncQueueItem.id (sync_queue w)) ->
  handled (sync_queue w) (dead_letter_queue w) [] w.
Proof.
  intros Hnd. constructor; simpl; intros; try tauto; try contradiction.
Qed.

Lemma handled_ext Q0 D0 done done' w w' :
  (forall q, In q done <-> In q done') ->
  sync_queue w' = sync_queue w ->
  dead_letter_queue w' = dead_letter_queue w ->
  handled Q0 D0 done w -> handled Q0 D0 done' w'.
Proof.
  intros Hsame Hq Hd [H1 H2 H3 H4 H5 H6 H7].
  assert (Hids : forall k, In k (map SyncQueueItem.id done) <->
                           In k (map SyncQueueItem.id done')).
  { intros k. rewrite !in_map_iff. split; intros (q & Heq & Hin);
      exists q; (split; [exact Heq | apply Hsame, Hin]). }
  constructor; rewrite ?Hq, ?Hd.
  - intros q' Hin Hn. apply H1; [exact Hin|]. rewrite Hids. exact Hn.
  - intros q' Hin Hi. apply Hids in Hi. destruct (H2 q' Hin Hi) as (q & Hq' & Hrest).
    exists q. split; [apply Hsame, Hq' | exact Hrest].
  - intros q Hin Hn. apply H3; [exact Hin|]. rewrite Hids. exact Hn.
  - intros q Hin Hlt. apply H4; [apply Hsame, Hin | exact Hlt].
  - intros q Hin Hge. apply H5; [apply Hsame, Hin | exact Hge].
  - intros d Hin. destruct (H6 d Hin) as [Hd0|(q & Hq' & Hrest)]; [left; exact Hd0|].
    right. exists q. split; [apply Hsame, Hq' | exact Hrest].
  - exact H7.
Qed.

Lemma bump_retry_id id n message q :
  SyncQueueItem.id (bump_retry id n message q) = SyncQueueItem.id q.
Proof. unfold bump_retry. destruct (String.eqb _ _); reflexivity. Qed.

Lemma bump_retry_other id n message q :
  SyncQueueItem.id q <> id -> bump_retry id n message q = q.
Proof.
  intros H. unfold bump_retry. apply String.eqb_neq in H. rewrite H. reflexivity.
Qed.

Lemma bump_retry_self message q :
  bumped q (bump_retry (SyncQueueItem.id q) (SyncQueueItem.retry_count q + 1) message q).
Proof.
  unfold bumped, bump_retry. rewrite String.eqb_refl. simpl.
  repeat split. discriminate.
Qed.

Lemma queue_ids_filter (keep : SyncQueueItem.t -> bool) (rows : list SyncQueueItem.t) :
  NoDup (map SyncQueueItem.id rows) ->
  NoDup (map SyncQueueItem.id (filter keep rows)).
Proof.
  intros Hnd. induction rows as [|x rows IH]; simpl in *; [constructor|].
  apply NoDup_cons_iff in Hnd. destruct Hnd as [Hx Hnd].
  specialize (IH Hnd).
  destruct (keep x); simpl; [|exact IH].
  constructor; [|exact IH].
  intros Hin. apply Hx. apply in_map_iff in Hin. destruct Hin as (y & Heq & Hy).
  apply in_map_iff. exists y. split; [exact Heq|]. apply filter_In in Hy. apply Hy.
Qed.

Lemma bumped_id q q' : bumped q q' -> SyncQueueItem.id q' = SyncQueueItem.id q.
Proof. intros [H _]. unfold intent_of in H. congruence. Qed.

Lemma handleSyncError_queues E x message w :
  (SyncQueueItem.retry_count x + 1 < MAX_RETRIES ->
   sync_queue (snd (handleSyncError E x message w)) =
     map (bump_retry (SyncQueueItem.id x) (SyncQueueItem.retry_count x + 1) message)
         (sync_queue w) /\
   dead_letter_queue (snd (handleSyncError E x message w)) = dead_letter_queue w) /\
  (SyncQueueItem.retry_count x + 1 >= MAX_RETRIES ->
   sync_queue (snd (handleSyncError E x message w)) =
     filter (fun r => negb (String.eqb (SyncQueueItem.id r) (SyncQueueItem.id x)))
            (sync_queue w) /\
   exists d, dead_letter_queue (snd (handleSyncError E x message w))
               = dead_letter_queue w ++ [d] /\ dead_of x d).
Proof.
  split.
  - intros Hlt. rewrite (handleSyncError_retry E x message w Hlt). simpl. auto.
  - intros Hge. rewrite (handleSyncError_exhausted E x message w Hge). simpl.
    split; [reflexivity|]. eexists. split; [reflexivity|].
    unfold dead_of, intent_of. simpl. auto.
Qed.

Lemma handleSyncError_handled E Q0 D0 done x message w :
  NoDup (map SyncQueueItem.id Q0) -> In x Q0 ->
  ~ In (SyncQueueItem.id x) (map SyncQueueItem.id done) ->
  handled Q0 D0 done w ->
  handled Q0 D0 (x :: done) (snd (handleSyncError E x message w)).
Proof.
  intros HndQ0 Hx Hfresh [H1 H2 H3 H4 H5 H6 H7].
  pose proof (H3 x Hx Hfresh) as HxQ.
  destruct (handleSyncError_queues E x message w) as [Hretry Hmove].
  destruct (Z.lt_ge_cases (SyncQueueItem.retry_count x + 1) MAX_RETRIES) as [Hlt|Hge].
  - destruct (Hretry Hlt) as [Hq Hd]. clear Hretry Hmove.
    constructor; rewrite ?Hq, ?Hd; simpl.
    + intros q'' Hin Hn. apply in_map_iff in Hin. destruct Hin as (q' & <- & Hq').
      rewrite bump_retry_id in Hn. simpl in Hn.
      rewrite bump_retry_other by (intros Heq; apply Hn; left; congruence).
      apply H1; [exact Hq' | tauto].
    + intros q'' Hin Hi. apply in_map_iff in Hin. destruct Hin as (q' & <- & Hq').
      rewrite bump_retry_id in Hi. simpl in Hi.
      destruct (string_dec (SyncQueueItem.id q') (SyncQueueItem.id x)) as [Heq|Hne].
      * assert (Hq0 : In q' Q0) by (apply H1; [exact Hq' | rewrite Heq; exact Hfresh]).
        pose proof (NoDup_map_eq SyncQueueItem.id Q0 q' x HndQ0 Hq0 Hx Heq) as ->.
        exists x. split; [left; reflexivity|]. split; [exact Hlt|].
        apply bump_retry_self.
      * rewrite bump_retry_other by exact Hne.
        destruct Hi as [Hi|Hi]; [congruence|].
        destruct (H2 q' Hq' Hi) as (q & Hqd & Hrest).
        exists q. split; [right; exact Hqd | exact Hrest].
    + intros q Hin Hn. simpl in Hn. apply in_map_iff. exists q.
      split; [apply bump_retry_other; intros Heq; apply Hn; left; congruence
             | apply H3; tauto].
    + intros q [<-|Hin] Hq'.
      * exists (bump_retry (SyncQueueItem.id x) (SyncQueueItem.retry_count x + 1) message x).
        split; [apply in_map, HxQ | apply bump_retry_self].
      * destruct (H4 q Hin Hq') as (q' & Hq'in & Hb).
        exists q'. split; [|exact Hb]. apply in_map_iff. exists q'.
        split; [|exact Hq'in]. apply bump_retry_other.
        rewrite (bumped_id q q' Hb). intros Heq. apply Hfresh. rewrite <- Heq.
        apply in_map, Hin.
    + intros q [<-|Hin] Hq'; [lia | apply H5; assumption].
    + intros d Hin. destruct (H6 d Hin) as [Hd0|(q & Hqd & Hrest)]; [left; exact Hd0|].
      right. exists q. split; [right; exact Hqd | exact Hrest].
    + rewrite map_map.
      replace (map (fun q => SyncQueueItem.id (bump_retry _ _ _ q)) (sync_queue w))
        with (map SyncQueueItem.id (sync_queue w)); [exact H7|].
      apply map_ext. intros q. rewrite bump_retry_id. reflexivity.
  - apply Z.le_ge in Hge.
    destruct (Hmove Hge) as [Hq (d & Hd & Hdead)]. clear Hretry Hmove.
    constructor; rewrite ?Hq, ?Hd; simpl.
    + intros q' Hin Hn. simpl in Hn. apply filter_In in Hin. apply H1; tauto.
    + intros q' Hin Hi. apply filter_In in Hin. destruct Hin as [Hin Hne].
      apply negb_true_iff, String.eqb_neq in Hne. simpl in Hi.
      destruct Hi as [Hi|Hi]; [congruence|].
      destruct (H2 q' Hin Hi) as (q & Hqd & Hrest).
      exists q. split; [right; exact Hqd | exact Hrest].
    + intros q Hin Hn. simpl in Hn. apply filter_In. split; [apply H3; tauto|].
      apply negb_true_iff, String.eqb_neq. intros Heq. apply Hn. left. congruence.
    + intros q [<-|Hin] Hq'; [lia|].
      destruct (H4 q Hin Hq') as (q' & Hq'in & Hb).
      exists q'. split; [|exact Hb]. apply filter_In. split; [exact Hq'in|].
      apply negb_true_iff, String.eqb_neq.
      rewrite (bumped_id q q' Hb). intros Heq. apply Hfresh. rewrite <- Heq.
      apply in_map, Hin.
    + intros q [<-|Hin] Hq'.
      * exists d. split; [apply in_app_iff; right; left; reflexivity | exact Hdead].
      * destruct (H5 q Hin Hq') as (d' & Hd' & Hdead').
        exists d'. split; [apply in_app_iff; left; exact Hd' | exact Hdead'].
    + intros d' Hin. apply in_app_iff in Hin. destruct Hin as [Hin|[<-|[]]].
      * destruct (H6 d' Hin) as [Hd0|(q & Hqd & Hrest)]; [left; exact Hd0|].
        right. exists q. split; [right; exact Hqd | exact Hrest].
      * right. exists x. split; [left; reflexivity|]. split; [exact Hge | exact Hdead].
    + apply queue_ids_filter, H7.
Qed.

Lemma fail_item_world E item message r w :
  snd (fail_item E item message r w) = tick (snd (handleSyncError E item message w)).
Proof. unfold fail_item. rewrite !bind_run. reflexivity. Qed.

Lemma fail_all_handled E Q0 D0 message :
  NoDup (map SyncQueueItem.id Q0) ->
  forall its done r w,
    (forall x, In x its -> In x Q0) ->
    NoDup (map SyncQueueItem.id its) ->
    (forall x, In x its -> ~ In (SyncQueueItem.id x) (map SyncQueueItem.id done)) ->
    handled Q0 D0 done w ->
    handled Q0 D0 (its ++ done)
      (snd (fold_each (fun r' item => fail_item E item message r') its r w)).
Proof.
  intros HndQ0. induction its as [|x its IH]; intros done r w Hsub Hnd Hfresh H.
  - exact H.
  - rewrite fold_each_run. simpl in Hnd. apply NoDup_cons_iff in Hnd.
    destruct Hnd as [Hx Hnd].
    eapply (handled_ext Q0 D0 (its ++ x :: done) ((x :: its) ++ done)).
    + intros q. simpl. rewrite !in_app_iff. simpl. tauto.
    + reflexivity.
    + reflexivity.
    + apply IH.
      * intros y Hy. apply Hsub. right. exact Hy.
      * exact Hnd.
      * intros y Hy [Heq|Hin].
        -- apply Hx. rewrite Heq. apply in_map, Hy.
        -- apply (Hfresh y); [right; exact Hy | exact Hin].
      * rewrite fail_item_world.
        apply (handled_ext Q0 D0 (x :: done) (x :: done)
                 (snd (handleSyncError E x message w))); try reflexivity.
        apply handleSyncError_handled; try assumption.
        -- apply Hsub. left. reflexivity.
        -- apply Hfresh. left. reflexivity.
Qed.

Lemma failed_outcome_nil message r : failed_outcome [] message r r.
Proof.
  unfold failed_outcome. simpl. repeat split; try lia.
  exists []. rewrite app_nil_r. repeat split; constructor.
Qed.

Lemma failed_outcome_trans its1 its2 message r r1 r2 :
  failed_outcome its1 message r r1 -> failed_outcome its2 message r1 r2 ->
  failed_outcome (its1 ++ its2) message r r2.
Proof.
  unfold failed_outcome.
  intros (A1 & A2 & A3 & e1 & A4 & A5 & A6 & A7) (B1 & B2 & B3 & e2 & B4 & B5 & B6 & B7).
  split; [congruence|]. split; [congruence|].
  split; [rewrite B3, A3, length_app, Nat2Z.inj_add; lia|].
  exists (e1 ++ e2). rewrite B4, A4, <- app_assoc, !map_app, A5, A6, B5, B6.
  repeat split. apply Forall_app. auto.
Qed.

Lemma fail_all_outcome E message its :
  forall r w,
    failed_outcome its message r
      (fst (fold_each (fun r' item => fail_item E item message r') its r w)).
Proof.
  induction its as [|x its IH]; intros r w.
  - apply failed_outcome_nil.
  - rewrite fold_each_run.
    apply (failed_outcome_trans [x] its message r (fst (fail_item E x message r w)));
      [|apply IH].
    rewrite fail_item_result. unfold failed_outcome, count_failed. simpl.
    repeat split. eexists. split; [reflexivity|]. simpl. repeat split.
    constructor; [reflexivity | constructor].
Qed.

Lemma NoDup_app_disjoint {A} (l1 l2 : list A) (a : A) :
  NoDup (l1 ++ l2) -> In a l1 -> In a l2 -> False.
Proof.
  induction l1 as [|x l1 IH]; simpl; intros Hnd H1 H2; [destruct H1|].
  apply NoDup_cons_iff in Hnd. destruct Hnd as [Hx Hnd].
  destruct H1 as [<-|H1].
  - apply Hx, in_app_iff. right. exact H2.
  - apply IH; assumption.
Qed.

Lemma processBatch_frame E batch w :
  fst (processBatch E batch w) =
    post_batch E (S (ticks w))
      (mkBatchSyncRequest batch (clock E (ticks w)) (calculateBatchChecksum E batch)) /\
  sync_queue (snd (processBatch E batch w)) = sync_queue w /\
  dead_letter_queue (snd (processBatch E batch w)) = dead_letter_queue w.
Proof.
  pose proof (processBatch_run E batch w) as Hrun. simpl in Hrun. rewrite Hrun.
  rewrite !mark_all_run.
  destruct (post_batch E (S (ticks w)) _) as [msg|data]; simpl.
  - rewrite ?mark_all_run. simpl. repeat split.
  - repeat split.
Qed.

Section FailingTransport.
Variable E : Env.
Variable message : string.
Hypothesis transport_fails : forall n request, post_batch E n request = inl message.

Lemma run_batch_failing_run r batch w :
  run_batch E r batch w =
  fold_each (fun r' item => fail_item E item message r') batch r
    (snd (processBatch E batch w)).
Proof.
  unfold run_batch. rewrite bind_run.
  rewrite (proj1 (processBatch_frame E batch w)), transport_fails. reflexivity.
Qed.

Lemma run_all_failing Q0 D0 (batches : list (list SyncQueueItem.t)) :
  NoDup (map SyncQueueItem.id Q0) ->
  forall done r w,
    (forall x, In x (concat batches) -> In x Q0) ->
    NoDup (map SyncQueueItem.id (concat batches)) ->
    (forall x, In x (concat batches) ->
               ~ In (SyncQueueItem.id x) (map SyncQueueItem.id done)) ->
    handled Q0 D0 done w ->
    handled Q0 D0 (concat batches ++ done)
      (snd (fold_each (run_batch E) batches r w)) /\
    failed_outcome (concat batches) message r
      (fst (fold_each (run_batch E) batches r w)).
Proof.
  intros HndQ0. induction batches as [|batch batches IH];
    intros done r w Hsub Hnd Hfresh H.
  - split; [exact H | apply failed_outcome_nil].
  - rewrite fold_each_run. simpl in *. rewrite map_app in Hnd.
    assert (Hstep : handled Q0 D0 (batch ++ done) (snd (run_batch E r batch w))).
    { rewrite run_batch_failing_run. apply fail_all_handled; try assumption.
      - intros x Hx. apply Hsub, in_app_iff. left. exact Hx.
      - apply (NoDup_app_remove_r _ _ Hnd).
      - intros x Hx. apply Hfresh, in_app_iff. left. exact Hx.
      - destruct (processBatch_frame E batch w) as (_ & Hq & Hd).
        apply (handled_ext Q0 D0 done done w); try assumption. tauto. }
    destruct (IH (batch ++ done) (fst (run_batch E r batch w))
                (snd (run_batch E r batch w))) as [Hh Hr].
    + intros x Hx. apply Hsub, in_app_iff. right. exact Hx.
    + apply (NoDup_app_remove_l _ _ Hnd).
    + intros x Hx Hin. rewrite map_app in Hin. apply in_app_iff in Hin.
      destruct Hin as [Hin|Hin].
      * apply (NoDup_app_disjoint _ _ (SyncQueueItem.id x) Hnd Hin).
        apply in_map, Hx.
      * apply (Hfresh x); [apply in_app_iff; right; exact Hx | exact Hin].
    + exact Hstep.
    + split.
      * eapply handled_ext; [| reflexivity | reflexivity | exact Hh].
        intros q. rewrite !in_app_iff. tauto.
      * apply (failed_outcome_trans batch (concat batches) message r
                 (fst (run_batch E r batch w))); [|exact Hr].
        rewrite run_batch_failing_run. apply fail_all_outcome.
Qed.
End FailingTransport.

Lemma failing_cycle_core (E : Env) (message : string) (w : World) :
  health E (ticks w) = true ->
  (forall n request, post_batch E n request = inl message) ->
  NoDup (map SyncQueueItem.id (sync_queue w)) ->
  exists done,
    (forall x, In x done <-> In x (sync_queue w)) /\
    handled (sync_queue w) (dead_letter_queue w) done (snd (sync E w)) /\
    synced_items (fst (sync E w)) = 0 /\
    failed_items (fst (sync E w)) = Z.of_nat (length (sync_queue w)) /\
    (success (fst (sync E w)) = true <-> sync_queue w = []) /\
    Forall (fun e => se_error e = message) (errors (fst (sync E w))).
Proof.
  intros Hup Hfails Hnd.
  pose proof (drained_batches_perm E w) as Hperm.
  unfold sync. rewrite bind_run. unfold checkConnectivity at 1. simpl.
  rewrite Hup. simpl. rewrite bind_run. unfold getSyncQueueItems, db_query. simpl.
  destruct (length (sort_by queue_order (sync_queue w)) =? 0)%nat eqn:Hlen.
  - apply Nat.eqb_eq in Hlen.
    rewrite (Permutation_length (sort_by_perm queue_order (sync_queue w))) in Hlen.
    exists []. simpl.
    split; [|split; [apply (handled_start (log SelectSyncQueue (tick w))), Hnd|]].
    + intros x. destruct (sync_queue w); [tauto | discriminate Hlen].
    + destruct (sync_queue w); [|discriminate Hlen].
      repeat split; intros; try reflexivity; constructor.
  - assert (Hnonempty : sync_queue w <> []).
    { intros Hq. rewrite Hq in Hlen. discriminate Hlen. }
    clear Hlen. rewrite bind_run. simpl.
    set (batches := createBatches E
           (groupItemsByTaskChronologically (sort_by queue_order (sync_queue w)))) in *.
    assert (Hin : forall x, In x (concat batches) <-> In x (sync_queue w)).
    { intros x. split; apply Permutation_in; [exact Hperm | apply Permutation_sym, Hperm]. }
    destruct (run_all_failing E message Hfails (sync_queue w) (dead_letter_queue w)
                batches Hnd [] (mkSyncResult true 0 0 [])
                (log SelectSyncQueue (tick w)))
      as [Hhandled (R1 & R2 & R3 & errs & R4 & R5 & R6 & R7)].
    + intros x Hx. apply Hin, Hx.
    + apply (Permutation_NoDup (Permutation_map _ (Permutation_sym Hperm)) Hnd).
    + intros x _ [].
    + apply (handled_start (log SelectSyncQueue (tick w))). exact Hnd.
    + rewrite app_nil_r in *. simpl in R2, R3, R4.
      exists (concat batches). split; [exact Hin|]. split; [exact Hhandled|].
      split; [exact R2|]. split; [rewrite R3, (Permutation_length Hperm); reflexivity|].
      split; [|rewrite R4; exact R7].
      rewrite R4. split; [|intros Hq; contradiction].
      destruct errs as [|e errs]; [|intros Hd; discriminate Hd].
      intros _. exfalso. simpl in R5.
      destruct (sync_queue w) as [|q l] eqn:Hq; [contradiction|].
      assert (Hq' : In q (concat batches)) by (apply Hin; left; reflexivity).
      apply (in_map SyncQueueItem.task_id) in Hq'. rewrite <- R5 in Hq'.
      destruct Hq'.
Qed.

(** X14: when the probe succeeds but every batch request fails with the
    same message, and queue ids are unique, one cycle runs the failure
    handler exactly once on every queue item: nothing is synced, every item
    counts as failed with that message, each item with a retry left stays in
    the queue with its retry count raised by one and an error message,
    each item without one is moved to the dead-letter table with its id,
    task, operation, creation instant and retry count (the [data] column of
    the record holds [object_text], not the snapshot), and the queue and the
    dead-letter table hold nothing else new. *)
Theorem sync_all_failing (E : Env) (message : string) (w : World) :
  health E (ticks w) = true ->
  (forall n request, post_batch E n request = inl message) ->
  NoDup (map SyncQueueItem.id (sync_queue w)) ->
  synced_items (fst (sync E w)) = 0 /\
  failed_items (fst (sync E w)) = Z.of_nat (length (sync_queue w)) /\
  (success (fst (sync E w)) = true <-> sync_queue w = []) /\
  Forall (fun e => se_error e = message) (errors (fst (sync E w))) /\
  NoDup (map SyncQueueItem.id (sync_queue (snd (sync E w)))) /\
  (forall q', In q' (sync_queue (snd (sync E w))) ->
     exists q, In q (sync_queue w) /\
               SyncQueueItem.retry_count q + 1 < MAX_RETRIES /\ bumped q q') /\
  (forall q, In q (sync_queue w) -> SyncQueueItem.retry_count q + 1 < MAX_RETRIES ->
     exists q', In q' (sync_queue (snd (sync E w))) /\ bumped q q') /\
  (forall q, In q (sync_queue w) -> SyncQueueItem.retry_count q + 1 >= MAX_RETRIES ->
     exists d, In d (dead_letter_queue (snd (sync E w))) /\ dead_of q d) /\
  (forall d, In d (dead_letter_queue (snd (sync E w))) ->
     In d (dead_letter_queue w) \/
     exists q, In q (sync_queue w) /\
               SyncQueueItem.retry_count q + 1 >= MAX_RETRIES /\ dead_of q d).
Proof.
  intros Hup Hfails Hnd.
  destruct (failing_cycle_core E message w Hup Hfails Hnd)
    as (done & Hin & [H1 H2 H3 H4 H5 H6 H7] & R1 & R2 & R3 & R4).
  assert (Hids : forall q, In q (sync_queue w) ->
            In (SyncQueueItem.id q) (map SyncQueueItem.id done)).
  { intros q Hq. apply in_map, Hin, Hq. }
  split; [exact R1|]. split; [exact R2|]. split; [exact R3|]. split; [exact R4|].
  split; [exact H7|]. split; [|split; [|split]].
  - intros q' Hq'.
    destruct (in_dec string_dec (SyncQueueItem.id q') (map SyncQueueItem.id done))
      as [Hi|Hn].
    + destruct (H2 q' Hq' Hi) as (q & Hq & Hrest).
      exists q. split; [apply Hin, Hq | exact Hrest].
    + exfalso. apply Hn, Hids, (H1 q' Hq' Hn).
  - intros q Hq Hlt. apply (H4 q); [apply Hin, Hq | exact Hlt].
  - intros q Hq Hge. apply (H5 q); [apply Hin, Hq | exact Hge].
  - intros d Hd. destruct (H6 d Hd) as [Hd0|(q & Hq & Hrest)]; [left; exact Hd0|].
    right. exists q. split; [apply Hin, Hq | exact Hrest].
Qed.

Lemma sync_all_failing_witness :
  failed_items (fst (sync flaky_env sample_world)) = 2 /\
  exists d, In d (dead_letter_queue (snd (sync flaky_env sample_world))) /\
            DeadLetter.id d = "q2"%string /\
            DeadLetter.data d = "[object Object]"%string /\
            DeadLetter.retry_count d = 2.
Proof.
  destruct (sync_all_failing flaky_env "timeout of 30000ms exceeded" sample_world)
    as (_ & Hfailed & _ & _ & _ & _ & _ & Hdead & _).
  - reflexivity.
  - intros n request. reflexivity.
  - simpl. repeat constructor; simpl; intuition discriminate.
  - split; [rewrite Hfailed; reflexivity|].
    destruct (Hdead (sample_item "q2" "b" 15 2)) as (d & Hd & Horigin & Hdata & Hcount).
    + simpl. right. left. reflexivity.
    + simpl. unfold MAX_RETRIES. lia.
    + exists d. split; [exact Hd|]. split; [|split; [exact Hdata | exact Hcount]].
      unfold dead_origin, origin_of in Horigin. simpl in Horigin.
      injection Horigin as Hid _ _ _. exact Hid.
Defined.

(** ** Status surface *)

Lemma max_fold_spec (l : list Z) (a : Z) :
  exists m,
    fold_left (fun acc d => match acc with
                            | None => Some d
                            | Some m => Some (Z.max m d)
                            end) l (Some a) = Some m /\
    (m = a \/ In m l) /\ a <= m /\ Forall (fun d => d <= m) l.
Proof.
  revert a. induction l as [|d l IH]; intros a; simpl.
  - exists a. repeat split; [left; reflexivity | lia | constructor].
  - destruct (IH (Z.max a d)) as (m & Hm & Hin & Hle & Hall).
    exists m. split; [exact Hm|]. split; [|split; [lia|]].
    + destruct Hin as [->|Hin]; [|right; right; exact Hin].
      destruct (Z.max_spec a d) as [[_ ->]|[_ ->]]; [right; left | left]; reflexivity.
    + constructor; [lia | exact Hall].
Qed.

Lemma max_instant_spec (l : list Z) :
  match max_instant l with
  | None => l = []
  | Some m => In m l /\ Forall (fun d => d <= m) l
  end.
Proof.
  unfold max_instant. destruct l as [|d l]; simpl; [reflexivity|].
  destruct (max_fold_spec l d) as (m & Hm & Hin & Hle & Hall).
  rewrite Hm. split.
  - destruct Hin as [->|Hin]; [left; reflexivity | right; exact Hin].
  - constructor; assumption.
Qed.

Lemma synced_instants_In (ts : list TaskRow.t) (d : Z) :
  In d (flat_map (fun r => match TaskRow.last_synced_at r with
                           | Some d => [d]
                           | None => []
                           end) ts) <->
  exists r, In r ts /\ TaskRow.last_synced_at r = Some d.
Proof.
  rewrite in_flat_map. split; intros (r & Hr & H); exists r; (split; [exact Hr|]).
  - destruct (TaskRow.last_synced_at r) as [d'|]; [|destruct H].
    destruct H as [->|[]]. reflexivity.
  - rewrite H. left. reflexivity.
Qed.

(** X15: [getLastSyncTimestamp] returns nothing exactly when no task row has
    a [last_synced_at]; otherwise it returns an instant that some row carries
    and that no row's [last_synced_at] exceeds; the store is left as it is. *)
Theorem getLastSyncTimestamp_latest (w : World) :
  snd (getLastSyncTimestamp w) = w /\
  (fst (getLastSyncTimestamp w) = None <->
   forall r, In r (tasks w) -> TaskRow.last_synced_at r = None) /\
  (forall m, fst (getLastSyncTimestamp w) = Some m ->
     (exists r, In r (tasks w) /\ TaskRow.last_synced_at r = Some m) /\
     (forall r d, In r (tasks w) -> TaskRow.last_synced_at r = Some d -> d <= m)).
Proof.
  split; [reflexivity|]. unfold getLastSyncTimestamp. simpl.
  pose proof (max_instant_spec
                (flat_map (fun r => match TaskRow.last_synced_at r with
                                    | Some d => [d]
                                    | None => []
                                    end) (tasks w))) as Hspec.
  destruct (max_instant _) as [m|].
  - destruct Hspec as [Hin Hall]. split.
    + split; [intros H; discriminate H|].
      intros Hnone. apply synced_instants_In in Hin.
      destruct Hin as (r & Hr & Hsome). rewrite (Hnone r Hr) in Hsome. discriminate.
    + intros m' Hm'. injection Hm' as <-. split; [apply synced_instants_In, Hin|].
      intros r d Hr Hd. rewrite Forall_forall in Hall. apply Hall.
      apply synced_instants_In. exists r. auto.
  - split.
    + split; [|reflexivity]. intros _ r Hr.
      destruct (TaskRow.last_synced_at r) as [d|] eqn:Hd; [|reflexivity].
      assert (Hin : In d (flat_map (fun r => match TaskRow.last_synced_at r with
                                             | Some d => [d]
                                             | None => []
                                             end) (tasks w)))
        by (apply synced_instants_In; exists r; auto).
      rewrite Hspec in Hin. destruct Hin.
    + intros m' Hm'. discriminate Hm'.
Qed.

Lemma getLastSyncTimestamp_latest_witness :
  exists r, In r (tasks (snd (sync online_env sample_world))) /\
            TaskRow.last_synced_at r = Some 1004.
Proof.
  apply (proj2 (proj2 (getLastSyncTimestamp_latest (snd (sync online_env sample_world))))).
  reflexivity.
Defined.

(** X16: [getDeadLetterQueue] returns every dead-letter record, each as many
    times as the table holds it, the most recently failed first, and leaves
    the store as it is. *)
Theorem getDeadLetterQueue_newest_first (w : World) :
  snd (getDeadLetterQueue w) = w /\
  Permutation (fst (getDeadLetterQueue w)) (dead_letter_queue w) /\
  StronglySorted (fun a b => DeadLetter.failed_at b <= DeadLetter.failed_at a)
                 (fst (getDeadLetterQueue w)).
Proof.
  split; [reflexivity|]. split; [apply sort_by_perm|].
  unfold getDeadLetterQueue. simpl.
  apply StronglySorted_weaken
    with (R := fun a b => (DeadLetter.failed_at b <=? DeadLetter.failed_at a) = true).
  - intros a b H. apply Z.leb_le, H.
  - apply sort_by_sorted.
    + intros a b H. apply Z.leb_le. apply Z.leb_gt in H. lia.
    + intros a b c Hab Hbc. apply Z.leb_le. apply Z.leb_le in Hab, Hbc. lia.
Qed.

(** ** Retries run out *)

Lemma dead_letters_kept E w d :
  In d (dead_letter_queue w) -> In d (dead_letter_queue (snd (sync E w))).
Proof.
  intros Hd.
  destruct (sync_stable E _ (dead_letters_stable (dead_letter_queue w)) w) as [added Heq].
  - exists []. rewrite app_nil_r. reflexivity.
  - rewrite Heq. apply in_app_iff. left. exact Hd.
Qed.

Lemma dead_letters_kept_cycles E n : forall w d,
  In d (dead_letter_queue w) -> In d (dead_letter_queue (cycles E n w)).
Proof.
  induction n as [|n IH]; intros w d Hd; simpl; [exact Hd|].
  apply IH, dead_letters_kept, Hd.
Qed.

Lemma intent_origin (q q' : SyncQueueItem.t) :
  intent_of q' = intent_of q -> origin_of q' = origin_of q.
Proof.
  unfold intent_of, origin_of. intros H.
  injection H as Hid Htask Hop _ Hcreated.
  rewrite Hid, Htask, Hop, Hcreated. reflexivity.
Qed.

Section RetriesRunOut.
Variable E : Env.
Variable message : string.
Hypothesis always_reachable : forall n, health E n = true.
Hypothesis transport_fails : forall n request, post_batch E n request = inl message.

Lemma failing_cycles_drain (k : nat) :
  forall w,
    NoDup (map SyncQueueItem.id (sync_queue w)) ->
    (forall q, In q (sync_queue w) ->
       MAX_RETRIES - Z.of_nat k <= SyncQueueItem.retry_count q < MAX_RETRIES) ->
    sync_queue (cycles E k w) = [] /\
    (forall q, In q (sync_queue w) ->
       exists d, In d (dead_letter_queue (cycles E k w)) /\
                 dead_origin d = origin_of q /\
                 DeadLetter.data d = object_text /\
                 DeadLetter.retry_count d = MAX_RETRIES - 1).
Proof.
  induction k as [|k IH]; intros w Hnd Hbound.
  - simpl. assert (Hempty : sync_queue w = []).
    { destruct (sync_queue w) as [|q l]; [reflexivity|].
      specialize (Hbound q (or_introl eq_refl)). simpl in Hbound. lia. }
    split; [exact Hempty|]. intros q Hq. rewrite Hempty in Hq. destruct Hq.
  - destruct (failing_cycle_core E message w (always_reachable _) transport_fails Hnd)
      as (done & Hin & [H1 H2 H3 H4 H5 H6 H7] & _).
    assert (Hfrom : forall q', In q' (sync_queue (snd (sync E w))) ->
              exists q, In q (sync_queue w) /\
                        SyncQueueItem.retry_count q + 1 < MAX_RETRIES /\ bumped q q').
    { intros q' Hq'.
      destruct (in_dec string_dec (SyncQueueItem.id q') (map SyncQueueItem.id done))
        as [Hi|Hn].
      - destruct (H2 q' Hq' Hi) as (q & Hq & Hrest).
        exists q. split; [apply Hin, Hq | exact Hrest].
      - exfalso. apply Hn. apply in_map, Hin, (H1 q' Hq' Hn). }
    destruct (IH (snd (sync E w)) H7) as [Hempty Hdead].
    + intros q' Hq'. destruct (Hfrom q' Hq') as (q & Hq & Hlt & _ & Hcount & _).
      specialize (Hbound q Hq). rewrite Nat2Z.inj_succ in Hbound. lia.
    + simpl. split; [exact Hempty|].
      intros q Hq.
      destruct (Z.lt_ge_cases (SyncQueueItem.retry_count q + 1) MAX_RETRIES) as [Hlt|Hge].
      * destruct (H4 q (proj2 (Hin q) Hq) Hlt) as (q' & Hq' & Hintent & _).
        destruct (Hdead q' Hq') as (d & Hd & Heq & Hrest).
        exists d. split; [exact Hd|]. split; [|exact Hrest].
        rewrite Heq. apply intent_origin, Hintent.
      * destruct (H5 q (proj2 (Hin q) Hq) (Z.le_ge _ _ Hge))
          as (d & Hd & Heq & Hdata & Hcount).
        exists d. split; [apply dead_letters_kept_cycles, Hd|].
        split; [exact Heq|]. split; [exact Hdata|].
        specialize (Hbound q Hq). unfold MAX_RETRIES in *. lia.
Qed.
End RetriesRunOut.

(** X17: retries run out.  With the server reachable but every batch request
    failing, unique queue ids and every queue item within the retry bound,
    [MAX_RETRIES] cycles in a row empty the queue, and every item that was
    queued is then in the dead-letter table with its id, task, operation and
    [created_at], a retry count of [MAX_RETRIES - 1], and a [data] column
    that holds [object_text] in place of its snapshot. *)
Theorem retries_run_out (E : Env) (message : string) (w : World) :
  (forall n, health E n = true) ->
  (forall n request, post_batch E n request = inl message) ->
  NoDup (map SyncQueueItem.id (sync_queue w)) ->
  (forall q, In q (sync_queue w) ->
     0 <= SyncQueueItem.retry_count q < MAX_RETRIES) ->
  sync_queue (cycles E (Z.to_nat MAX_RETRIES) w) = [] /\
  (forall q, In q (sync_queue w) ->
     exists d, In d (dead_letter_queue (cycles E (Z.to_nat MAX_RETRIES) w)) /\
               dead_origin d = origin_of q /\
               DeadLetter.data d = object_text /\
               DeadLetter.retry_count d = MAX_RETRIES - 1).
Proof.
  intros Hup Hfails Hnd Hbound.
  apply (failing_cycles_drain E message Hup Hfails (Z.to_nat MAX_RETRIES) w Hnd).
  intros q Hq. specialize (Hbound q Hq). unfold MAX_RETRIES in *. simpl. lia.
Qed.

Lemma retries_run_out_witness :
  sync_queue (cycles flaky_env 3 sample_world) = [] /\
  exists d, In d (dead_letter_queue (cycles flaky_env 3 sample_world)) /\
            dead_origin d = ("q1"%string, "a"%string, Operation.update, 20) /\
            DeadLetter.data d = "[object Object]"%string /\
            DeadLetter.retry_count d = 2.
Proof.
  destruct (retries_run_out flaky_env "timeout of 30000ms exceeded" sample_world)
    as [Hempty Hdead].
  - intros n. reflexivity.
  - intros n request. reflexivity.
  - simpl. repeat constructor; simpl; intuition discriminate.
  - intros q Hq. simpl in Hq. unfold MAX_RETRIES.
    destruct Hq as [<-|[<-|[]]]; simpl; lia.
  - split; [exact Hempty|].
    apply (Hdead (sample_item "q1" "a" 20 0)). simpl. left. reflexivity.
Defined.

(** ** Response entries that are not plain successes *)

(** X18: a response entry whose client id matches no item of the batch is
    ignored, result and store unchanged.  A conflict entry carrying the
    server's snapshot is settled like a success: the task rows become synced
    and stamped, they take the [server_id] of the snapshot that wins when it
    has a non-empty one, every queue row of the task is deleted and one
    synced item is counted.  An error entry, and a conflict entry without a
    snapshot, go through the failure handler with the entry's error text, or
    with "Unknown sync error" when there is none or it is empty, and count as
    one failed item. *)
Theorem settle_item_other_entries
    (E : Env) (batch : list SyncQueueItem.t) (r : SyncResult) (p : ProcessedItem)
    (w : World) :
  (find (fun item => String.eqb (SyncQueueItem.id item) (client_id p)) batch = None ->
   settle_item E batch r p w = (r, w)) /\
  (forall item serverTask,
     find (fun item => String.eqb (SyncQueueItem.id item) (client_id p)) batch
       = Some item ->
     status p = ItemStatus.conflict -> resolved_data p = Some serverTask ->
     fst (settle_item E batch r p w) = count_synced r /\
     rows_updated
       (fun row => String.eqb (TaskRow.id row) (SyncQueueItem.task_id item))
       (fun row row' =>
          TaskRow.sync_status row' = SyncStatus.synced /\
          TaskRow.last_synced_at row' = Some (clock E (ticks w)) /\
          TaskRow.server_id row' =
            (if truthy_str
                  (Task.server_id (resolveConflict (SyncQueueItem.data item) serverTask))
             then Task.server_id (resolveConflict (SyncQueueItem.data item) serverTask)
             else TaskRow.server_id row) /\
          row_content row' = row_content row)
       (tasks w) (tasks (snd (settle_item E batch r p w))) /\
     sync_queue (snd (settle_item E batch r p w)) =
       filter (fun q => negb (String.eqb (SyncQueueItem.task_id q)
                                (SyncQueueItem.task_id item)))
              (sync_queue w)) /\
  (forall item,
     find (fun item => String.eqb (SyncQueueItem.id item) (client_id p)) batch
       = Some item ->
     status p = ItemStatus.error \/
     (status p = ItemStatus.conflict /\ resolved_data p = None) ->
     settle_item E batch r p w =
       fail_item E item (opt_str_or (pi_error p) "Unknown sync error") r w /\
     synced_items (fst (settle_item E batch r p w)) = synced_items r /\
     failed_items (fst (settle_item E batch r p w)) = failed_items r + 1 /\
     exists stamp,
       errors (fst (settle_item E batch r p w)) =
         errors r ++
           [mkSyncError (SyncQueueItem.task_id item)
              (Operation.to_string (SyncQueueItem.operation item))
              (opt_str_or (pi_error p) "Unknown sync error") stamp]).
Proof.
  split; [|split].
  - intros Hfind. unfold settle_item. rewrite Hfind. reflexivity.
  - intros item serverTask Hfind Hst Hdata.
    unfold settle_item. rewrite Hfind, Hst, Hdata.
    unfold bind, updateSyncStatus, new_Date, db_run. simpl.
    split; [reflexivity|]. split; [|reflexivity].
    apply rows_updated_map. intros row.
    pose proof (mark_synced_effect (SyncQueueItem.task_id item) SyncStatus.synced
                  (clock E (ticks w))
                  (if truthy_str
                        (Task.server_id
                           (resolveConflict (SyncQueueItem.data item) serverTask))
                   then Task.server_id
                          (resolveConflict (SyncQueueItem.data item) serverTask)
                   else None) row) as Heff.
    pose proof (mark_synced_content (SyncQueueItem.task_id item) SyncStatus.synced
                  (clock E (ticks w))
                  (if truthy_str
                        (Task.server_id
                           (resolveConflict (SyncQueueItem.data item) serverTask))
                   then Task.server_id
                          (resolveConflict (SyncQueueItem.data item) serverTask)
                   else None) row) as Hcontent.
    destruct (String.eqb (TaskRow.id row) (SyncQueueItem.task_id item)); [|exact Heff].
    destruct Heff as (H1 & H2 & H3 & _).
    split; [exact H1|]. split; [exact H2|]. split; [|exact Hcontent].
    rewrite H3.
    destruct (truthy_str
                (Task.server_id (resolveConflict (SyncQueueItem.data item) serverTask)))
      eqn:Ht; [|reflexivity].
    destruct (Task.server_id (resolveConflict (SyncQueueItem.data item) serverTask));
      [reflexivity | discriminate Ht].
  - intros item Hfind Hcase.
    assert (Heq : settle_item E batch r p w =
                  fail_item E item (opt_str_or (pi_error p) "Unknown sync error") r w).
    { unfold settle_item. rewrite Hfind.
      destruct Hcase as [Hst|[Hst Hdata]]; rewrite Hst; [|rewrite Hdata]; reflexivity. }
    split; [exact Heq|]. rewrite Heq, fail_item_result. simpl.
    split; [reflexivity|]. split; [reflexivity|]. eexists. reflexivity.
Qed.

Lemma settle_item_other_entries_witness :
  settle_item online_env [sample_item "q1" "a" 20 0] (mkSyncResult true 0 0 [])
    (mkProcessedItem "zz" None ItemStatus.success None None) sample_world
  = (mkSyncResult true 0 0 [], sample_world) /\
  failed_items
    (fst (settle_item online_env [sample_item "q1" "a" 20 0] (mkSyncResult true 0 0 [])
            (mkProcessedItem "q1" None ItemStatus.conflict None None) sample_world))
  = 1.
Proof.
  split.
  - apply (proj1 (settle_item_other_entries online_env [sample_item "q1" "a" 20 0]
                    (mkSyncResult true 0 0 [])
                    (mkProcessedItem "zz" None ItemStatus.success None None)
                    sample_world)).
    reflexivity.
  - destruct (proj2 (proj2 (settle_item_other_entries online_env
                              [sample_item "q1" "a" 20 0] (mkSyncResult true 0 0 [])
                              (mkProcessedItem "q1" None ItemStatus.conflict None None)
                              sample_world))
                (sample_item "q1" "a" 20 0) eq_refl (or_intror (conj eq_refl eq_refl)))
      as (_ & _ & Hfailed & _).
    exact Hfailed.
Defined.

(** ** Draining the queue *)

Lemma ascii_compare_lt_trans (a b c : ascii) :
  Ascii.compare a b = Lt -> Ascii.compare b c = Lt -> Ascii.compare a c = Lt.
Proof.
  unfold Ascii.compare. rewrite !N.compare_lt_iff. apply N.lt_trans.
Qed.

Lemma string_compare_lt_trans (s1 : string) :
  forall s2 s3,
    String.compare s1 s2 = Lt -> String.compare s2 s3 = Lt -> String.compare s1 s3 = Lt.
Proof.
  induction s1 as [|a s1 IH]; intros [|b s2] [|c s3]; simpl; intros H12 H23;
    try reflexivity; try discriminate.
  destruct (Ascii.compare a b) eqn:Hab; try discriminate;
    destruct (Ascii.compare b c) eqn:Hbc; try discriminate.
  - apply Ascii.compare_eq_iff in Hab, Hbc. subst.
    replace (Ascii.compare c c) with Eq
      by (symmetry; unfold Ascii.compare; apply N.compare_refl).
    apply (IH s2 s3); assumption.
  - apply Ascii.compare_eq_iff in Hab. subst. rewrite Hbc. reflexivity.
  - apply Ascii.compare_eq_iff in Hbc. subst. rewrite Hab. reflexivity.
  - rewrite (ascii_compare_lt_trans a b c Hab Hbc). reflexivity.
Qed.

Lemma string_compare_refl (s : string) : String.compare s s = Eq.
Proof.
  induction s as [|a s IH]; simpl; [reflexivity|].
  replace (Ascii.compare a a) with Eq
    by (symmetry; unfold Ascii.compare; apply N.compare_refl).
  exact IH.
Qed.

Lemma queue_order_total a b : queue_order a b = false -> queue_order b a = true.
Proof.
  unfold queue_order. rewrite (String.compare_antisym (SyncQueueItem.task_id b)).
  destruct (String.compare (SyncQueueItem.task_id a) (SyncQueueItem.task_id b));
    simpl; intros H; try reflexivity; try discriminate H.
  apply Z.leb_le. apply Z.leb_gt in H. lia.
Qed.

Lemma queue_order_trans a b c :
  queue_order a b = true -> queue_order b c = true -> queue_order a c = true.
Proof.
  unfold queue_order.
  destruct (String.compare (SyncQueueItem.task_id a) (SyncQueueItem.task_id b)) eqn:Hab;
    try discriminate;
    destruct (String.compare (SyncQueueItem.task_id b) (SyncQueueItem.task_id c)) eqn:Hbc;
    try discriminate; intros H1 H2.
  - apply String.compare_eq_iff in Hab, Hbc. rewrite Hab, Hbc, string_compare_refl.
    apply Z.leb_le. apply Z.leb_le in H1, H2. lia.
  - apply String.compare_eq_iff in Hab. rewrite Hab, Hbc. reflexivity.
  - apply String.compare_eq_iff in Hbc. rewrite <- Hbc, Hab. reflexivity.
  - rewrite (string_compare_lt_trans _ _ _ Hab Hbc). reflexivity.
Qed.

(** X19: [getSyncQueueItems] reads the whole queue, each row once, ordered
    by [task_id] (byte-wise) and, for one task, by [created_at] ascending;
    it only issues the one query. *)
Theorem getSyncQueueItems_ordered (w : World) :
  Permutation (fst (getSyncQueueItems w)) (sync_queue w) /\
  StronglySorted
    (fun a b =>
       String.compare (SyncQueueItem.task_id a) (SyncQueueItem.task_id b) = Lt \/
       (SyncQueueItem.task_id a = SyncQueueItem.task_id b /\
        SyncQueueItem.created_at a <= SyncQueueItem.created_at b))
    (fst (getSyncQueueItems w)) /\
  tasks (snd (getSyncQueueItems w)) = tasks w /\
  sync_queue (snd (getSyncQueueItems w)) = sync_queue w /\
  dead_letter_queue (snd (getSyncQueueItems w)) = dead_letter_queue w /\
  journal (snd (getSyncQueueItems w)) = journal w ++ [SelectSyncQueue].
Proof.
  unfold getSyncQueueItems, db_query. simpl.
  split; [apply sort_by_perm|]. split; [|repeat split].
  apply StronglySorted_weaken with (R := fun a b => queue_order a b = true).
  - intros a b H. unfold queue_order in H.
    destruct (String.compare (SyncQueueItem.task_id a) (SyncQueueItem.task_id b)) eqn:Hc;
      try discriminate H.
    + right. split; [apply String.compare_eq_iff, Hc | apply Z.leb_le, H].
    + left. reflexivity.
  - apply sort_by_sorted; [apply queue_order_total | apply queue_order_trans].
Qed.

(** ** Reading live rows *)

(** X20: [getAllTasks] returns exactly the rows that are not soft-deleted,
    the most recently created first, and with unique ids [getTask] finds
    every live row by its id; neither writes to the tables. *)
Theorem live_rows_readable (w : World) :
  Permutation (fst (getAllTasks w))
              (map mapRowToTask (filter (fun r => TaskRow.is_deleted r =? 0) (tasks w))) /\
  StronglySorted (fun a b => Task.created_at b <= Task.created_at a)
                 (fst (getAllTasks w)) /\
  (forall r, In r (tasks w) -> TaskRow.is_deleted r = 0 ->
             NoDup (map TaskRow.id (tasks w)) ->
             fst (getTask (TaskRow.id r) w) = Some (mapRowToTask r)) /\
  tasks (snd (getAllTasks w)) = tasks w /\
  (forall id, tasks (snd (getTask id w)) = tasks w /\
              sync_queue (snd (getTask id w)) = sync_queue w).
Proof.
  split; [|split; [|split; [|split]]].
  - unfold getAllTasks, bind, db_query. simpl. apply Permutation_map, sort_by_perm.
  - unfold getAllTasks, bind, db_query. simpl.
    apply StronglySorted_map
      with (R := fun a b => (TaskRow.created_at b <=? TaskRow.created_at a) = true).
    + intros a b Hab. simpl. apply Z.leb_le, Hab.
    + apply sort_by_sorted.
      * intros a b Hab. apply Z.leb_le. apply Z.leb_gt in Hab. lia.
      * intros a b c Hab Hbc. apply Z.leb_le. apply Z.leb_le in Hab, Hbc. lia.
  - intros r Hin Hlive Hnd. rewrite getTask_run. simpl.
    destruct (first_live (TaskRow.id r) w) as [r0|] eqn:Hfirst.
    + apply first_live_spec in Hfirst. destruct Hfirst as (Hin0 & Hid0 & _).
      rewrite (NoDup_map_eq TaskRow.id (tasks w) r0 r Hnd Hin0 Hin Hid0). reflexivity.
    + exfalso. apply (proj1 (first_live_none _ _) Hfirst r Hin eq_refl Hlive).
  - reflexivity.
  - intros id. rewrite getTask_run. split; reflexivity.
Qed.

Lemma live_rows_readable_witness :
  fst (getTask "a" sample_world)
  = Some (mapRowToTask (sample_row "a" 0 SyncStatus.pending 20)).
Proof.
  apply (proj1 (proj2 (proj2 (live_rows_readable sample_world)))
           (sample_row "a" 0 SyncStatus.pending 20)).
  - left. reflexivity.
  - reflexivity.
  - simpl. repeat constructor; simpl; intuition discriminate.
Defined.

(** ** The sync route and the status route *)

(** X21: [POST /sync] answers 503 with the synthetic connectivity result,
    without issuing any statement, when its own probe fails.  When that probe
    succeeds it runs one cycle and answers 200 exactly when the cycle
    reports success and 207 otherwise; in particular, when the cycle's own
    probe then fails, the answer is 207 carrying the single connectivity
    error, and still no statement has been issued. *)
Theorem post_sync_codes (E : Env) (w : World) :
  (health E (ticks w) = false ->
     reply_code (fst (post_sync E w)) = 503 /\
     reply_result (fst (post_sync E w)) =
       mkSyncResult false 0 0
         [mkSyncError "connection" "connectivity_check" "Server is not reachable"
            (clock E (S (ticks w)))] /\
     tasks (snd (post_sync E w)) = tasks w /\
     sync_queue (snd (post_sync E w)) = sync_queue w /\
     dead_letter_queue (snd (post_sync E w)) = dead_letter_queue w /\
     journal (snd (post_sync E w)) = journal w) /\
  (health E (ticks w) = true ->
     reply_result (fst (post_sync E w)) = fst (sync E (tick w)) /\
     reply_code (fst (post_sync E w)) =
       (if success (fst (sync E (tick w))) then 200 else 207) /\
     tasks (snd (post_sync E w)) = tasks (snd (sync E (tick w))) /\
     sync_queue (snd (post_sync E w)) = sync_queue (snd (sync E (tick w))) /\
     dead_letter_queue (snd (post_sync E w))
       = dead_letter_queue (snd (sync E (tick w)))) /\
  (health E (ticks w) = true -> health E (S (ticks w)) = false ->
     reply_code (fst (post_sync E w)) = 207 /\
     errors (reply_result (fst (post_sync E w))) =
       [mkSyncError "connection" "connectivity_check" "Server is not reachable"
          (clock E (S (S (ticks w))))] /\
     tasks (snd (post_sync E w)) = tasks w /\
     sync_queue (snd (post_sync E w)) = sync_queue w /\
     journal (snd (post_sync E w)) = journal w).
Proof.
  split; [|split].
  - intros Hdown. unfold post_sync, bind, checkConnectivity. rewrite Hdown. simpl.
    repeat split.
  - intros Hup. unfold post_sync. rewrite bind_run. unfold checkConnectivity at 1.
    simpl. rewrite Hup. simpl. rewrite !bind_run. simpl. repeat split.
  - intros Hup Hdown. unfold post_sync. rewrite bind_run.
    unfold checkConnectivity at 1. simpl. rewrite Hup. simpl. rewrite !bind_run.
    unfold sync. rewrite bind_run. unfold checkConnectivity at 1. simpl.
    rewrite Hdown. simpl. repeat split.
Qed.

Lemma post_sync_codes_witness :
  reply_code (fst (post_sync sample_env sample_world)) = 503 /\
  reply_code (fst (post_sync flaky_env sample_world)) = 207.
Proof.
  split.
  - apply (proj1 (post_sync_codes sample_env sample_world)). reflexivity.
  - destruct (proj1 (proj2 (post_sync_codes flaky_env sample_world)) eq_refl)
      as (_ & Hcode & _).
    rewrite Hcode. reflexivity.
Defined.

Lemma StronglySorted_firstn_skipn {A} (R : A -> A -> Prop) (n : nat) (l : list A) :
  StronglySorted R l ->
  forall x y, In x (firstn n l) -> In y (skipn n l) -> R x y.
Proof.
  intros Hs. rewrite <- (firstn_skipn n l) in Hs.
  apply StronglySorted_app_inv in Hs. apply Hs.
Qed.

(** X22: [GET /status] reports the number of queue rows as pending, the
    number of dead-letter rows as failed, and as preview at most ten
    dead-letter rows, none of which failed earlier than a row left out; it
    reads the store and probes the server but writes to no table. *)
Theorem get_status_summary (E : Env) (w : World) :
  st_pending_items (fst (get_status E w)) = Z.of_nat (length (sync_queue w)) /\
  st_failed_items (fst (get_status E w)) = Z.of_nat (length (dead_letter_queue w)) /\
  st_dead_letter_count (fst (get_status E w)) = Z.of_nat (length (dead_letter_queue w)) /\
  st_online (fst (get_status E w)) = health E (ticks w) /\
  length (st_dead_letter_items (fst (get_status E w)))
    = Nat.min 10 (length (dead_letter_queue w)) /\
  (forall d, In d (st_dead_letter_items (fst (get_status E w))) ->
             In d (dead_letter_queue w)) /\
  (exists rest,
     Permutation (st_dead_letter_items (fst (get_status E w)) ++ rest)
                 (dead_letter_queue w) /\
     forall d d', In d (st_dead_letter_items (fst (get_status E w))) -> In d' rest ->
                  DeadLetter.failed_at d' <= DeadLetter.failed_at d) /\
  tasks (snd (get_status E w)) = tasks w /\
  sync_queue (snd (get_status E w)) = sync_queue w /\
  dead_letter_queue (snd (get_status E w)) = dead_letter_queue w /\
  journal (snd (get_status E w)) = journal w.
Proof.
  unfold get_status, bind, getPendingSyncCount, getLastSyncTimestamp,
    checkConnectivity, getDeadLetterQueue, new_Date.
  cbn -[firstn Nat.min sort_by max_instant].
  set (sorted := sort_by (fun a b => DeadLetter.failed_at b <=? DeadLetter.failed_at a)
                   (dead_letter_queue w)).
  assert (Hperm : Permutation sorted (dead_letter_queue w)) by apply sort_by_perm.
  assert (Hsorted : StronglySorted
            (fun a b => DeadLetter.failed_at b <= DeadLetter.failed_at a) sorted).
  { apply StronglySorted_weaken
      with (R := fun a b => (DeadLetter.failed_at b <=? DeadLetter.failed_at a) = true).
    - intros a b H. apply Z.leb_le, H.
    - apply sort_by_sorted.
      + intros a b H. apply Z.leb_le. apply Z.leb_gt in H. lia.
      + intros a b c Hab Hbc. apply Z.leb_le. apply Z.leb_le in Hab, Hbc. lia. }
  split; [reflexivity|].
  split; [rewrite (Permutation_length Hperm); reflexivity|].
  split; [rewrite (Permutation_length Hperm); reflexivity|].
  split; [reflexivity|].
  split; [rewrite length_firstn, (Permutation_length Hperm); reflexivity|].
  split.
  { intros d Hd. apply (Permutation_in _ Hperm).
    rewrite <- (firstn_skipn 10 sorted). apply in_app_iff. left. exact Hd. }
  split.
  { exists (skipn 10 sorted). split.
    - rewrite firstn_skipn. exact Hperm.
    - intros d d' Hd Hd'.
      apply (StronglySorted_firstn_skipn _ 10 sorted Hsorted d d' Hd Hd'). }
  repeat split.
Qed.

Lemma get_status_summary_witness :
  In (DeadLetter.mk "q2" "b" Operation.update "[object Object]" 15 1004 2
        "timeout of 30000ms exceeded")
     (dead_letter_queue (snd (sync flaky_env sample_world))).
Proof.
  destruct (get_status_summary flaky_env (snd (sync flaky_env sample_world)))
    as (_ & _ & _ & _ & _ & Hin & _).
  apply Hin. vm_compute. left. reflexivity.
Defined.

(** ** The batch checksum *)

(** X23: the checksum of a batch is determined by the ids, operations and
    task ids of its items, in order: it does not cover the snapshots, the
    timestamps, the retry counts or the error messages, so a batch that is
    sent again after a failed attempt carries the same checksum. *)
Theorem checksum_ignores_payload (E : Env) (a b : list SyncQueueItem.t) :
  (map (fun i => (SyncQueueItem.id i, SyncQueueItem.operation i, SyncQueueItem.task_id i)) a
   = map (fun i => (SyncQueueItem.id i, SyncQueueItem.operation i, SyncQueueItem.task_id i)) b ->
   calculateBatchChecksum E a = calculateBatchChecksum E b) /\
  (forall id n message,
     calculateBatchChecksum E (map (bump_retry id n message) a)
     = calculateBatchChecksum E a).
Proof.
  assert (Hmain : forall x y : list SyncQueueItem.t,
            map (fun i => (SyncQueueItem.id i, SyncQueueItem.operation i,
                           SyncQueueItem.task_id i)) x
            = map (fun i => (SyncQueueItem.id i, SyncQueueItem.operation i,
                             SyncQueueItem.task_id i)) y ->
            calculateBatchChecksum E x = calculateBatchChecksum E y).
  { intros x y H. unfold calculateBatchChecksum. f_equal. f_equal.
    pose proof (f_equal
      (map (fun t : string * Operation.t * string =>
              (fst (fst t) ++ "-" ++ Operation.to_string (snd (fst t)) ++ "-"
               ++ snd t)%string)) H) as H'.
    rewrite !map_map in H'. exact H'. }
  split; [apply Hmain|].
  intros id n message. apply Hmain. rewrite map_map. apply map_ext.
  intros q. unfold bump_retry. destruct (String.eqb _ _); reflexivity.
Qed.

Lemma checksum_ignores_payload_witness :
  calculateBatchChecksum sample_env [sample_item "q1" "a" 20 0]
  = calculateBatchChecksum sample_env [sample_item "q1" "a" 99 2].
Proof.
  apply (proj1 (checksum_ignores_payload sample_env
                  [sample_item "q1" "a" 20 0] [sample_item "q1" "a" 99 2])).
  reflexivity.
Defined.
